(** * The selective-disclosure Merkle engine of concerto-core

    A shallow embedding of [lib/merkle.js], [lib/merkle/saltvisitor.js],
    [lib/merkle/rootvisitor.js], [lib/merkle/proofvisitor.js],
    [lib/merkle/verifyvisitor.js] and [lib/merkle/utils.js], together with
    the properties of the four engines.

    The engines are JavaScript visitors that thread a mutable [parameters]
    object through the walk and, for the salt engine, mutate the typed
    objects they visit.  They are embedded in a state-and-exception monad
    over a store of typed objects; recursion over the class declarations is
    bounded by a fuel argument that stands for the depth of the JS call
    stack. *)

From Stdlib Require Import ZArith Strings.String Strings.Ascii Strings.Byte List Lia.
From stdpp Require Import base option list gmap strings pretty.

Local Open Scope Z_scope.

(** ** Buffers, hexadecimal text and UTF-8 text *)

(** A Node [Buffer] is a sequence of bytes. *)
Abbreviation Buffer := (list byte).

#[global] Instance byte_eq_decision : EqDecision byte := Byte.byte_eq_dec.

Definition Z_of_byte (b : byte) : Z := Z.of_N (Byte.to_N b).

Definition byte_of_Z (z : Z) : byte :=
  match Byte.of_N (Z.to_N (z mod 256)) with
  | Some b => b
  | None => x00
  end.

(** A JS string is represented by the bytes of its UTF-8 encoding, so that
    [hash.update(text, 'utf8')] feeds the hash with the bytes of the text. *)
Definition utf8 (s : string) : Buffer := list_byte_of_string s.

Module Hex.

Definition digit (n : Z) : ascii :=
  if n <? 10 then ascii_of_N (Z.to_N (48 + n))
  else ascii_of_N (Z.to_N (87 + n)).

(** [buf.toString('hex')]: two lowercase digits per byte. *)
Fixpoint encode (b : Buffer) : string :=
  match b with
  | nil => EmptyString
  | x :: r =>
      String (digit (Z_of_byte x / 16))
        (String (digit (Z_of_byte x mod 16)) (encode r))
  end.

Definition value (c : ascii) : option Z :=
  let n := Z.of_N (N_of_ascii c) in
  if (48 <=? n) && (n <=? 57) then Some (n - 48)
  else if (97 <=? n) && (n <=? 102) then Some (n - 87)
  else if (65 <=? n) && (n <=? 70) then Some (n - 55)
  else None.

(** [Buffer.from(text, 'hex')]: decoding stops at the first pair that is
    not made of two hexadecimal digits; a trailing odd digit is dropped. *)
Fixpoint decode (s : string) : Buffer :=
  match s with
  | String c1 (String c2 r) =>
      match value c1, value c2 with
      | Some h, Some l => byte_of_Z (16 * h + l) :: decode r
      | _, _ => nil
      end
  | _ => nil
  end.

End Hex.

(** ** SHA-256, the digest behind [crypto.createHash('sha256')] *)

Module SHA256.

Definition mask32 : Z := 4294967295.
Definition w32 (x : Z) : Z := Z.land x mask32.
Definition add32 (x y : Z) : Z := w32 (x + y).
Definition rotr (n x : Z) : Z :=
  Z.lor (Z.shiftr x n) (w32 (Z.shiftl x (32 - n))).
Definition not32 (x : Z) : Z := Z.lxor x mask32.

Definition Ch (x y z : Z) : Z := Z.lxor (Z.land x y) (Z.land (not32 x) z).
Definition Maj (x y z : Z) : Z :=
  Z.lxor (Z.lxor (Z.land x y) (Z.land x z)) (Z.land y z).
Definition Sigma0 (x : Z) : Z :=
  Z.lxor (Z.lxor (rotr 2 x) (rotr 13 x)) (rotr 22 x).
Definition Sigma1 (x : Z) : Z :=
  Z.lxor (Z.lxor (rotr 6 x) (rotr 11 x)) (rotr 25 x).
Definition sigma0 (x : Z) : Z :=
  Z.lxor (Z.lxor (rotr 7 x) (rotr 18 x)) (Z.shiftr x 3).
Definition sigma1 (x : Z) : Z :=
  Z.lxor (Z.lxor (rotr 17 x) (rotr 19 x)) (Z.shiftr x 10).

(** Padding: a one bit, zeros up to 56 modulo 64, the bit length on 64
    bits, big-endian. *)
Definition be_bytes (n : nat) (x : Z) : list Z :=
  map (fun i => Z.land (Z.shiftr x (8 * Z.of_nat i)) 255) (rev (seq 0 n)).

Definition pad (m : list Z) : list Z :=
  let len := Z.of_nat (length m) in
  let k := Z.to_nat ((55 - len) mod 64) in
  m ++ 128 :: repeat 0 k ++ be_bytes 8 (8 * len).

Fixpoint words (fuel : nat) (bs : list Z) : list Z :=
  match fuel, bs with
  | S n, b0 :: b1 :: b2 :: b3 :: r =>
      (Z.shiftl b0 24 + Z.shiftl b1 16 + Z.shiftl b2 8 + b3) :: words n r
  | _, _ => nil
  end.

(** The round constants and the initial hash value, big-endian words written
    in hexadecimal. *)
Definition K : list Z :=
  words 64 (map Z_of_byte (Hex.decode
    ("428a2f9871374491b5c0fbcfe9b5dba53956c25b59f111f1923f82a4ab1c5ed5"
      ++ "d807aa9812835b01243185be550c7dc372be5d7480deb1fe9bdc06a7c19bf174"
      ++ "e49b69c1efbe47860fc19dc6240ca1cc2de92c6f4a7484aa5cb0a9dc76f988da"
      ++ "983e5152a831c66db00327c8bf597fc7c6e00bf3d5a7914706ca635114292967"
      ++ "27b70a852e1b21384d2c6dfc53380d13650a7354766a0abb81c2c92e92722c85"
      ++ "a2bfe8a1a81a664bc24b8b70c76c51a3d192e819d6990624f40e3585106aa070"
      ++ "19a4c1161e376c082748774c34b0bcb5391c0cb34ed8aa4a5b9cca4f682e6ff3"
      ++ "748f82ee78a5636f84c878148cc7020890befffaa4506cebbef9a3f7c67178f2"))).

Definition H0 : list Z :=
  words 8 (map Z_of_byte (Hex.decode
    "6a09e667bb67ae853c6ef372a54ff53a510e527f9b05688c1f83d9ab5be0cd19")).

(** The message schedule, most recent word first. *)
Fixpoint extend (n : nat) (w : list Z) : list Z :=
  match n with
  | O => w
  | S n' =>
      let x :=
        add32 (add32 (sigma1 (nth 1 w 0)) (nth 6 w 0))
              (add32 (sigma0 (nth 14 w 0)) (nth 15 w 0)) in
      extend n' (x :: w)
  end.

Definition schedule (block : list Z) : list Z :=
  rev (extend 48 (rev block)).

Definition round (st : list Z) (kw : Z * Z) : list Z :=
  match st with
  | [a; b; c; d; e; f; g; h] =>
      let t1 :=
        add32 (add32 (add32 h (Sigma1 e)) (add32 (Ch e f g) (fst kw)))
              (snd kw) in
      let t2 := add32 (Sigma0 a) (Maj a b c) in
      [add32 t1 t2; a; b; c; add32 d t1; e; f; g]
  | _ => st
  end.

Definition compress (h : list Z) (block : list Z) : list Z :=
  let st := fold_left round (combine K (schedule block)) h in
  map (fun p => add32 (fst p) (snd p)) (combine h st).

Fixpoint blocks (fuel : nat) (h : list Z) (ws : list Z) : list Z :=
  match fuel with
  | O => h
  | S n =>
      match ws with
      | nil => h
      | _ => blocks n (compress h (firstn 16 ws)) (skipn 16 ws)
      end
  end.

Definition digest_words (m : list Z) : list Z :=
  let p := pad m in
  let ws := words (length p) p in
  blocks (length ws) H0 ws.

Definition sha256 (m : Buffer) : Buffer :=
  map byte_of_Z (flat_map (be_bytes 4) (digest_words (map Z_of_byte m))).

End SHA256.

Abbreviation sha256 := SHA256.sha256.

(** ** The schema, as the engines see it *)

(** Modelled from the spec: the schema-introspection interface
    ([ModelManager], [ClassDeclaration], [Field], [RelationshipDeclaration]
    and [ModelUtil] are not among the sources).  For a class name it gives
    the ordered list of the properties of the class; for a property, its
    name and whether it is a relationship or a field, and for a field whether
    it is an array and whether its type is primitive, an enumeration or a
    class. *)

Inductive PrimitiveType :=
  TString | TBoolean | TInteger | TLong | TDouble | TDateTime.

(** What a field's type resolves to: a primitive, an enumeration, or a class
    (concept, asset, participant, transaction, event). *)
Inductive FieldType :=
| Primitive (t : PrimitiveType)
| Enum (fqn : string)
| Class (fqn : string).

Record Field := mkField {
  f_name : string;
  f_type : FieldType;
  f_array : bool
}.

Record RelationshipDeclaration := mkRelationshipDeclaration {
  rd_name : string;
  rd_type : string;
  rd_array : bool
}.

(** A property of a class is a field or a relationship. *)
Inductive Property :=
| AField (field : Field)
| ARelationship (relationshipDeclaration : RelationshipDeclaration).

Record ClassDeclaration := mkClassDeclaration {
  cd_name : string;
  cd_properties : list Property
}.

(** The model manager maps fully qualified names to class declarations. *)
Abbreviation ModelManager := (gmap string ClassDeclaration).

Definition getName (property : Property) : string :=
  match property with
  | AField field => f_name field
  | ARelationship r => rd_name r
  end.

Definition isArray (field : Field) : bool := f_array field.

Definition isPrimitive (field : Field) : bool :=
  match f_type field with Primitive _ => true | _ => false end.

Definition isEnum (field : Field) : bool :=
  match f_type field with Enum _ => true | _ => false end.

Definition getFullyQualifiedTypeName (field : Field) : string :=
  match f_type field with
  | Primitive TString => "String"
  | Primitive TBoolean => "Boolean"
  | Primitive TInteger => "Integer"
  | Primitive TLong => "Long"
  | Primitive TDouble => "Double"
  | Primitive TDateTime => "DateTime"
  | Enum fqn => fqn
  | Class fqn => fqn
  end.

Definition getProperties (classDeclaration : ClassDeclaration) : list Property :=
  cd_properties classDeclaration.

(** ** Run-time values and typed objects *)

(** Typed objects are mutable and are passed by reference. *)
Abbreviation loc := positive.

(** The JS values the engines push, pop, hash and disclose.  A number is an
    integer in the safe range; a [DateTime] value is carried by the text its
    [toJSON] returns. *)
Inductive Value :=
| VUndefined
| VString (s : string)
| VBoolean (b : bool)
| VNumber (n : Z)
| VDateTime (iso : string)
| VBuffer (b : Buffer)
| VArray (elements : list Value)
| VResource (l : loc)
| VRelationship (fqn : string) (identifier : string).

(** Modelled from the spec: the typed object ([Resource] is not among the
    sources).  It carries its fully qualified type, a value for each
    property, and the salt store read by [getSalt] and written by
    [setSalt]. *)
Record Resource := mkResource {
  r_type : string;
  r_values : gmap string Value;
  r_salts : gmap string Buffer
}.

(** ** Exceptions *)

(** The runtime's own [TypeError]s that the engines can run into. *)
Inductive TypeErrorCause :=
| InvalidArgType                      (* hash.update with neither text nor Buffer *)
| PropertyOfNullish (prop : string)   (* reading [prop] of null or undefined *)
| NotAFunction (method : string)      (* calling a method the value lacks *)
| NotIterable.                        (* destructuring undefined as an array *)

Inductive Exception :=
| Error (message : string) (found : option Value)
    (* [new Error(message)], or [new Error(message + found)] *)
| TypeError (cause : TypeErrorCause)
| TypeNotFound (fqn : string)         (* [modelManager.getType] of an unknown name *)
| RandomnessUnavailable               (* [crypto.randomBytes] without entropy *)
| InvalidReference (l : loc)          (* a reference to no object *)
| Unmodelled (what : string).         (* behaviour outside this development *)

(** What a caller can read off a caught [Error]: the literal text of its
    message.  The messages of the runtime's own exceptions are not
    modelled. *)
Definition error_message (e : Exception) : string :=
  match e with
  | Error message _ => message
  | _ => ""
  end.

(** Modelled from the spec: the abstract error kinds (the sources declare no
    error classes of their own). *)
Inductive ErrorKind :=
| NotImplemented
| SaltMissing
| TypeMismatch
| PathInvalid
| RandomnessUnavailableKind
| MalformedProof.

(** The kind an exception of the engines stands for.  The engines raise
    [Error]s for unsupported constructs and for a value that is not the typed
    object the schema announces; every other failure is an exception of the
    runtime that names no kind. *)
Definition error_kind (e : Exception) : option ErrorKind :=
  match e with
  | Error message None =>
      if String.prefix "Not implemented for " message then Some NotImplemented
      else None
  | Error message (Some _) =>
      if String.prefix "Expected a " message then Some TypeMismatch else None
  | RandomnessUnavailable => Some RandomnessUnavailableKind
  | _ => None
  end.

(** ** The state of a call and the monad of the walks *)

(** The [parameters] object the visitors thread through a walk.  A field an
    engine does not set is left at its default. *)
Record Parameters := mkParameters {
  p_root : bool;
  p_path : list string;
  p_currentPath : list string;
  p_stack : list Value;
  p_hashes : list (list Buffer * list Buffer);
  p_value : Value;
  p_salt : Buffer
}.

Definition no_parameters : Parameters :=
  mkParameters false [] [] [] [] VUndefined [].

Record State := mkState {
  objects : gmap loc Resource;     (* the typed objects *)
  parameters : Parameters;
  entropy : list byte              (* what [crypto.randomBytes] will draw *)
}.

Inductive Outcome (A : Type) :=
| Return (a : A) (s : State)
| Throw (e : Exception) (s : State)
| Exhausted (s : State).
Arguments Return {A} a s.
Arguments Throw {A} e s.
Arguments Exhausted {A} s.

Definition M (A : Type) : Type := State -> Outcome A.

Definition ret {A} (a : A) : M A := fun s => Return a s.

Definition bind {A B} (m : M A) (k : A -> M B) : M B :=
  fun s =>
    match m s with
    | Return a s' => k a s'
    | Throw e s' => Throw e s'
    | Exhausted s' => Exhausted s'
    end.

Definition throw {A} (e : Exception) : M A := fun s => Throw e s.

(** The call depth went beyond the fuel. *)
Definition exhausted {A} : M A := fun s => Exhausted s.

Declare Scope walk_scope.
Delimit Scope walk_scope with walk.
Notation "x <- m ;; k" := (bind m (fun x => k))
  (at level 100, m at next level, right associativity) : walk_scope.
Notation "m ;;; k" := (bind m (fun _ => k))
  (at level 100, right associativity) : walk_scope.
Local Open Scope walk_scope.

Definition get_parameters : M Parameters := fun s => Return (parameters s) s.

Definition set_parameters (p : Parameters) : M unit :=
  fun s => Return tt (mkState (objects s) p (entropy s)).

Definition with_stack (st : list Value) (p : Parameters) : Parameters :=
  mkParameters (p_root p) (p_path p) (p_currentPath p) st
               (p_hashes p) (p_value p) (p_salt p).

Definition with_currentPath (cp : list string) (p : Parameters) : Parameters :=
  mkParameters (p_root p) (p_path p) cp (p_stack p)
               (p_hashes p) (p_value p) (p_salt p).

Definition with_root (r : bool) (p : Parameters) : Parameters :=
  mkParameters r (p_path p) (p_currentPath p) (p_stack p)
               (p_hashes p) (p_value p) (p_salt p).

Definition with_hashes (h : list (list Buffer * list Buffer)) (p : Parameters)
  : Parameters :=
  mkParameters (p_root p) (p_path p) (p_currentPath p) (p_stack p)
               h (p_value p) (p_salt p).

(** [for (const x of xs) { body }]. *)
Fixpoint for_each {A} (xs : list A) (body : A -> M unit) : M unit :=
  match xs with
  | [] => ret tt
  | x :: rest => body x ;;; for_each rest body
  end.

(** [const out = []; for (const x of xs) { ...; out.push(y) }]. *)
Fixpoint for_collect {A B} (xs : list A) (body : A -> M B) : M (list B) :=
  match xs with
  | [] => ret []
  | x :: rest =>
      y <- body x ;;
      ys <- for_collect rest body ;;
      ret (y :: ys)
  end.

(** *** The value stack *)

(** Modelled from the spec: the explicit value stack of the walker
    ([TypedStack] is not among the sources), pushed before recursion and
    popped at the top of every visit; popping an empty stack is an error. *)

Definition stack_push (v : Value) : M unit :=
  p <- get_parameters ;;
  set_parameters (with_stack (v :: p_stack p) p).

Definition stack_pop : M Value :=
  p <- get_parameters ;;
  match p_stack p with
  | [] => throw (Error "Stack is empty!" None)
  | v :: rest => set_parameters (with_stack rest p) ;;; ret v
  end.

(** *** The path stack ([parameters.currentPath]) *)

Definition currentPath_push (name : string) : M unit :=
  p <- get_parameters ;;
  set_parameters (with_currentPath (p_currentPath p ++ [name]) p).

Definition currentPath_pop : M unit :=
  p <- get_parameters ;;
  set_parameters (with_currentPath (removelast (p_currentPath p)) p).

(** [const { root } = parameters; if (root) { parameters.root = false; }] *)
Definition clear_root : M unit :=
  p <- get_parameters ;;
  if p_root p then set_parameters (with_root false p) else ret tt.

(** *** Typed objects *)

Definition the_object (l : loc) : M Resource :=
  fun s =>
    match objects s !! l with
    | Some r => Return r s
    | None => Throw (InvalidReference l) s
    end.

(** [typed[name]] *)
Definition get_value (l : loc) (name : string) : M Value :=
  r <- the_object l ;;
  ret (default VUndefined (r_values r !! name)).

(** [typed.getSalt(name)] *)
Definition getSalt (l : loc) (name : string) : M Value :=
  r <- the_object l ;;
  ret (match r_salts r !! name with
       | Some b => VBuffer b
       | None => VUndefined
       end).

(** [typed.setSalt(name, salt)] *)
Definition setSalt (l : loc) (name : string) (salt : Buffer) : M unit :=
  r <- the_object l ;;
  fun s =>
    Return tt
      (mkState
         (<[l := mkResource (r_type r) (r_values r) (<[name := salt]> (r_salts r))]>
            (objects s))
         (parameters s) (entropy s)).

(** [value.getFullyQualifiedType()] *)
Definition getFullyQualifiedType (v : Value) : M string :=
  match v with
  | VResource l => r <- the_object l ;; ret (r_type r)
  | VRelationship fqn _ => ret fqn
  | VUndefined => throw (TypeError (PropertyOfNullish "getFullyQualifiedType"))
  | _ => throw (TypeError (NotAFunction "getFullyQualifiedType"))
  end.

(** [modelManager.getType(fqn)], which throws for a name that is not
    declared. *)
Definition getType (modelManager : ModelManager) (fqn : string)
  : M ClassDeclaration :=
  match modelManager !! fqn with
  | Some classDeclaration => ret classDeclaration
  | None => throw (TypeNotFound fqn)
  end.

(** [crypto.randomBytes(n)]: the next [n] bytes of the entropy of the
    state. *)
Definition randomBytes (n : nat) : M Buffer :=
  fun s =>
    if (n <=? length (entropy s))%nat
    then Return (take n (entropy s))
                (mkState (objects s) (parameters s) (drop n (entropy s)))
    else Throw RandomnessUnavailable s.

(** *** [JSON.stringify] on the values of primitive fields *)

(** Text is quoted with the escapes of JSON; a byte of a multi-byte UTF-8
    sequence is kept as it is.  A number is an integer and is written in
    decimal.  [undefined] has no JSON text; the JSON text of an object (a
    typed object, an array, a Buffer) is outside this development. *)

Definition dquote : ascii := "034"%char.
Definition backslash : ascii := "092"%char.

Definition escape (c : ascii) : string :=
  let n := Z.of_N (N_of_ascii c) in
  if n =? 34 then String backslash (String dquote "")
  else if n =? 92 then String backslash (String backslash "")
  else if n =? 8 then String backslash "b"
  else if n =? 9 then String backslash "t"
  else if n =? 10 then String backslash "n"
  else if n =? 12 then String backslash "f"
  else if n =? 13 then String backslash "r"
  else if n <? 32 then
    String backslash
      (String "u" (String "0" (String "0"
         (String (Hex.digit (n / 16)) (String (Hex.digit (n mod 16)) "")))))
  else String c "".

Fixpoint escape_all (s : string) : string :=
  match s with
  | EmptyString => EmptyString
  | String c r => escape c ++ escape_all r
  end.

Definition quote (s : string) : string :=
  String dquote (escape_all s ++ String dquote "").

Inductive Json :=
| JText (text : string)
| JUndefined
| JOther.

Definition JSON_stringify (v : Value) : Json :=
  match v with
  | VUndefined => JUndefined
  | VString s => JText (quote s)
  | VBoolean b => JText (if b then "true" else "false")
  | VNumber n => JText (pretty n)
  | VDateTime iso => JText (quote iso)
  | _ => JOther
  end.

(** *** The hash object of [crypto.createHash('sha256')] *)

Definition createHash : Buffer := [].
Definition update (hash data : Buffer) : Buffer := hash ++ data.
Definition digest (hash : Buffer) : Buffer := sha256 hash.

(** [hash.update(serializedValue, 'utf8')] *)
Definition update_json (hash : Buffer) (serializedValue : Json) : M Buffer :=
  match serializedValue with
  | JText text => ret (update hash (utf8 text))
  | JUndefined => throw (TypeError InvalidArgType)
  | JOther => throw (Unmodelled "JSON.stringify of an object")
  end.

(** [hash.update(salt)] on a popped value *)
Definition update_value (hash : Buffer) (data : Value) : M Buffer :=
  match data with
  | VBuffer b => ret (update hash b)
  | VString s => ret (update hash (utf8 s))
  | _ => throw (TypeError InvalidArgType)
  end.

(** ** [lib/merkle/utils.js] *)

Fixpoint pathEquals_from (p1 p2 : list string) : bool :=
  match p1, p2 with
  | x :: r1, y :: r2 => if String.eqb x y then pathEquals_from r1 r2 else false
  | _, _ => true
  end.

Definition pathEquals (p1 p2 : list string) : bool :=
  if negb (length p1 =? length p2)%nat then false
  else pathEquals_from p1 p2.

(** What the proof visitor returns for a property: a digest, the disclosure
    [{ $value: true, value, salt }], or the results of a nested class. *)
Inductive ProofNode :=
| Digest (b : Buffer)
| Disclosure (value salt : Value)
| Results (results : list ProofNode).

Record Split := mkSplit {
  before : list Buffer;
  child : option ProofNode;
  after : list Buffer
}.

Fixpoint splitProof_from (p : list ProofNode) (acc : Split) : Split :=
  match p with
  | [] => acc
  | e :: rest =>
      match e with
      | Digest b =>
          match child acc with
          | None =>
              splitProof_from rest
                (mkSplit (before acc ++ [b]) (child acc) (after acc))
          | Some _ =>
              splitProof_from rest
                (mkSplit (before acc) (child acc) (after acc ++ [b]))
          end
      | _ => splitProof_from rest (mkSplit (before acc) (Some e) (after acc))
      end
  end.

Definition splitProof (p : list ProofNode) : Split :=
  splitProof_from p (mkSplit [] None []).

(** ** [lib/merkle/saltvisitor.js] *)

Module SaltVisitor.

Definition visitRelationshipDeclaration : M (option Buffer) :=
  relationship <- stack_pop ;;
  match relationship with
  | VRelationship _ _ => throw (Error "Not implemented for Relationships" None)
  | _ => throw (Error "Expected a Relationship, but found " (Some relationship))
  end.

Definition visitField (modelManager : ModelManager)
    (accept : ClassDeclaration -> M unit) (field : Field) : M (option Buffer) :=
  value <- stack_pop ;;
  if isArray field then throw (Error "Not implemented for Array fields" None)
  else if isPrimitive field then
    salt <- randomBytes 32 ;;
    ret (Some salt)
  else if isEnum field then throw (Error "Not implemented for Enum fields" None)
  else
    stack_push value ;;;
    fqn <- getFullyQualifiedType value ;;
    classDeclaration <- getType modelManager fqn ;;
    accept classDeclaration ;;;
    ret None.

Definition visit (modelManager : ModelManager)
    (accept : ClassDeclaration -> M unit) (thing : Property) : M (option Buffer) :=
  match thing with
  | ARelationship _ => visitRelationshipDeclaration
  | AField field => visitField modelManager accept field
  end.

Fixpoint visitClassDeclaration (modelManager : ModelManager) (fuel : nat)
    (classDeclaration : ClassDeclaration) : M unit :=
  match fuel with
  | O => exhausted
  | S depth =>
      typed <- stack_pop ;;
      match typed with
      | VResource l =>
          for_each (getProperties classDeclaration) (fun property =>
            let name := getName property in
            value <- get_value l name ;;
            stack_push value ;;;
            salt <- visit modelManager
                      (visitClassDeclaration modelManager depth) property ;;
            match salt with
            | Some salt => setSalt l name salt
            | None => ret tt
            end)
      | _ => throw (Error "Expected a Resource, but found " (Some typed))
      end
  end.

End SaltVisitor.

(** ** [lib/merkle/rootvisitor.js] *)

Module RootVisitor.

(** The class walk pushes the value and then the salt, so the single pop
    here takes the salt. *)
Definition visitRelationshipDeclaration : M Buffer :=
  relationship <- stack_pop ;;
  match relationship with
  | VRelationship _ _ => throw (Error "Not implemented for Relationships" None)
  | _ => throw (Error "Expected a Relationship, but found " (Some relationship))
  end.

Definition visitField (modelManager : ModelManager)
    (accept : ClassDeclaration -> M Buffer) (field : Field) : M Buffer :=
  salt <- stack_pop ;;
  value <- stack_pop ;;
  if isArray field then throw (Error "Not implemented for Array fields" None)
  else if isPrimitive field then
    let hash := createHash in
    let serializedValue := JSON_stringify value in
    hash <- update_json hash serializedValue ;;
    hash <- update_value hash salt ;;
    ret (digest hash)
  else if isEnum field then throw (Error "Not implemented for Enum fields" None)
  else
    stack_push value ;;;
    fqn <- getFullyQualifiedType value ;;
    classDeclaration <- getType modelManager fqn ;;
    accept classDeclaration.

Definition visit (modelManager : ModelManager)
    (accept : ClassDeclaration -> M Buffer) (thing : Property) : M Buffer :=
  match thing with
  | ARelationship _ => visitRelationshipDeclaration
  | AField field => visitField modelManager accept field
  end.

Fixpoint visitClassDeclaration (modelManager : ModelManager) (fuel : nat)
    (classDeclaration : ClassDeclaration) : M Buffer :=
  match fuel with
  | O => exhausted
  | S depth =>
      typed <- stack_pop ;;
      match typed with
      | VResource l =>
          hashes <-
            for_collect (getProperties classDeclaration) (fun property =>
              let name := getName property in
              value <- get_value l name ;;
              salt <- getSalt l name ;;
              stack_push value ;;;
              stack_push salt ;;;
              visit modelManager
                (visitClassDeclaration modelManager depth) property) ;;
          let root := fold_left update hashes createHash in
          ret (digest root)
      | _ => throw (Error "Expected a Resource, but found " (Some typed))
      end
  end.

End RootVisitor.

(** ** [lib/merkle/proofvisitor.js] *)

Module ProofVisitor.

Definition visitRelationshipDeclaration : M ProofNode :=
  relationship <- stack_pop ;;
  match relationship with
  | VRelationship _ _ => throw (Error "Not implemented for Relationships" None)
  | _ => throw (Error "Expected a Relationship, but found " (Some relationship))
  end.

Definition visitField (modelManager : ModelManager)
    (accept : ClassDeclaration -> M (list ProofNode)) (field : Field)
  : M ProofNode :=
  salt <- stack_pop ;;
  value <- stack_pop ;;
  if isArray field then throw (Error "Not implemented for Array fields" None)
  else if isPrimitive field then
    p <- get_parameters ;;
    if pathEquals (p_path p) (p_currentPath p) then
      ret (Disclosure value salt)
    else
      let hash := createHash in
      let serializedValue := JSON_stringify value in
      hash <- update_json hash serializedValue ;;
      hash <- update_value hash salt ;;
      ret (Digest (digest hash))
  else if isEnum field then throw (Error "Not implemented for Enum fields" None)
  else
    stack_push value ;;;
    fqn <- getFullyQualifiedType value ;;
    classDeclaration <- getType modelManager fqn ;;
    results <- accept classDeclaration ;;
    ret (Results results).

Definition visit (modelManager : ModelManager)
    (accept : ClassDeclaration -> M (list ProofNode)) (thing : Property)
  : M ProofNode :=
  match thing with
  | ARelationship _ => visitRelationshipDeclaration
  | AField field => visitField modelManager accept field
  end.

Fixpoint visitClassDeclaration (modelManager : ModelManager) (fuel : nat)
    (classDeclaration : ClassDeclaration) : M (list ProofNode) :=
  match fuel with
  | O => exhausted
  | S depth =>
      clear_root ;;;
      typed <- stack_pop ;;
      match typed with
      | VResource l =>
          for_collect (getProperties classDeclaration) (fun property =>
            let name := getName property in
            currentPath_push name ;;;
            value <- get_value l name ;;
            salt <- getSalt l name ;;
            stack_push value ;;;
            stack_push salt ;;;
            result <- visit modelManager
                        (visitClassDeclaration modelManager depth) property ;;
            currentPath_pop ;;;
            ret result)
      | _ => throw (Error "Expected a Resource, but found " (Some typed))
      end
  end.

End ProofVisitor.

(** ** [lib/merkle/verifyvisitor.js] *)

Module VerifyVisitor.

Definition visitRelationshipDeclaration : M (option Buffer) :=
  throw (Error "Not implemented for Relationships" None).

Definition visitField (modelManager : ModelManager)
    (accept : ClassDeclaration -> M (option Buffer)) (field : Field)
  : M (option Buffer) :=
  if isArray field then throw (Error "Not implemented for Array fields" None)
  else if isPrimitive field then
    p <- get_parameters ;;
    if pathEquals (p_path p) (p_currentPath p) then
      let value := p_value p in
      let salt := p_salt p in
      let hash := createHash in
      let serializedValue := JSON_stringify value in
      hash <- update_json hash serializedValue ;;
      let hash := update hash salt in
      ret (Some (digest hash))
    else ret None
  else if isEnum field then throw (Error "Not implemented for Enum fields" None)
  else
    classDeclaration <- getType modelManager (getFullyQualifiedTypeName field) ;;
    accept classDeclaration.

Definition visit (modelManager : ModelManager)
    (accept : ClassDeclaration -> M (option Buffer)) (thing : Property)
  : M (option Buffer) :=
  match thing with
  | ARelationship _ => visitRelationshipDeclaration
  | AField field => visitField modelManager accept field
  end.

(** [const [ before, after ] = hashes.shift()] *)
Definition hashes_shift : M (list Buffer * list Buffer) :=
  p <- get_parameters ;;
  match p_hashes p with
  | [] => throw (TypeError NotIterable)
  | entry :: rest => set_parameters (with_hashes rest p) ;;; ret entry
  end.

(** The loop over the properties, which returns from the walk at the first
    property with a result. *)
Fixpoint visitProperties (accept : Property -> M (option Buffer))
    (properties : list Property) : M (option Buffer) :=
  match properties with
  | [] => ret None
  | property :: rest =>
      let name := getName property in
      currentPath_push name ;;;
      result <- accept property ;;
      currentPath_pop ;;;
      match result with
      | Some result =>
          entry <- hashes_shift ;;
          let hash := createHash in
          let hash := fold_left update (fst entry) hash in
          let hash := update hash result in
          let hash := fold_left update (snd entry) hash in
          ret (Some (digest hash))
      | None => visitProperties accept rest
      end
  end.

Fixpoint visitClassDeclaration (modelManager : ModelManager) (fuel : nat)
    (classDeclaration : ClassDeclaration) : M (option Buffer) :=
  match fuel with
  | O => exhausted
  | S depth =>
      clear_root ;;;
      visitProperties
        (visit modelManager (visitClassDeclaration modelManager depth))
        (getProperties classDeclaration)
  end.

End VerifyVisitor.

(** ** [lib/merkle.js] *)

(** The public proof: the disclosed value, its salt in hexadecimal, and one
    [before, after] pair of hexadecimal digests per level. *)
Record Proof := mkProof {
  proof_hashes : list (list string * list string);
  proof_value : Value;
  proof_salt : string
}.

Fixpoint node_depth (n : ProofNode) : nat :=
  match n with
  | Results results =>
      S (fold_right (fun e d => Nat.max (node_depth e) d) O results)
  | _ => O
  end.

Module Merkle.

Definition salt (modelManager : ModelManager) (fuel : nat) (typed : Value)
  : M unit :=
  fqn <- getFullyQualifiedType typed ;;
  classDeclaration <- getType modelManager fqn ;;
  set_parameters (with_stack [typed] no_parameters) ;;;
  SaltVisitor.visitClassDeclaration modelManager fuel classDeclaration.

Definition root (modelManager : ModelManager) (fuel : nat) (typed : Value)
  : M string :=
  fqn <- getFullyQualifiedType typed ;;
  classDeclaration <- getType modelManager fqn ;;
  set_parameters (with_stack [typed] no_parameters) ;;;
  root <- RootVisitor.visitClassDeclaration modelManager fuel classDeclaration ;;
  ret (Hex.encode root).

(** [child.salt.toString('hex')] *)
Definition salt_toString_hex (salt : Value) : M string :=
  match salt with
  | VBuffer b => ret (Hex.encode b)
  | VUndefined => throw (TypeError (PropertyOfNullish "toString"))
  | _ => throw (Unmodelled "toString('hex') of a value that is no Buffer")
  end.

(** The [while (p)] loop; [steps] bounds its iterations. *)
Fixpoint flatten (steps : nat) (p : list ProofNode)
    (hashes : list (list string * list string)) : M Proof :=
  match steps with
  | O => exhausted
  | S steps' =>
      let sp := splitProof p in
      let hashes :=
        (map Hex.encode (before sp), map Hex.encode (after sp)) :: hashes in
      match child sp with
      | None => throw (TypeError (PropertyOfNullish "$value"))
      | Some (Disclosure value salt) =>
          salt <- salt_toString_hex salt ;;
          ret (mkProof hashes value salt)
      | Some (Results results) => flatten steps' results hashes
      | Some (Digest _) => throw (Unmodelled "a Buffer as the child of a split")
      end
  end.

Definition proof (modelManager : ModelManager) (fuel : nat) (typed : Value)
    (path : list string) : M Proof :=
  fqn <- getFullyQualifiedType typed ;;
  classDeclaration <- getType modelManager fqn ;;
  set_parameters (mkParameters true path [] [typed] [] VUndefined []) ;;;
  proof <- ProofVisitor.visitClassDeclaration modelManager fuel classDeclaration ;;
  flatten (node_depth (Results proof)) proof [].

Definition verify (modelManager : ModelManager) (fuel : nat)
    (ns type : string) (path : list string) (root : string) (proof : Proof)
  : M bool :=
  classDeclaration <- getType modelManager (ns ++ "." ++ type) ;;
  let parsedHashes :=
    map (fun entry =>
           (map Hex.decode (fst entry), map Hex.decode (snd entry)))
        (proof_hashes proof) in
  set_parameters
    (mkParameters false path [] [] parsedHashes (proof_value proof)
                  (Hex.decode (proof_salt proof))) ;;;
  actualRoot <-
    VerifyVisitor.visitClassDeclaration modelManager fuel classDeclaration ;;
  match actualRoot with
  | Some actualRoot => ret (String.eqb (Hex.encode actualRoot) root)
  | None => throw (TypeError (PropertyOfNullish "toString"))
  end.

End Merkle.

(** ** Scenarios *)

Module Scenario.

Definition obj (type : string) (values : list (string * Value))
    (salts : list (string * Buffer)) : Resource :=
  mkResource type (list_to_map values) (list_to_map salts).

Definition start (objs : list (loc * Resource)) (rnd : list byte) : State :=
  mkState (list_to_map objs) no_parameters rnd.

Definition result {A} (o : Outcome A) : option (A + Exception) :=
  match o with
  | Return a _ => Some (inl a)
  | Throw e _ => Some (inr e)
  | Exhausted _ => None
  end.

Definition str (name : string) : Property :=
  AField (mkField name (Primitive TString) false).
Definition nested (name fqn : string) : Property :=
  AField (mkField name (Class fqn) false).

Definition zeros32 : Buffer := repeat x00 32.
Definition ones32 : Buffer := repeat x01 32.
Definition twos32 : Buffer := repeat x02 32.

(** S1: [concept Thing { o String name }] *)
Definition s1_model : ModelManager :=
  {[ "org.test.Thing" := mkClassDeclaration "org.test.Thing" [str "name"] ]}.
Definition s1_state : State :=
  start [(1%positive,
          obj "org.test.Thing" [("name", VString "alice")] [("name", zeros32)])] [].

(** S2: [concept Pair { o String a  o String b }] *)
Definition s2_model : ModelManager :=
  {[ "org.test.Pair" := mkClassDeclaration "org.test.Pair" [str "a"; str "b"] ]}.
Definition s2_state : State :=
  start [(1%positive,
          obj "org.test.Pair" [("a", VString "x"); ("b", VString "y")]
              [("a", ones32); ("b", twos32)])] [].

(** [concept Outer { o Inner inner  o String a }],
    [concept Inner { o String k }] *)
Definition s4_model : ModelManager :=
  <[ "org.test.Outer" :=
       mkClassDeclaration "org.test.Outer" [nested "inner" "org.test.Inner"; str "a"] ]>
  {[ "org.test.Inner" := mkClassDeclaration "org.test.Inner" [str "k"] ]}.
Definition s4_state : State :=
  start [(1%positive,
          obj "org.test.Outer" [("inner", VResource 2%positive); ("a", VString "x")]
              [("a", ones32)]);
         (2%positive,
          obj "org.test.Inner" [("k", VString "v")] [("k", twos32)])] [].

(** S6: [concept Tagged { o String[] tags }] *)
Definition s6_model : ModelManager :=
  {[ "org.test.Tagged" :=
       mkClassDeclaration "org.test.Tagged"
         [AField (mkField "tags" (Primitive TString) true)] ]}.
Definition s6_state : State :=
  start [(1%positive,
          obj "org.test.Tagged" [("tags", VArray [VString "a"; VString "b"])] [])]
        (repeat x07 64).

(** The root and the proof of S1 for the path [name]. *)
Definition s1_root_hex : string :=
  "d5a65d82b78b656d8303d29d93ba23621ab94a43c138fe18adf1044dbd4e2be2".
Definition s1_proof : Proof :=
  mkProof [([], [])] (VString "alice") (Hex.encode zeros32).

(** The same objects before any salt was drawn, and a supply of entropy. *)
Definition some_bytes (n : nat) : list byte :=
  map (fun i => byte_of_Z (37 * Z.of_nat i + 11)) (seq 0 n).

Definition s1_fresh : State :=
  start [(1%positive, obj "org.test.Thing" [("name", VString "alice")] [])]
        (some_bytes 32).

Definition s2_fresh : State :=
  start [(1%positive,
          obj "org.test.Pair" [("a", VString "x"); ("b", VString "y")] [])]
        (some_bytes 64).

Definition s4_fresh : State :=
  start [(1%positive,
          obj "org.test.Outer" [("inner", VResource 2%positive); ("a", VString "x")] []);
         (2%positive, obj "org.test.Inner" [("k", VString "v")] [])]
        (some_bytes 64).

(** The nested record has no salt yet. *)
Definition s4_half_salted : State :=
  start [(1%positive,
          obj "org.test.Outer" [("inner", VResource 2%positive); ("a", VString "x")]
              [("a", ones32)]);
         (2%positive, obj "org.test.Inner" [("k", VString "v")] [])] [].

(** The record of S1 with its salt and without its value. *)
Definition s1_no_value : State :=
  start [(1%positive, obj "org.test.Thing" [] [("name", zeros32)])] [].

(** The objects, the leaf hashes and the Merkle root of the salted record
    of [s4_state]. *)
Definition s4_outer : Resource :=
  obj "org.test.Outer" [("inner", VResource 2%positive); ("a", VString "x")]
      [("a", ones32)].
Definition s4_inner : Resource :=
  obj "org.test.Inner" [("k", VString "v")] [("k", twos32)].
Definition s4_leaf_k : Buffer := sha256 (utf8 (quote "v") ++ twos32).
Definition s4_leaf_a : Buffer := sha256 (utf8 (quote "x") ++ ones32).
Definition s4_root : Buffer :=
  sha256 (concat [] ++ sha256 (concat [] ++ s4_leaf_k ++ concat [])
          ++ concat [s4_leaf_a]).

(** [concept Coloured { o Colour colour }] with an enumeration [Colour]. *)
Definition enum_model : ModelManager :=
  {[ "org.test.Coloured" :=
       mkClassDeclaration "org.test.Coloured"
         [AField (mkField "colour" (Enum "org.test.Colour") false)] ]}.
Definition enum_state : State :=
  start [(1%positive,
          obj "org.test.Coloured" [("colour", VString "RED")]
              [("colour", zeros32)])] (some_bytes 32).

(** [concept Owned { --> Person owner }] *)
Definition owned_model : ModelManager :=
  {[ "org.test.Owned" :=
       mkClassDeclaration "org.test.Owned"
         [ARelationship (mkRelationshipDeclaration "owner" "org.test.Person" false)] ]}.
Definition owned_object : Resource :=
  obj "org.test.Owned" [("owner", VRelationship "org.test.Person" "alice")] [].
Definition owned_state : State :=
  start [(1%positive, owned_object)] (some_bytes 32).

(** The record of [s4_state] with its nested record left unset. *)
Definition s4_unset : State :=
  start [(1%positive, obj "org.test.Outer" [("a", VString "x")] [("a", ones32)])]
        (some_bytes 32).

(** [salt(typed)], [root(typed)], [proof(typed, pathA)] and then
    [verify(ns, type, pathB, root, proof)], one after the other. *)
Definition disclose_and_verify (modelManager : ModelManager) (fuel : nat)
    (typed : Value) (ns type : string) (pathA pathB : list string) : M bool :=
  Merkle.salt modelManager fuel typed ;;;
  root <- Merkle.root modelManager fuel typed ;;
  proof <- Merkle.proof modelManager fuel typed pathA ;;
  Merkle.verify modelManager fuel ns type pathB root proof.

End Scenario.

(** * Specification vocabulary *)

Definition final_state {A} (o : Outcome A) : State :=
  match o with
  | Return _ s => s
  | Throw _ s => s
  | Exhausted s => s
  end.

(** [always R m]: whatever the outcome of [m], the state it ends in is
    related by [R] to the state it started from. *)
Definition always (R : relation State) {A} (m : M A) : Prop :=
  forall s, R s (final_state (m s)).

(** The typed objects (values and salt stores) and the entropy are the
    same; only the [parameters] of the walk may differ. *)
Definition same_objects (s s' : State) : Prop :=
  objects s' = objects s /\ entropy s' = entropy s.

(** The leaf hash in the words of the specification:
    [SHA256(canonical(value) || salt)]. *)
Definition H_leaf (value : Value) (salt : Buffer) : option Buffer :=
  match JSON_stringify value with
  | JText text => Some (sha256 (utf8 text ++ salt))
  | _ => None
  end.

(** The state once the walk has popped down to [rest]. *)
Definition popped (rest : list Value) (s : State) : State :=
  mkState (objects s) (with_stack rest (parameters s)) (entropy s).

(** Whether the message of an exception contains the text [name]. *)
Definition mentions (name : string) (e : Exception) : bool :=
  match String.index 0 name (error_message e) with
  | Some _ => true
  | None => false
  end.

(** ** What the salt engine establishes *)

(** [name] is a primitive leaf owned by the object at [l]: a primitive field
    of the class of that object. *)
Definition owns_leaf (mm : ModelManager) (objs : gmap loc Resource)
    (l : loc) (name : string) : Prop :=
  exists r cd f,
    objs !! l = Some r /\ mm !! r_type r = Some cd /\
    AField f ∈ cd_properties cd /\
    isArray f = false /\ isPrimitive f = true /\ f_name f = name.

(** [reaches mm objs l l']: the object at [l'] is the record at [l] or one
    of its nested records, through fields of a class type. *)
Inductive reaches (mm : ModelManager) (objs : gmap loc Resource)
  : loc -> loc -> Prop :=
| reaches_here l : reaches mm objs l l
| reaches_nested l r cd f l1 l' :
    objs !! l = Some r ->
    mm !! r_type r = Some cd ->
    AField f ∈ cd_properties cd ->
    isArray f = false -> isPrimitive f = false -> isEnum f = false ->
    r_values r !! f_name f = Some (VResource l1) ->
    reaches mm objs l1 l' ->
    reaches mm objs l l'.

(** The entry of the salt store of the object at [l] under [name]. *)
Definition salt_of (objs : gmap loc Resource) (l : loc) (name : string)
  : option Buffer :=
  r ← objs !! l; r_salts r !! name.

Definition shape (r : Resource) : string * gmap string Value :=
  (r_type r, r_values r).

(** The objects are the same up to their salt stores. *)
Definition same_shape (objs objs' : gmap loc Resource) : Prop :=
  forall l, shape <$> objs' !! l = shape <$> objs !! l.

(** How the salt engine may change the objects: no type and no value
    changes, a salt of 32 bytes is replaced by a salt of 32 bytes only, and
    a salt store changes only under the names of the primitive leaves its
    object owns. *)
Definition salt_evolves (mm : ModelManager) (objs objs' : gmap loc Resource)
  : Prop :=
  same_shape objs objs' /\
  (forall l name b,
      salt_of objs l name = Some b -> length b = 32%nat ->
      exists b', salt_of objs' l name = Some b' /\ length b' = 32%nat) /\
  (forall l name,
      salt_of objs' l name <> salt_of objs l name -> owns_leaf mm objs l name).

(** Every primitive leaf of the record at [l] and of its nested records has
    a salt of 32 bytes in the store of the object that owns it. *)
Definition leaves_salted (mm : ModelManager) (objs objs' : gmap loc Resource)
    (l : loc) : Prop :=
  forall l' name,
    reaches mm objs l l' -> owns_leaf mm objs l' name ->
    exists b, salt_of objs' l' name = Some b /\ length b = 32%nat.

(** What one turn of the loop of the salt engine leaves behind for the
    property it visited. *)
Definition property_salted (mm : ModelManager) (objs objs' : gmap loc Resource)
    (l : loc) (property : Property) : Prop :=
  match property with
  | AField f =>
      isArray f = false /\
      if isPrimitive f then
        exists b, salt_of objs' l (f_name f) = Some b /\ length b = 32%nat
      else
        isEnum f = false /\
        exists r l1,
          objs !! l = Some r /\
          r_values r !! f_name f = Some (VResource l1) /\
          leaves_salted mm objs objs' l1
  | ARelationship _ => False
  end.

(** One turn of the loop of [SaltVisitor.visitClassDeclaration]. *)
Definition salt_turn (mm : ModelManager) (depth : nat) (l : loc)
    (property : Property) : M unit :=
  let name := getName property in
  value <- get_value l name ;;
  stack_push value ;;;
  salt <- SaltVisitor.visit mm (SaltVisitor.visitClassDeclaration mm depth)
            property ;;
  match salt with
  | Some salt => setSalt l name salt
  | None => ret tt
  end.

(** What is known of a call of [visitClassDeclaration] that returned. *)
Definition salt_visit_ok (mm : ModelManager) (fuel : nat) : Prop :=
  forall cd s u s',
    SaltVisitor.visitClassDeclaration mm fuel cd s = Return u s' ->
    (forall l rest r,
        p_stack (parameters s) = VResource l :: rest ->
        objects s !! l = Some r -> mm !! r_type r = Some cd) ->
    exists l rest,
      p_stack (parameters s) = VResource l :: rest /\
      salt_evolves mm (objects s) (objects s') /\
      leaves_salted mm (objects s) (objects s') l.

(** ** What the verify walk does with [parameters.hashes] *)

(** The state with further entries at the end of [parameters.hashes]. *)
Definition with_surplus (extra : list (list Buffer * list Buffer)) (s : State)
  : State :=
  mkState (objects s)
          (with_hashes (p_hashes (parameters s) ++ extra) (parameters s))
          (entropy s).

(** [surplus_blind m]: a run of [m] that returns does the same when
    [parameters.hashes] has further entries at its end, and leaves them
    there. *)
Definition surplus_blind {A} (m : M A) : Prop :=
  forall extra s a s',
    m s = Return a s' ->
    m (with_surplus extra s) = Return a (with_surplus extra s').

(** [consumed s s' res]: between [s] and [s'] the path and the current path
    are the same, and the entries of [parameters.hashes] taken from the front
    are none when [res] is null and, when it is a digest, as many as there
    are names of the path beyond the current path. *)
Definition consumed (s s' : State) (res : option Buffer) : Prop :=
  p_path (parameters s') = p_path (parameters s) /\
  p_currentPath (parameters s') = p_currentPath (parameters s) /\
  match res with
  | None => p_hashes (parameters s') = p_hashes (parameters s)
  | Some _ =>
      exists taken,
        p_hashes (parameters s) = taken ++ p_hashes (parameters s') /\
        (length taken + length (p_currentPath (parameters s))
         = length (p_path (parameters s)))%nat
  end.

(** The proof with further entries at the end of its [hashes]. *)
Definition add_hashes (extra : list (list string * list string)) (proof : Proof)
  : Proof :=
  mkProof (proof_hashes proof ++ extra) (proof_value proof) (proof_salt proof).

(** ** The Merkle root in the words of the specification *)

(** The leaf hash of the primitive field [name] of the object [r]. *)
Definition leaf_digest (r : Resource) (name : string) : option Buffer :=
  salt ← r_salts r !! name;
  H_leaf (default VUndefined (r_values r !! name)) salt.

(** The digest a property contributes to the node hash of its class, given
    the digest of a nested record. *)
Definition property_digest (nested_digest : loc -> option Buffer)
    (r : Resource) (property : Property) : option Buffer :=
  match property with
  | AField f =>
      if isArray f then None
      else if isPrimitive f then leaf_digest r (f_name f)
      else if isEnum f then None
      else match r_values r !! f_name f with
           | Some (VResource l1) => nested_digest l1
           | _ => None
           end
  | ARelationship _ => None
  end.

(** [root_digest mm objs depth l]: the node hash of the record at [l],
    SHA256 over the digests of its properties in declaration order, when the
    record has only primitive and nested-class fields, at most [depth]
    levels, a value with a canonical text for every primitive leaf, and a
    salt for each of them. *)
Fixpoint root_digest (mm : ModelManager) (objs : gmap loc Resource)
    (depth : nat) (l : loc) : option Buffer :=
  match depth with
  | O => None
  | S d =>
      r ← objs !! l;
      cd ← mm !! r_type r;
      ds ← mapM (property_digest (root_digest mm objs d) r) (cd_properties cd);
      Some (sha256 (concat ds))
  end.

(** The same record shape, whether or not the salts are there. *)
Definition property_conforms (nested : loc -> bool) (r : Resource)
    (property : Property) : bool :=
  match property with
  | AField f =>
      negb (isArray f) &&
      if isPrimitive f then
        match JSON_stringify (default VUndefined (r_values r !! f_name f)) with
        | JText _ => true
        | _ => false
        end
      else
        negb (isEnum f) &&
        match r_values r !! f_name f with
        | Some (VResource l1) => nested l1
        | _ => false
        end
  | ARelationship _ => false
  end.

Fixpoint conforms (mm : ModelManager) (objs : gmap loc Resource)
    (depth : nat) (l : loc) : bool :=
  match depth with
  | O => false
  | S d =>
      match objs !! l with
      | Some r =>
          match mm !! r_type r with
          | Some cd =>
              forallb (property_conforms (conforms mm objs d) r)
                      (cd_properties cd)
          | None => false
          end
      | None => false
      end
  end.

(** One turn of the loop of [RootVisitor.visitClassDeclaration]. *)
Definition root_turn (mm : ModelManager) (depth : nat) (l : loc)
    (property : Property) : M Buffer :=
  let name := getName property in
  value <- get_value l name ;;
  salt <- getSalt l name ;;
  stack_push value ;;;
  stack_push salt ;;;
  RootVisitor.visit mm (RootVisitor.visitClassDeclaration mm depth) property.

(** What the nested call of the root walk is known to do. *)
Definition root_walk_ok (mm : ModelManager) (objs : gmap loc Resource)
    (depth fuel : nat) : Prop :=
  forall l d cd r s rest,
    root_digest mm objs depth l = Some d ->
    objects s = objs -> objs !! l = Some r -> mm !! r_type r = Some cd ->
    RootVisitor.visitClassDeclaration mm fuel cd (popped (VResource l :: rest) s)
    = Return d (popped rest s).

(** What the nested call of the root walk is known to do on a record of the
    right shape that has no Merkle root, some salt being absent. *)
Definition root_walk_stops (mm : ModelManager) (objs : gmap loc Resource)
    (depth fuel : nat) : Prop :=
  forall l cd r s rest,
    conforms mm objs depth l = true ->
    root_digest mm objs depth l = None ->
    objects s = objs -> objs !! l = Some r -> mm !! r_type r = Some cd ->
    exists s',
      RootVisitor.visitClassDeclaration mm fuel cd (popped (VResource l :: rest) s)
      = Throw (TypeError InvalidArgType) s'.

(** ** The proof walk in the words of the specification *)

(** [resolves mm objs depth l path]: the path leads from the record at [l]
    through fields of a class type to a primitive leaf. *)
Fixpoint resolves (mm : ModelManager) (objs : gmap loc Resource)
    (depth : nat) (l : loc) (path : list string) : bool :=
  match depth, path with
  | S d, name :: rest =>
      match objs !! l with
      | Some r =>
          match mm !! r_type r with
          | Some cd =>
              existsb
                (fun p =>
                   match p with
                   | AField f =>
                       String.eqb (f_name f) name && negb (isArray f) &&
                       if isPrimitive f then
                         match rest with [] => true | _ => false end
                       else
                         negb (isEnum f) &&
                         match r_values r !! f_name f with
                         | Some (VResource l1) => resolves mm objs d l1 rest
                         | _ => false
                         end
                   | ARelationship _ => false
                   end)
                (cd_properties cd)
          | None => false
          end
      | None => false
      end
  | _, _ => false
  end.

(** What the proof walk returns for a property of a salted record: the
    disclosure at the leaf the path names, the leaf hash at any other
    primitive field, and the results of the nested walk at a field of a
    class type. *)
Definition raw_property (nested : list string -> loc -> option (list ProofNode))
    (r : Resource) (path currentPath : list string) (property : Property)
  : option ProofNode :=
  match property with
  | AField f =>
      if isArray f then None
      else if isPrimitive f then
        salt ← r_salts r !! f_name f;
        d ← H_leaf (default VUndefined (r_values r !! f_name f)) salt;
        if pathEquals path (currentPath ++ [f_name f])
        then Some (Disclosure (default VUndefined (r_values r !! f_name f))
                              (VBuffer salt))
        else Some (Digest d)
      else if isEnum f then None
      else match r_values r !! f_name f with
           | Some (VResource l1) =>
               Results <$> nested (currentPath ++ [f_name f]) l1
           | _ => None
           end
  | ARelationship _ => None
  end.

Fixpoint raw_proof (mm : ModelManager) (objs : gmap loc Resource)
    (depth : nat) (path currentPath : list string) (l : loc)
  : option (list ProofNode) :=
  match depth with
  | O => None
  | S d =>
      r ← objs !! l;
      cd ← mm !! r_type r;
      mapM (raw_property (raw_proof mm objs d path) r path currentPath)
           (cd_properties cd)
  end.

Fixpoint no_disclosure (n : ProofNode) : bool :=
  match n with
  | Digest _ => true
  | Disclosure _ _ => false
  | Results results => forallb no_disclosure results
  end.

Definition results_depth (results : list ProofNode) : nat :=
  fold_right (fun e d => Nat.max (node_depth e) d) O results.

(** One turn of the loop of [ProofVisitor.visitClassDeclaration]. *)
Definition proof_turn (mm : ModelManager) (depth : nat) (l : loc)
    (property : Property) : M ProofNode :=
  let name := getName property in
  currentPath_push name ;;;
  value <- get_value l name ;;
  salt <- getSalt l name ;;
  stack_push value ;;;
  stack_push salt ;;;
  result <- ProofVisitor.visit mm (ProofVisitor.visitClassDeclaration mm depth)
              property ;;
  currentPath_pop ;;;
  ret result.

(** What the nested call of the proof walk is known to do. *)
Definition proof_walk_ok (mm : ModelManager) (objs : gmap loc Resource)
    (depth fuel : nat) : Prop :=
  forall l t cd r root pa cp rest hs v sa e,
    raw_proof mm objs depth pa cp l = Some t ->
    objs !! l = Some r -> mm !! r_type r = Some cd ->
    ProofVisitor.visitClassDeclaration mm fuel cd
      (mkState objs (mkParameters root pa cp (VResource l :: rest) hs v sa) e)
    = Return t (mkState objs (mkParameters false pa cp rest hs v sa) e).

(** ** Records on which the round trip holds *)

(** A sibling of the disclosed property [name] in the object [r]: a
    primitive field of another name, with its leaf hash [d]. *)
Definition sibling (r : Resource) (name : string) (property : Property)
    (d : Buffer) : Prop :=
  exists g,
    property = AField g /\ isArray g = false /\ isPrimitive g = true /\
    f_name g <> name /\ leaf_digest r (f_name g) = Some d.

(** [opens mm objs l path d hs v salt]: in the record at [l], the path
    leads to a primitive leaf of value [v] and salt [salt]; at every class on
    the way the properties beside the path are primitive fields, and a field
    of a class type on the path holds an object of exactly that type.  [d]
    is the Merkle root of the record and [hs] are the digests of the
    siblings, level by level from the leaf up. *)
Inductive opens (mm : ModelManager) (objs : gmap loc Resource)
  : loc -> list string -> Buffer -> list (list Buffer * list Buffer) ->
    Value -> Buffer -> Prop :=
| opens_leaf l r cd pre f post pds qds salt text :
    objs !! l = Some r ->
    mm !! r_type r = Some cd ->
    cd_properties cd = pre ++ AField f :: post ->
    Forall2 (sibling r (f_name f)) pre pds ->
    Forall2 (sibling r (f_name f)) post qds ->
    isArray f = false -> isPrimitive f = true ->
    r_salts r !! f_name f = Some salt ->
    JSON_stringify (default VUndefined (r_values r !! f_name f)) = JText text ->
    opens mm objs l [f_name f]
      (sha256 (concat pds ++ sha256 (utf8 text ++ salt) ++ concat qds))
      [(pds, qds)]
      (default VUndefined (r_values r !! f_name f)) salt
| opens_node l r cd pre f post pds qds l1 r1 rest d1 hs v salt :
    objs !! l = Some r ->
    mm !! r_type r = Some cd ->
    cd_properties cd = pre ++ AField f :: post ->
    Forall2 (sibling r (f_name f)) pre pds ->
    Forall2 (sibling r (f_name f)) post qds ->
    isArray f = false ->
    f_type f = Class (r_type r1) ->
    r_values r !! f_name f = Some (VResource l1) ->
    objs !! l1 = Some r1 ->
    opens mm objs l1 rest d1 hs v salt ->
    opens mm objs l (f_name f :: rest)
      (sha256 (concat pds ++ d1 ++ concat qds))
      (hs ++ [(pds, qds)]) v salt.

(** An entry of [hashes] in the public proof. *)
Definition hex_entry (entry : list Buffer * list Buffer)
  : list string * list string :=
  (map Hex.encode (fst entry), map Hex.encode (snd entry)).

(** What the nested call of the verify walk is known to do. *)
Definition verify_walk_ok (mm : ModelManager) (objs : gmap loc Resource)
    (l : loc) (rel : list string) (d : Buffer)
    (hs : list (list Buffer * list Buffer)) (v : Value) (salt : Buffer)
    (fuel : nat) : Prop :=
  forall r cd o root cp st outer e,
    objs !! l = Some r -> mm !! r_type r = Some cd ->
    VerifyVisitor.visitClassDeclaration mm fuel cd
      (mkState o (mkParameters root (cp ++ rel) cp st (hs ++ outer) v salt) e)
    = Return (Some d)
        (mkState o (mkParameters false (cp ++ rel) cp st outer v salt) e).

(** * Further vocabulary *)

(** ** [splitProof], entry by entry *)

Definition is_buffer (e : ProofNode) : bool :=
  match e with Digest _ => true | _ => false end.

(** The Buffers among the entries, in their order. *)
Fixpoint buffers (p : list ProofNode) : list Buffer :=
  match p with
  | [] => []
  | Digest b :: rest => b :: buffers rest
  | _ :: rest => buffers rest
  end.

(** The Buffers ahead of the first entry that is no Buffer. *)
Fixpoint leading (p : list ProofNode) : list Buffer :=
  match p with
  | Digest b :: rest => b :: leading rest
  | _ => []
  end.

(** The Buffers behind the first entry that is no Buffer. *)
Fixpoint trailing (p : list ProofNode) : list Buffer :=
  match p with
  | [] => []
  | Digest _ :: rest => trailing rest
  | _ :: rest => buffers rest
  end.

(** The last entry that is no Buffer. *)
Fixpoint last_other (p : list ProofNode) : option ProofNode :=
  match p with
  | [] => None
  | e :: rest =>
      match last_other rest with
      | Some e' => Some e'
      | None => if is_buffer e then None else Some e
      end
  end.

(** ** The verify walk over the schema *)

(** A property the verify walk passes by when [rel] is what is left of the
    path at its class: a primitive field that [rel] does not name. *)
Definition passed (rel : list string) (property : Property) : Prop :=
  exists g,
    property = AField g /\ isArray g = false /\ isPrimitive g = true /\
    rel <> [f_name g].

(** [leads mm cd rel]: in the schema, [rel] names a primitive leaf under the
    class: the properties declared before the one the path takes are
    primitive fields that the path does not name, and a field of a class type
    on the path has its class declared. *)
Inductive leads (mm : ModelManager) : ClassDeclaration -> list string -> Prop :=
| leads_leaf cd pre f post :
    cd_properties cd = pre ++ AField f :: post ->
    Forall (passed [f_name f]) pre ->
    isArray f = false -> isPrimitive f = true ->
    leads mm cd [f_name f]
| leads_node cd pre f post cd1 rest :
    cd_properties cd = pre ++ AField f :: post ->
    Forall (passed (f_name f :: rest)) pre ->
    isArray f = false -> isPrimitive f = false -> isEnum f = false ->
    mm !! getFullyQualifiedTypeName f = Some cd1 ->
    leads mm cd1 rest ->
    leads mm cd (f_name f :: rest).

(** The digest that the entries of [hashes] build around a leaf digest, one
    entry per level from the leaf up. *)
Definition rebuild (leaf : Buffer) (hs : list (list Buffer * list Buffer))
  : Buffer :=
  fold_left
    (fun d entry => sha256 (concat (fst entry) ++ d ++ concat (snd entry)))
    hs leaf.

(** The entries of the public proof as [Merkle.verify] parses them. *)
Definition parsed_hashes (proof : Proof) : list (list Buffer * list Buffer) :=
  map (fun entry => (map Hex.decode (fst entry), map Hex.decode (snd entry)))
      (proof_hashes proof).

(** [blind m]: the result of [m] and the parameters it ends with depend on
    the parameters it starts with only, not on the typed objects or on the
    entropy. *)
Definition blind {A} (m : M A) : Prop :=
  forall s t, parameters s = parameters t ->
    Scenario.result (m s) = Scenario.result (m t) /\
    parameters (final_state (m s)) = parameters (final_state (m t)).

(** ** How often the salt walk draws random bytes *)

(** The calls of [crypto.randomBytes] for one property: one for a primitive
    field, those of the nested record for a field of a class type. *)
Definition property_draws (nested : loc -> nat) (r : Resource)
    (property : Property) : nat :=
  match property with
  | AField f =>
      if isPrimitive f then 1%nat
      else match r_values r !! f_name f with
           | Some (VResource l1) => nested l1
           | _ => 0%nat
           end
  | ARelationship _ => 0%nat
  end.

(** The calls of [crypto.randomBytes] in the salt walk over the record at
    [l]; a nested record counts once for each field that holds it. *)
Fixpoint draws (mm : ModelManager) (objs : gmap loc Resource) (depth : nat)
    (l : loc) : nat :=
  match depth with
  | O => 0%nat
  | S d =>
      match objs !! l with
      | Some r =>
          match mm !! r_type r with
          | Some cd =>
              sum_list (map (property_draws (draws mm objs d) r)
                            (cd_properties cd))
          | None => 0%nat
          end
      | None => 0%nat
      end
  end.

(** What a call of [SaltVisitor.visitClassDeclaration] does on a record
    that conforms at [depth]: it returns, leaves the stack without the
    record, and has taken 32 bytes of entropy for every draw. *)
Definition salt_walk_returns (mm : ModelManager) (depth fuel : nat) : Prop :=
  forall l r cd o root pa cp rest hs v sa e,
    o !! l = Some r -> mm !! r_type r = Some cd ->
    conforms mm o depth l = true ->
    (32 * draws mm o depth l <= length e)%nat ->
    exists o',
      SaltVisitor.visitClassDeclaration mm fuel cd
        (mkState o (mkParameters root pa cp (VResource l :: rest) hs v sa) e)
      = Return tt
          (mkState o' (mkParameters root pa cp rest hs v sa)
             (drop (32 * draws mm o depth l) e)) /\
      same_shape o o'.

(** ** A path with primitive fields beside it *)

(** A primitive field of another name than [name]. *)
Definition beside (name : string) (property : Property) : Prop :=
  exists g,
    property = AField g /\ isArray g = false /\ isPrimitive g = true /\
    f_name g <> name.

(** [flat_path mm objs l path]: the path leads from the record at [l] to
    a primitive leaf; at every class on the way the other properties are
    primitive fields of other names, and a field of a class type on the path
    holds a record of exactly the declared type.  No salt is asked for. *)
Inductive flat_path (mm : ModelManager) (objs : gmap loc Resource)
  : loc -> list string -> Prop :=
| flat_leaf l r cd pre f post :
    objs !! l = Some r ->
    mm !! r_type r = Some cd ->
    cd_properties cd = pre ++ AField f :: post ->
    Forall (beside (f_name f)) pre ->
    Forall (beside (f_name f)) post ->
    isArray f = false -> isPrimitive f = true ->
    flat_path mm objs l [f_name f]
| flat_node l r cd pre f post l1 r1 rest :
    objs !! l = Some r ->
    mm !! r_type r = Some cd ->
    cd_properties cd = pre ++ AField f :: post ->
    Forall (beside (f_name f)) pre ->
    Forall (beside (f_name f)) post ->
    isArray f = false ->
    f_type f = Class (r_type r1) ->
    r_values r !! f_name f = Some (VResource l1) ->
    objs !! l1 = Some r1 ->
    flat_path mm objs l1 rest ->
    flat_path mm objs l (f_name f :: rest).

(** * Properties *)

(** ** The digest agrees with the standard on its test vectors *)

Example sha256_empty :
  Hex.encode (sha256 (utf8 "")) =
  "e3b0c44298fc1c149afbf4c8996fb92427ae41e4649b934ca495991b7852b855"%string.
Proof. vm_compute. reflexivity. Qed.

Example sha256_abc :
  Hex.encode (sha256 (utf8 "abc")) =
  "ba7816bf8f01cfea414140de5dae2223b00361a396177a9cb410ff61f20015ad"%string.
Proof. vm_compute. reflexivity. Qed.

Example sha256_two_blocks :
  Hex.encode (sha256 (repeat x61 100)) =
  "2816597888e4a0d3a36b82b83316ab32680eb8f00f8cd3b904d681246d285a0e"%string.
Proof. vm_compute. reflexivity. Qed.

(** ** Running a walk *)

Section Always.

Context (R : relation State) `{!PreOrder R}.

Lemma always_ret {A} (a : A) : always R (ret a).
Proof. intros s. simpl. reflexivity. Qed.

Lemma always_throw {A} (e : Exception) : always R (@throw A e).
Proof. intros s. simpl. reflexivity. Qed.

Lemma always_exhausted {A} : always R (@exhausted A).
Proof. intros s. simpl. reflexivity. Qed.

Lemma always_bind {A B} (m : M A) (k : A -> M B) :
  always R m -> (forall a, always R (k a)) -> always R (bind m k).
Proof.
  intros Hm Hk s. unfold bind. specialize (Hm s).
  destruct (m s) as [a s1|e s1|s1]; simpl in *; auto.
  transitivity s1; auto. apply Hk.
Qed.

Lemma always_for_each {A} (xs : list A) (body : A -> M unit) :
  (forall x, always R (body x)) -> always R (for_each xs body).
Proof.
  intros Hb. induction xs as [|x xs IH]; simpl.
  - apply always_ret.
  - apply always_bind; auto.
Qed.

Lemma always_for_collect {A B} (xs : list A) (body : A -> M B) :
  (forall x, always R (body x)) -> always R (for_collect xs body).
Proof.
  intros Hb. induction xs as [|x xs IH]; simpl.
  - apply always_ret.
  - apply always_bind; auto. intros y.
    apply always_bind; auto. intros ys. apply always_ret.
Qed.

End Always.

(** ** Root, proof and verify are read-only *)

#[local] Instance same_objects_preorder : PreOrder same_objects.
Proof.
  split.
  - intros s. split; reflexivity.
  - intros s1 s2 s3 [H1 H2] [H3 H4]. split; congruence.
Qed.

Create HintDb frame.

Ltac frame_step :=
  first
    [ apply always_bind; [typeclasses eauto | | intros ? ]
    | apply always_ret; typeclasses eauto
    | apply always_throw; typeclasses eauto
    | apply always_exhausted; typeclasses eauto
    | apply always_for_collect; [typeclasses eauto | intros ? ]
    | solve [auto with frame] ].

Ltac frame :=
  repeat (frame_step ||
          match goal with
          | |- always _ (match ?x with _ => _ end) => destruct x
          | |- always _ (if ?x then _ else _) => destruct x
          end).

Lemma frame_get_parameters : always same_objects get_parameters.
Proof. intros s. split; reflexivity. Qed.

Lemma frame_set_parameters p : always same_objects (set_parameters p).
Proof. intros s. split; reflexivity. Qed.

#[local] Hint Resolve frame_get_parameters frame_set_parameters : frame.

Lemma frame_stack_push v : always same_objects (stack_push v).
Proof. unfold stack_push. frame. Qed.

Lemma frame_stack_pop : always same_objects stack_pop.
Proof. unfold stack_pop. frame. Qed.

Lemma frame_currentPath_push n : always same_objects (currentPath_push n).
Proof. unfold currentPath_push. frame. Qed.

Lemma frame_currentPath_pop : always same_objects currentPath_pop.
Proof. unfold currentPath_pop. frame. Qed.

Lemma frame_clear_root : always same_objects clear_root.
Proof. unfold clear_root. frame. Qed.

Lemma frame_the_object l : always same_objects (the_object l).
Proof.
  intros s. unfold the_object. destruct (objects s !! l); split; reflexivity.
Qed.

#[local] Hint Resolve frame_stack_push frame_stack_pop frame_currentPath_push
  frame_currentPath_pop frame_clear_root frame_the_object : frame.

Lemma frame_get_value l name : always same_objects (get_value l name).
Proof. unfold get_value. frame. Qed.

Lemma frame_getSalt l name : always same_objects (getSalt l name).
Proof. unfold getSalt. frame. Qed.

Lemma frame_getFullyQualifiedType v :
  always same_objects (getFullyQualifiedType v).
Proof. unfold getFullyQualifiedType. frame. Qed.

Lemma frame_getType mm fqn : always same_objects (getType mm fqn).
Proof. unfold getType. frame. Qed.

Lemma frame_update_json h j : always same_objects (update_json h j).
Proof. unfold update_json. frame. Qed.

Lemma frame_update_value h v : always same_objects (update_value h v).
Proof. unfold update_value. frame. Qed.

Lemma frame_hashes_shift : always same_objects VerifyVisitor.hashes_shift.
Proof. unfold VerifyVisitor.hashes_shift. frame. Qed.

#[local] Hint Resolve frame_get_value frame_getSalt frame_getFullyQualifiedType
  frame_getType frame_update_json frame_update_value frame_hashes_shift : frame.

Lemma frame_root_visitor mm fuel :
  forall cd, always same_objects (RootVisitor.visitClassDeclaration mm fuel cd).
Proof.
  induction fuel as [|depth IH]; intros cd; simpl; [frame|].
  frame.
  unfold RootVisitor.visit, RootVisitor.visitRelationshipDeclaration,
    RootVisitor.visitField. frame.
Qed.

Lemma frame_proof_visitor mm fuel :
  forall cd, always same_objects (ProofVisitor.visitClassDeclaration mm fuel cd).
Proof.
  induction fuel as [|depth IH]; intros cd; simpl; [frame|].
  frame.
  unfold ProofVisitor.visit, ProofVisitor.visitRelationshipDeclaration,
    ProofVisitor.visitField. frame.
Qed.

Lemma frame_verify_properties accept properties :
  (forall property, always same_objects (accept property)) ->
  always same_objects (VerifyVisitor.visitProperties accept properties).
Proof.
  intros H. induction properties as [|property rest IH]; simpl; frame.
Qed.

Lemma frame_verify_visitor mm fuel :
  forall cd,
    always same_objects (VerifyVisitor.visitClassDeclaration mm fuel cd).
Proof.
  induction fuel as [|depth IH]; intros cd; simpl; [frame|].
  frame. apply frame_verify_properties. intros property.
  unfold VerifyVisitor.visit, VerifyVisitor.visitRelationshipDeclaration,
    VerifyVisitor.visitField. frame.
Qed.

Lemma frame_flatten steps :
  forall p hashes, always same_objects (Merkle.flatten steps p hashes).
Proof.
  induction steps as [|steps IH]; intros p hashes; simpl; [frame|].
  unfold Merkle.salt_toString_hex. frame.
Qed.

#[local] Hint Resolve frame_root_visitor frame_proof_visitor
  frame_verify_visitor frame_flatten : frame.

Lemma frame_root mm fuel typed : always same_objects (Merkle.root mm fuel typed).
Proof. unfold Merkle.root. frame. Qed.

Lemma frame_proof mm fuel typed path :
  always same_objects (Merkle.proof mm fuel typed path).
Proof. unfold Merkle.proof. frame. Qed.

Lemma frame_verify mm fuel ns type path root proof :
  always same_objects (Merkle.verify mm fuel ns type path root proof).
Proof. unfold Merkle.verify. frame. Qed.

(** C9: root, proof and verify leave every typed object as it was: after
    the call, however it ends, the values and the salt store of the record
    and of every nested record are those from before the call. *)
Theorem engines_read_only mm fuel typed path ns type root proof s :
  objects (final_state (Merkle.root mm fuel typed s)) = objects s /\
  objects (final_state (Merkle.proof mm fuel typed path s)) = objects s /\
  objects (final_state (Merkle.verify mm fuel ns type path root proof s))
    = objects s.
Proof.
  split; [|split].
  - apply frame_root.
  - apply frame_proof.
  - apply frame_verify.
Qed.

(** ** One leaf hash for the three engines *)

Lemma pop_at s v rest :
  p_stack (parameters s) = v :: rest -> stack_pop s = Return v (popped rest s).
Proof.
  intros H. unfold stack_pop, bind, get_parameters. rewrite H. reflexivity.
Qed.

(** C10: the root engine at a primitive field, the proof engine at a
    primitive sibling off the path and the verify engine at the matched leaf
    all compute the leaf hash SHA256(utf8(JSON.stringify(v)) || s). *)
Theorem leaf_hash_agrees mm accept_r accept_p accept_v field v salt d
    s_r s_p s_v rest_r rest_p :
  isArray field = false ->
  isPrimitive field = true ->
  H_leaf v salt = Some d ->
  p_stack (parameters s_r) = VBuffer salt :: v :: rest_r ->
  p_stack (parameters s_p) = VBuffer salt :: v :: rest_p ->
  pathEquals (p_path (parameters s_p)) (p_currentPath (parameters s_p)) = false ->
  p_value (parameters s_v) = v ->
  p_salt (parameters s_v) = salt ->
  pathEquals (p_path (parameters s_v)) (p_currentPath (parameters s_v)) = true ->
  RootVisitor.visitField mm accept_r field s_r = Return d (popped rest_r s_r) /\
  ProofVisitor.visitField mm accept_p field s_p
    = Return (Digest d) (popped rest_p s_p) /\
  VerifyVisitor.visitField mm accept_v field s_v = Return (Some d) s_v.
Proof.
  intros Harr Hprim Hd Hr Hp Hne Hv Hs Heq.
  unfold H_leaf in Hd.
  destruct (JSON_stringify v) as [text| |] eqn:Hj; try discriminate.
  injection Hd as <-.
  split; [|split].
  - unfold RootVisitor.visitField, bind.
    rewrite (pop_at _ _ _ Hr).
    rewrite (pop_at (popped _ s_r) v rest_r) by reflexivity.
    rewrite Harr, Hprim, Hj. reflexivity.
  - unfold ProofVisitor.visitField, bind.
    rewrite (pop_at _ _ _ Hp).
    rewrite (pop_at (popped _ s_p) v rest_p) by reflexivity.
    rewrite Harr, Hprim. simpl. rewrite Hne, Hj. reflexivity.
  - unfold VerifyVisitor.visitField, bind.
    rewrite Harr, Hprim. simpl. rewrite Heq, Hv, Hj, Hs. reflexivity.
Qed.

Lemma leaf_hash_agrees_witness :
  let field := mkField "name" (Primitive TString) false in
  let d := sha256 (utf8 (quote "alice") ++ Scenario.zeros32) in
  let s_r :=
    mkState ∅ (with_stack [VBuffer Scenario.zeros32; VString "alice"] no_parameters) [] in
  let s_p :=
    mkState ∅
      (mkParameters false ["other"%string] ["name"%string]
         [VBuffer Scenario.zeros32; VString "alice"] [] VUndefined []) [] in
  let s_v :=
    mkState ∅
      (mkParameters false ["name"%string] ["name"%string] [] []
         (VString "alice") Scenario.zeros32) [] in
  RootVisitor.visitField ∅ (fun _ => exhausted) field s_r
    = Return d (popped [] s_r) /\
  ProofVisitor.visitField ∅ (fun _ => exhausted) field s_p
    = Return (Digest d) (popped [] s_p) /\
  VerifyVisitor.visitField ∅ (fun _ => exhausted) field s_v = Return (Some d) s_v.
Proof.
  intros field d s_r s_p s_v.
  apply (leaf_hash_agrees ∅ _ _ _ field (VString "alice") Scenario.zeros32 d
           s_r s_p s_v [] []); reflexivity.
Defined.

(** ** The scenarios of the specification *)

(** C6: for [Thing { String name }] with name "alice" and a salt of 32 zero
    bytes, root(record) is the 64 lowercase hexadecimal characters of
    SHA256(SHA256(utf8 of the quoted text || 32 zero bytes)). *)
Theorem s1_root fuel :
  let hex :=
    Hex.encode (sha256 (sha256 (utf8 (quote "alice") ++ repeat x00 32))) in
  Scenario.result
    (Merkle.root Scenario.s1_model (S fuel) (VResource 1) Scenario.s1_state)
    = Some (inl hex) /\
  hex = "d5a65d82b78b656d8303d29d93ba23621ab94a43c138fe18adf1044dbd4e2be2"%string /\
  quote "alice" = String dquote ("alice" ++ String dquote "") /\
  String.length hex = 64%nat.
Proof. vm_compute. repeat split; reflexivity. Qed.

(** ** Array fields *)

(** Symbolic execution of a walk: unfold the monad, compute, and use the
    equations at hand about the objects, the model and the fields. *)
Ltac run_rewrite :=
  match goal with
  | H : ?x = _ |- context [?x] => rewrite H
  end.

Ltac run :=
  repeat (progress
            (cbn -[SHA256.sha256 Hex.encode Hex.decode utf8 quote pretty];
             unfold bind, ret, throw, the_object, getType, get_value, getSalt,
               getFullyQualifiedType, getProperties;
             repeat run_rewrite)).

(** C8, as the code has it: for a class that starts with an array field,
    salt, root and proof each raise the error "Not implemented for Array
    fields"; the message is this fixed text, whatever the name of the
    property. *)
Theorem array_field_not_implemented mm fuel l r cd f rest path s :
  objects s !! l = Some r ->
  mm !! r_type r = Some cd ->
  cd_properties cd = AField f :: rest ->
  isArray f = true ->
  let e := Error "Not implemented for Array fields" None in
  error_kind e = Some NotImplemented /\
  (exists s', Merkle.salt mm (S fuel) (VResource l) s = Throw e s') /\
  (exists s', Merkle.root mm (S fuel) (VResource l) s = Throw e s') /\
  (exists s', Merkle.proof mm (S fuel) (VResource l) path s = Throw e s').
Proof.
  intros Hobj Hcd Hprops Harr e. split; [reflexivity|].
  split; [|split].
  - unfold Merkle.salt, getProperties. run. eauto.
  - unfold Merkle.root, getProperties. run. eauto.
  - unfold Merkle.proof, getProperties. run. eauto.
Qed.

Lemma array_field_not_implemented_witness :
  let e := Error "Not implemented for Array fields" None in
  error_kind e = Some NotImplemented /\
  (exists s', Merkle.salt Scenario.s6_model 1 (VResource 1) Scenario.s6_state
              = Throw e s') /\
  (exists s', Merkle.root Scenario.s6_model 1 (VResource 1) Scenario.s6_state
              = Throw e s') /\
  (exists s', Merkle.proof Scenario.s6_model 1 (VResource 1) ["tags"%string]
                Scenario.s6_state = Throw e s').
Proof.
  apply (array_field_not_implemented Scenario.s6_model 0 1%positive
           (Scenario.obj "org.test.Tagged"
              [("tags"%string, VArray [VString "a"; VString "b"])] [])
           (mkClassDeclaration "org.test.Tagged"
              [AField (mkField "tags" (Primitive TString) true)])
           (mkField "tags" (Primitive TString) true) []);
    reflexivity.
Defined.

(** C8, as stated, fails: on the schema [{ String[] tags }] the error that
    salt raises does not carry the property name. *)
Lemma s6_error_without_property_name :
  ~ exists e s',
      Merkle.salt Scenario.s6_model 1 (VResource 1) Scenario.s6_state
        = Throw e s' /\
      error_kind e = Some NotImplemented /\
      mentions "tags" e = true.
Proof.
  intros (e & s' & Hrun & _ & Hm).
  vm_compute in Hrun. injection Hrun as <- _.
  vm_compute in Hm. discriminate.
Qed.

(** ** Two defects of the proof and verify engines *)

(** C1 fails on the code: with a nested class beside the disclosed leaf
    ([Outer { Inner inner, String a }], path [a]), the proof engine hands the
    undigested results of [inner] to [splitProof], which takes them for the
    child and drops them; the proof it returns does not verify. *)
Theorem round_trip_fails_beside_nested_class :
  Scenario.result
    (Scenario.disclose_and_verify Scenario.s4_model 2 (VResource 1)
       "org.test" "Outer" ["a"%string] ["a"%string] Scenario.s4_fresh)
  = Some (inl false).
Proof. vm_compute. reflexivity. Qed.

(** C2 fails on the code: for [Pair { String a, String b }] the proof for
    path [a] verifies as path [b], since verify places the recomputed leaf
    between [before] and [after] wherever the matched property stands. *)
Theorem sibling_path_confusion :
  Scenario.result
    (Scenario.disclose_and_verify Scenario.s2_model 1 (VResource 1)
       "org.test" "Pair" ["a"%string] ["b"%string] Scenario.s2_fresh)
  = Some (inl true).
Proof. vm_compute. reflexivity. Qed.

(** ** Inverting a walk that returned *)

Lemma bind_Return {A B} (m : M A) (k : A -> M B) s b s' :
  bind m k s = Return b s' ->
  exists a s1, m s = Return a s1 /\ k a s1 = Return b s'.
Proof.
  unfold bind. destruct (m s) as [a s1|e s1|s1]; try discriminate. eauto.
Qed.

Lemma ret_Return {A} (a b : A) s s' : ret a s = Return b s' -> a = b /\ s = s'.
Proof. unfold ret. intros H. injection H. auto. Qed.

Lemma stack_pop_Return s v s' :
  stack_pop s = Return v s' ->
  exists rest, p_stack (parameters s) = v :: rest /\ s' = popped rest s.
Proof.
  unfold stack_pop, bind, get_parameters.
  destruct (p_stack (parameters s)) as [|v0 rest] eqn:Hs; [discriminate|].
  cbn. intros H. injection H as <- <-. eauto.
Qed.

Lemma stack_push_Return v s u s' :
  stack_push v s = Return u s' ->
  s' = popped (v :: p_stack (parameters s)) s.
Proof. cbn. intros H. injection H as _ <-. reflexivity. Qed.

Lemma the_object_Return l s r s' :
  the_object l s = Return r s' -> objects s !! l = Some r /\ s' = s.
Proof.
  unfold the_object. destruct (objects s !! l); [|discriminate].
  intros H. injection H as <- <-. auto.
Qed.

Lemma get_value_Return l name s v s' :
  get_value l name s = Return v s' ->
  exists r, objects s !! l = Some r /\
            v = default VUndefined (r_values r !! name) /\ s' = s.
Proof.
  unfold get_value. intros H.
  apply bind_Return in H as (r & s1 & H1 & H2).
  apply the_object_Return in H1 as [H1 ->].
  apply ret_Return in H2 as [<- <-]. eauto.
Qed.

Lemma getSalt_Return l name s v s' :
  getSalt l name s = Return v s' ->
  exists r, objects s !! l = Some r /\
            v = match r_salts r !! name with
                | Some b => VBuffer b
                | None => VUndefined
                end /\ s' = s.
Proof.
  unfold getSalt. intros H.
  apply bind_Return in H as (r & s1 & H1 & H2).
  apply the_object_Return in H1 as [H1 ->].
  apply ret_Return in H2 as [<- <-]. eauto.
Qed.

Lemma getFullyQualifiedType_Return v s fqn s' :
  getFullyQualifiedType v s = Return fqn s' ->
  s' = s /\
  ((exists l r, v = VResource l /\ objects s !! l = Some r /\ fqn = r_type r) \/
   (exists id, v = VRelationship fqn id)).
Proof.
  destruct v; cbn; try discriminate.
  - intros H. apply bind_Return in H as (r & s1 & H1 & H2).
    apply the_object_Return in H1 as [H1 ->].
    apply ret_Return in H2 as [<- <-]. split; [reflexivity|]. left. eauto.
  - intros H. injection H as <- <-. split; [reflexivity|]. right. eauto.
Qed.

Lemma getType_Return mm fqn s cd s' :
  getType mm fqn s = Return cd s' -> mm !! fqn = Some cd /\ s' = s.
Proof.
  unfold getType. destruct (mm !! fqn); [|discriminate].
  intros H. injection H as <- <-. auto.
Qed.

Lemma randomBytes_Return n s b s' :
  randomBytes n s = Return b s' ->
  length b = n /\ objects s' = objects s /\ parameters s' = parameters s.
Proof.
  unfold randomBytes. destruct (n <=? length (entropy s))%nat eqn:Hn;
    [|discriminate].
  intros H. injection H as <- <-. cbn. apply Nat.leb_le in Hn.
  rewrite length_take. split; [lia|auto].
Qed.

(** ** The salt engine *)

Lemma same_shape_lookup objs objs' l r' :
  same_shape objs objs' -> objs' !! l = Some r' ->
  exists r, objs !! l = Some r /\ r_type r = r_type r' /\
            r_values r = r_values r'.
Proof.
  intros Hsh Hl. specialize (Hsh l). rewrite Hl in Hsh.
  destruct (objs !! l) as [r|]; [|discriminate].
  cbn in Hsh. injection Hsh as Ht Hv. eauto.
Qed.

Lemma same_shape_refl objs : same_shape objs objs.
Proof. intros l. reflexivity. Qed.

Lemma same_shape_sym objs objs' : same_shape objs objs' -> same_shape objs' objs.
Proof. intros H l. symmetry. apply H. Qed.

Lemma same_shape_trans o1 o2 o3 :
  same_shape o1 o2 -> same_shape o2 o3 -> same_shape o1 o3.
Proof. intros H1 H2 l. rewrite H2. apply H1. Qed.

Lemma owns_leaf_same_shape mm objs objs' l name :
  same_shape objs objs' -> owns_leaf mm objs' l name -> owns_leaf mm objs l name.
Proof.
  intros Hsh (r' & cd & f & Hl & Hcd & Hin & Ha & Hp & Hn).
  destruct (same_shape_lookup _ _ _ _ Hsh Hl) as (r & Hr & Ht & _).
  exists r, cd, f. rewrite Ht. auto 10.
Qed.

Lemma reaches_same_shape mm objs objs' l l' :
  same_shape objs objs' -> reaches mm objs' l l' -> reaches mm objs l l'.
Proof.
  intros Hsh H. induction H as [l|l r' cd f l1 l' Hl Hcd Hin Ha Hp He Hv _ IH].
  - constructor.
  - destruct (same_shape_lookup _ _ _ _ Hsh Hl) as (r & Hr & Ht & Hvs).
    apply (reaches_nested mm objs l r cd f l1 l'); auto; congruence.
Qed.

Lemma salt_evolves_refl mm objs : salt_evolves mm objs objs.
Proof.
  split; [apply same_shape_refl|]. split.
  - intros l name b Hb Hlen. eauto.
  - intros l name H. congruence.
Qed.

Lemma salt_evolves_trans mm o1 o2 o3 :
  salt_evolves mm o1 o2 -> salt_evolves mm o2 o3 -> salt_evolves mm o1 o3.
Proof.
  intros (Hs1 & Hm1 & Hc1) (Hs2 & Hm2 & Hc2).
  split; [eapply same_shape_trans; eauto|]. split.
  - intros l name b Hb Hlen.
    destruct (Hm1 l name b Hb Hlen) as (b' & Hb' & Hlen'). eauto.
  - intros l name Hne.
    destruct (decide (salt_of o2 l name = salt_of o1 l name)) as [Heq|Hne1].
    + rewrite <- Heq in Hne. apply Hc2 in Hne.
      eapply owns_leaf_same_shape; eauto.
    + auto.
Qed.

Lemma setSalt_evolves mm l r cd f salt s :
  objects s !! l = Some r ->
  mm !! r_type r = Some cd ->
  AField f ∈ cd_properties cd ->
  isArray f = false -> isPrimitive f = true ->
  length salt = 32%nat ->
  exists s',
    setSalt l (f_name f) salt s = Return tt s' /\
    parameters s' = parameters s /\
    salt_of (objects s') l (f_name f) = Some salt /\
    salt_evolves mm (objects s) (objects s').
Proof.
  intros Hl Hcd Hin Ha Hp Hlen.
  unfold setSalt, bind, the_object. rewrite Hl.
  eexists. split; [reflexivity|]. cbn. split; [reflexivity|].
  split; [|split; [|split]].
  - unfold salt_of. rewrite lookup_insert_eq. cbn. apply lookup_insert_eq.
  - intros l0. destruct (decide (l = l0)) as [<-|Hne].
    + rewrite lookup_insert_eq, Hl. reflexivity.
    + rewrite lookup_insert_ne by done. reflexivity.
  - intros l0 name b Hb Hb32. unfold salt_of in *.
    destruct (decide (l = l0)) as [<-|Hne].
    + rewrite lookup_insert_eq. cbn. rewrite Hl in Hb. cbn in Hb.
      destruct (decide (f_name f = name)) as [<-|Hn].
      * rewrite lookup_insert_eq. eauto.
      * rewrite lookup_insert_ne by done. eauto.
    + rewrite lookup_insert_ne by done. eauto.
  - intros l0 name Hne. unfold salt_of in Hne.
    destruct (decide (l = l0)) as [<-|Hnl].
    + rewrite lookup_insert_eq, Hl in Hne. cbn in Hne.
      destruct (decide (f_name f = name)) as [<-|Hn].
      * exists r, cd, f. auto 10.
      * rewrite lookup_insert_ne in Hne by done. congruence.
    + rewrite lookup_insert_ne in Hne by done. congruence.
Qed.

Lemma leaves_salted_mono mm o o1 o' l :
  salt_evolves mm o1 o' -> leaves_salted mm o o1 l -> leaves_salted mm o o' l.
Proof.
  intros (_ & Hm & _) H l' name Hr Ho.
  destruct (H l' name Hr Ho) as (b & Hb & Hlen). eauto.
Qed.

Lemma leaves_salted_shape mm o o1 o' l :
  same_shape o o1 -> leaves_salted mm o1 o' l -> leaves_salted mm o o' l.
Proof.
  intros Hsh H l' name Hr Ho. apply H.
  - eapply reaches_same_shape; [apply same_shape_sym|]; eauto.
  - eapply owns_leaf_same_shape; [apply same_shape_sym|]; eauto.
Qed.

Lemma property_salted_mono mm o o1 o' l p :
  salt_evolves mm o1 o' ->
  property_salted mm o o1 l p -> property_salted mm o o' l p.
Proof.
  intros Hev. destruct p as [f|]; cbn; [|auto].
  intros [Ha H]. split; [assumption|].
  destruct (isPrimitive f).
  - destruct H as (b & Hb & Hlen). destruct Hev as (_ & Hm & _). eauto.
  - destruct H as (He & r & l1 & Hl & Hv & Hs).
    split; [assumption|]. exists r, l1. repeat split; auto.
    eapply leaves_salted_mono; eauto.
Qed.

Lemma property_salted_shape mm o o1 o' l p :
  same_shape o o1 ->
  property_salted mm o1 o' l p -> property_salted mm o o' l p.
Proof.
  intros Hsh. destruct p as [f|]; cbn; [|auto].
  intros [Ha H]. split; [assumption|].
  destruct (isPrimitive f); [assumption|].
  destruct H as (He & r1 & l1 & Hl & Hv & Hs).
  split; [assumption|].
  destruct (same_shape_lookup _ _ _ _ Hsh Hl) as (r & Hr & Ht & Hvs).
  exists r, l1. repeat split; auto; [congruence|].
  eapply leaves_salted_shape; eauto.
Qed.

Lemma salt_turn_ok mm depth cd l p s u s' :
  salt_visit_ok mm depth ->
  p ∈ cd_properties cd ->
  (forall r, objects s !! l = Some r -> mm !! r_type r = Some cd) ->
  salt_turn mm depth l p s = Return u s' ->
  salt_evolves mm (objects s) (objects s') /\
  property_salted mm (objects s) (objects s') l p.
Proof.
  intros IH Hin Hcd Hrun. unfold salt_turn in Hrun.
  apply bind_Return in Hrun as (v & s1 & Hv & Hrun).
  apply get_value_Return in Hv as (r & Hl & -> & ->).
  apply bind_Return in Hrun as (? & s2 & Hpush & Hrun).
  apply stack_push_Return in Hpush. subst s2.
  apply bind_Return in Hrun as (salt & s3 & Hvisit & Hset).
  destruct p as [f|rd]; unfold SaltVisitor.visit in Hvisit.
  - unfold SaltVisitor.visitField in Hvisit.
    apply bind_Return in Hvisit as (v & s4 & Hpop & Hvisit).
    apply stack_pop_Return in Hpop as (rest & Hst & ->). cbn in Hst.
    injection Hst as <- <-.
    destruct (isArray f) eqn:Ha; [discriminate|].
    destruct (isPrimitive f) eqn:Hp.
    + apply bind_Return in Hvisit as (b & s5 & Hrnd & Hret).
      apply ret_Return in Hret as [<- <-].
      apply randomBytes_Return in Hrnd as (Hlen & Hobj & Hpar).
      cbn in Hobj.
      destruct (setSalt_evolves mm l r cd f b s5) as (s6 & Hs6 & _ & Hsalt & Hev);
        auto; [congruence|].
      cbn in Hset. rewrite Hs6 in Hset. injection Hset as Hs'. subst s'.
      rewrite Hobj in Hev. split; [exact Hev|].
      cbn. rewrite Ha, Hp. split; [reflexivity|]. eauto.
    + destruct (isEnum f) eqn:He; [discriminate|].
      apply bind_Return in Hvisit as (? & s5 & Hpush & Hvisit).
      apply stack_push_Return in Hpush. subst s5.
      apply bind_Return in Hvisit as (fqn & s6 & Hfq & Hvisit).
      apply getFullyQualifiedType_Return in Hfq as [-> Hfq].
      apply bind_Return in Hvisit as (cd1 & s7 & Hty & Hvisit).
      apply getType_Return in Hty as [Hty ->].
      apply bind_Return in Hvisit as (? & s8 & Hacc & Hret).
      apply ret_Return in Hret as [<- <-].
      cbn in Hset. apply ret_Return in Hset as [_ <-].
      apply IH in Hacc as (l1 & rest1 & Hst1 & Hev & Hsalted).
      * cbn. intros l1 rest1 r1 Hst1 Hl1. injection Hst1 as Hval _.
        destruct Hfq as [(l2 & r2 & Hv2 & Hl2 & ->)|(id & Hv2)];
          rewrite Hval in Hv2; [|discriminate].
        injection Hv2 as <-. cbn in Hl2. congruence.
      * cbn in Hst1. injection Hst1 as Hval _.
        split; [exact Hev|].
        cbn. rewrite Ha, Hp. split; [reflexivity|]. split; [exact He|].
        exists r, l1. repeat split; auto.
        destruct (r_values r !! f_name f) as [v|] eqn:Hv; cbn in Hval;
          [congruence|discriminate].
  - unfold SaltVisitor.visitRelationshipDeclaration in Hvisit.
    apply bind_Return in Hvisit as (v & s4 & _ & Hvisit).
    destruct v; discriminate.
Qed.

Lemma salt_loop_ok mm depth cd l :
  salt_visit_ok mm depth ->
  forall xs s u s',
    (forall p, p ∈ xs -> p ∈ cd_properties cd) ->
    (forall r, objects s !! l = Some r -> mm !! r_type r = Some cd) ->
    for_each xs (salt_turn mm depth l) s = Return u s' ->
    salt_evolves mm (objects s) (objects s') /\
    forall p, p ∈ xs -> property_salted mm (objects s) (objects s') l p.
Proof.
  intros IH xs. induction xs as [|x xs IHxs]; intros s u s' Hsub Hcd Hrun.
  - apply ret_Return in Hrun as [_ <-].
    split; [apply salt_evolves_refl|]. intros p Hp. inversion Hp.
  - cbn in Hrun. apply bind_Return in Hrun as (? & s1 & Hturn & Hrest).
    apply (salt_turn_ok mm depth cd) in Hturn as [Hev1 Hx]; auto;
      [|apply Hsub; left].
    apply IHxs in Hrest as [Hev2 Hxs].
    + split; [eapply salt_evolves_trans; eauto|].
      intros p Hp. apply elem_of_cons in Hp as [->|Hp].
      * eapply property_salted_mono; eauto.
      * eapply property_salted_shape; [apply Hev1|]. auto.
    + intros p Hp. apply Hsub. right. assumption.
    + intros r1 Hr1. destruct Hev1 as (Hsh & _).
      destruct (same_shape_lookup _ _ _ _ Hsh Hr1) as (r & Hr & Ht & _).
      rewrite <- Ht. auto.
Qed.

Lemma salt_visit_all mm fuel : salt_visit_ok mm fuel.
Proof.
  induction fuel as [|depth IH]; intros cd s u s' Hrun Hcd; [discriminate|].
  cbn in Hrun. apply bind_Return in Hrun as (typed & s1 & Hpop & Hrun).
  apply stack_pop_Return in Hpop as (rest & Hst & ->).
  destruct typed; try discriminate.
  exists l, rest. split; [assumption|].
  change (for_each (getProperties cd) (salt_turn mm depth l) (popped rest s)
          = Return u s') in Hrun.
  apply (salt_loop_ok mm depth cd l IH) in Hrun as [Hev Hall]; auto.
  - split; [exact Hev|]. cbn in Hall.
    intros l' name Hreach Howns. destruct Hreach as [l|l r cd0 f l1 l' Hl Hcd0
      Hin Ha Hp He Hv Hreach].
    + destruct Howns as (r & cd0 & f & Hl & Hcd0 & Hin & Ha & Hp & <-).
      rewrite (Hcd _ _ _ Hst Hl) in Hcd0. injection Hcd0 as <-.
      specialize (Hall _ Hin). cbn in Hall. rewrite Hp in Hall. tauto.
    + rewrite (Hcd _ _ _ Hst Hl) in Hcd0. injection Hcd0 as <-.
      specialize (Hall _ Hin). cbn in Hall. rewrite Hp in Hall.
      destruct Hall as (_ & _ & r' & l1' & Hl' & Hv' & Hsalted).
      rewrite Hl in Hl'. injection Hl' as <-.
      rewrite Hv in Hv'. injection Hv' as <-. auto.
  - cbn. eauto.
Qed.

(** C7: once salt(record) has returned, every primitive leaf of the record
    and of its nested records has a salt of exactly 32 bytes in the salt
    store of the object that owns the leaf; a salt store has changed only
    under the names of the primitive leaves of its own object, so the salts
    of a nested record are in its own store and not in the parent's; no type
    and no value has changed. *)
Theorem salt_populates mm fuel l s s' :
  Merkle.salt mm fuel (VResource l) s = Return tt s' ->
  (forall l' name,
      reaches mm (objects s) l l' -> owns_leaf mm (objects s) l' name ->
      exists b, salt_of (objects s') l' name = Some b /\ length b = 32%nat) /\
  (forall l' name,
      salt_of (objects s') l' name <> salt_of (objects s) l' name ->
      owns_leaf mm (objects s) l' name) /\
  same_shape (objects s) (objects s').
Proof.
  intros Hrun. unfold Merkle.salt in Hrun.
  apply bind_Return in Hrun as (fqn & s1 & Hfq & Hrun).
  apply getFullyQualifiedType_Return in Hfq as [-> Hfq].
  apply bind_Return in Hrun as (cd & s2 & Hty & Hrun).
  apply getType_Return in Hty as [Hty ->].
  apply bind_Return in Hrun as (? & s3 & Hset & Hrun).
  cbn in Hset. injection Hset as _ <-.
  apply salt_visit_all in Hrun as (l0 & rest & Hst & Hev & Hsalted).
  - cbn. intros l0 rest r Hst Hl0. injection Hst as <- _.
    destruct Hfq as [(l2 & r2 & Hv2 & Hl2 & ->)|(id & Hv2)]; [|discriminate].
    injection Hv2 as <-. congruence.
  - cbn in Hst. injection Hst as <- _. cbn in Hev, Hsalted.
    destruct Hev as (Hsh & _ & Hch). auto.
Qed.

Lemma salt_populates_witness :
  let s := Scenario.s4_fresh in
  let s' :=
    final_state (Merkle.salt Scenario.s4_model 2 (VResource 1) s) in
  (forall l' name,
      reaches Scenario.s4_model (objects s) 1%positive l' ->
      owns_leaf Scenario.s4_model (objects s) l' name ->
      exists b, salt_of (objects s') l' name = Some b /\ length b = 32%nat) /\
  (forall l' name,
      salt_of (objects s') l' name <> salt_of (objects s) l' name ->
      owns_leaf Scenario.s4_model (objects s) l' name) /\
  same_shape (objects s) (objects s').
Proof.
  intros s s'.
  apply (salt_populates Scenario.s4_model 2 1%positive s s').
  vm_compute. reflexivity.
Defined.

(** ** The verify walk and the length of [hashes] *)

Lemma pathEquals_length p1 p2 :
  pathEquals p1 p2 = true -> length p1 = length p2.
Proof.
  unfold pathEquals. destruct (length p1 =? length p2)%nat eqn:H; [|discriminate].
  intros _. apply Nat.eqb_eq. assumption.
Qed.

Lemma pathEquals_from_eq p1 : forall p2,
  length p1 = length p2 -> pathEquals_from p1 p2 = true -> p1 = p2.
Proof.
  induction p1 as [|x r1 IH]; intros [|y r2] Hlen H; try discriminate;
    [reflexivity|].
  cbn in H. destruct (String.eqb x y) eqn:Hxy; [|discriminate].
  apply String.eqb_eq in Hxy. subst y. f_equal. apply IH; auto.
Qed.

Lemma pathEquals_true p1 p2 : pathEquals p1 p2 = true <-> p1 = p2.
Proof.
  split.
  - intros H. apply pathEquals_from_eq; [apply pathEquals_length; auto|].
    unfold pathEquals in H.
    destruct (negb (length p1 =? length p2)%nat); [discriminate|assumption].
  - intros <-. unfold pathEquals. rewrite Nat.eqb_refl. cbn.
    induction p1 as [|x r IH]; [reflexivity|]. cbn.
    rewrite String.eqb_refl. assumption.
Qed.

Lemma update_json_Return h j s b s' :
  update_json h j s = Return b s' ->
  exists text, j = JText text /\ b = update h (utf8 text) /\ s' = s.
Proof.
  destruct j; cbn; try discriminate.
  intros H. injection H as <- <-. eauto.
Qed.

Lemma currentPath_push_Return name s u s' :
  currentPath_push name s = Return u s' ->
  s' = mkState (objects s)
         (with_currentPath (p_currentPath (parameters s) ++ [name]) (parameters s))
         (entropy s).
Proof.
  unfold currentPath_push, bind, get_parameters, set_parameters.
  intros H. injection H as _ <-. reflexivity.
Qed.

Lemma currentPath_pop_Return s u s' :
  currentPath_pop s = Return u s' ->
  s' = mkState (objects s)
         (with_currentPath (removelast (p_currentPath (parameters s))) (parameters s))
         (entropy s).
Proof.
  unfold currentPath_pop, bind, get_parameters, set_parameters.
  intros H. injection H as _ <-. reflexivity.
Qed.

Lemma clear_root_Return s u s' :
  clear_root s = Return u s' ->
  s' = mkState (objects s) (with_root false (parameters s)) (entropy s).
Proof.
  unfold clear_root, bind, get_parameters, set_parameters.
  destruct s as [o [r pa cp st hs v sa] e]. cbn.
  destruct r; cbn; intros H; injection H as _ <-; reflexivity.
Qed.

Lemma hashes_shift_Return s entry s' :
  VerifyVisitor.hashes_shift s = Return entry s' ->
  exists rest,
    p_hashes (parameters s) = entry :: rest /\
    s' = mkState (objects s) (with_hashes rest (parameters s)) (entropy s).
Proof.
  unfold VerifyVisitor.hashes_shift, bind, get_parameters, set_parameters.
  destruct (p_hashes (parameters s)) as [|e0 rest]; [discriminate|].
  cbn. intros H. injection H as <- <-. eauto.
Qed.

Lemma consumed_none_refl s : consumed s s None.
Proof. repeat split. Qed.

Lemma verify_field_consumes mm accept f s res s' :
  (forall cd s res s', accept cd s = Return res s' -> consumed s s' res) ->
  VerifyVisitor.visitField mm accept f s = Return res s' ->
  consumed s s' res.
Proof.
  intros IH Hrun. unfold VerifyVisitor.visitField in Hrun.
  destruct (isArray f); [discriminate|].
  destruct (isPrimitive f).
  - apply bind_Return in Hrun as (p & s1 & Hp & Hrun).
    cbn in Hp. injection Hp as <- <-.
    destruct (pathEquals _ _) eqn:Heq.
    + apply bind_Return in Hrun as (h & s1 & Hj & Hrun).
      apply update_json_Return in Hj as (text & _ & _ & ->).
      apply ret_Return in Hrun as [<- <-].
      repeat split. exists []. split; [reflexivity|].
      apply pathEquals_length in Heq. cbn. lia.
    + apply ret_Return in Hrun as [<- <-]. apply consumed_none_refl.
  - destruct (isEnum f); [discriminate|].
    apply bind_Return in Hrun as (cd & s1 & Hty & Hrun).
    apply getType_Return in Hty as [_ ->]. eauto.
Qed.

Lemma verify_visit_consumes mm accept p s res s' :
  (forall cd s res s', accept cd s = Return res s' -> consumed s s' res) ->
  VerifyVisitor.visit mm accept p s = Return res s' ->
  consumed s s' res.
Proof.
  intros IH. destruct p as [f|rd]; cbn; [|discriminate].
  apply verify_field_consumes. assumption.
Qed.

Lemma verify_properties_cons accept property rest :
  VerifyVisitor.visitProperties accept (property :: rest) =
  (currentPath_push (getName property) ;;;
   result <- accept property ;;
   currentPath_pop ;;;
   match result with
   | Some result =>
       entry <- VerifyVisitor.hashes_shift ;;
       ret (Some (digest
                    (fold_left update (snd entry)
                       (update (fold_left update (fst entry) createHash)
                               result))))
   | None => VerifyVisitor.visitProperties accept rest
   end).
Proof. reflexivity. Qed.

Lemma verify_properties_consume accept properties :
  (forall p s res s', accept p s = Return res s' -> consumed s s' res) ->
  forall s res s',
    VerifyVisitor.visitProperties accept properties s = Return res s' ->
    consumed s s' res.
Proof.
  intros Hacc. induction properties as [|property rest IH];
    intros s res s' Hrun.
  - apply ret_Return in Hrun as [<- <-]. apply consumed_none_refl.
  - rewrite verify_properties_cons in Hrun.
    apply bind_Return in Hrun as (? & s1 & Hpush & Hrun).
    apply currentPath_push_Return in Hpush. subst s1.
    apply bind_Return in Hrun as (r1 & s2 & Hvisit & Hrun).
    apply Hacc in Hvisit as (Hpath & Hcp & Hh). cbn in Hpath, Hcp, Hh.
    apply bind_Return in Hrun as (? & s3 & Hpop & Hrun).
    apply currentPath_pop_Return in Hpop. subst s3.
    rewrite Hcp, removelast_last in Hrun.
    destruct r1 as [d|].
    + destruct Hh as (taken & Htaken & Hlen).
      apply bind_Return in Hrun as (entry & s4 & Hshift & Hrun).
      apply ret_Return in Hrun as [<- <-].
      apply hashes_shift_Return in Hshift as (hs & Hhs & ->).
      cbn in Hhs. cbn.
      repeat split; auto.
      exists (taken ++ [entry]). rewrite <- app_assoc. cbn.
      rewrite <- Hhs. split; [assumption|].
      rewrite length_app in *. cbn in *. lia.
    + apply IH in Hrun as (Hpath' & Hcp' & Hh'). cbn in Hpath', Hcp', Hh'.
      destruct res as [d|].
      * destruct Hh' as (taken & Htaken & Hlen).
        repeat split; [congruence|congruence|].
        exists taken. rewrite <- Hh. split; [assumption|congruence].
      * repeat split; congruence.
Qed.

Lemma verify_class_consumes mm fuel :
  forall cd s res s',
    VerifyVisitor.visitClassDeclaration mm fuel cd s = Return res s' ->
    consumed s s' res.
Proof.
  induction fuel as [|depth IH]; intros cd s res s' Hrun; [discriminate|].
  cbn in Hrun. apply bind_Return in Hrun as (? & s1 & Hclear & Hrun).
  apply clear_root_Return in Hclear. subst s1.
  eapply verify_properties_consume in Hrun; [exact Hrun|].
  intros p s0 r0 s0'. apply verify_visit_consumes. exact IH.
Qed.

Lemma surplus_blind_bind {A B} (m : M A) (k : A -> M B) :
  surplus_blind m -> (forall a, surplus_blind (k a)) -> surplus_blind (bind m k).
Proof.
  intros Hm Hk extra s b s' Hrun.
  apply bind_Return in Hrun as (a & s1 & H1 & H2).
  unfold bind. rewrite (Hm _ _ _ _ H1). apply Hk. assumption.
Qed.

Lemma surplus_blind_ret {A} (a : A) : surplus_blind (ret a).
Proof. intros extra s b s' H. apply ret_Return in H as [<- <-]. reflexivity. Qed.

Lemma surplus_blind_throw {A} e : surplus_blind (@throw A e).
Proof. intros extra s b s' H. discriminate. Qed.

Lemma surplus_blind_currentPath_push name : surplus_blind (currentPath_push name).
Proof.
  intros extra s u s' H. apply currentPath_push_Return in H. subst s'.
  destruct u. reflexivity.
Qed.

Lemma surplus_blind_currentPath_pop : surplus_blind currentPath_pop.
Proof.
  intros extra s u s' H. apply currentPath_pop_Return in H. subst s'.
  destruct u. reflexivity.
Qed.

Lemma surplus_blind_clear_root : surplus_blind clear_root.
Proof.
  intros extra s u s' H. destruct u.
  unfold clear_root, bind, get_parameters, set_parameters in *.
  destruct s as [o [r pa cp st hs v sa] e]. cbn in *.
  destruct r; cbn in *; injection H as <-; reflexivity.
Qed.

Lemma surplus_blind_hashes_shift : surplus_blind VerifyVisitor.hashes_shift.
Proof.
  intros extra s entry s' H.
  apply hashes_shift_Return in H as (rest & Hh & ->).
  unfold VerifyVisitor.hashes_shift, bind, get_parameters. cbn.
  rewrite Hh. reflexivity.
Qed.

Lemma surplus_blind_getType mm fqn : surplus_blind (getType mm fqn).
Proof.
  intros extra s cd s' H. apply getType_Return in H as [H ->].
  unfold getType. rewrite H. reflexivity.
Qed.

Lemma surplus_blind_field mm accept f :
  (forall cd, surplus_blind (accept cd)) ->
  surplus_blind (VerifyVisitor.visitField mm accept f).
Proof.
  intros Hacc extra s res s' H. unfold VerifyVisitor.visitField in *.
  destruct (isArray f); [discriminate|].
  destruct (isPrimitive f).
  - unfold bind, get_parameters in *. cbn in *.
    destruct (pathEquals _ _).
    + destruct (JSON_stringify _); cbn in *; try discriminate.
      injection H as <- <-. reflexivity.
    + injection H as <- <-. reflexivity.
  - destruct (isEnum f); [discriminate|].
    revert extra s res s' H.
    apply surplus_blind_bind; [apply surplus_blind_getType|]. apply Hacc.
Qed.

Lemma surplus_blind_properties accept properties :
  (forall p, surplus_blind (accept p)) ->
  surplus_blind (VerifyVisitor.visitProperties accept properties).
Proof.
  intros Hacc. induction properties as [|property rest IH].
  - apply surplus_blind_ret.
  - rewrite verify_properties_cons.
    apply surplus_blind_bind; [apply surplus_blind_currentPath_push|intros _].
    apply surplus_blind_bind; [apply Hacc|intros result].
    apply surplus_blind_bind; [apply surplus_blind_currentPath_pop|intros _].
    destruct result as [d|]; [|exact IH].
    apply surplus_blind_bind; [apply surplus_blind_hashes_shift|intros entry].
    apply surplus_blind_ret.
Qed.

Lemma surplus_blind_class mm fuel :
  forall cd, surplus_blind (VerifyVisitor.visitClassDeclaration mm fuel cd).
Proof.
  induction fuel as [|depth IH]; intros cd.
  - intros extra s res s' H. discriminate.
  - cbn [VerifyVisitor.visitClassDeclaration].
    apply surplus_blind_bind; [apply surplus_blind_clear_root|intros _].
    apply surplus_blind_properties. intros [f|rd]; cbn.
    + apply surplus_blind_field. exact IH.
    + apply surplus_blind_throw.
Qed.

(** With fewer entries in [hashes] than the path has names, verify returns
    no boolean. *)
Lemma verify_needs_hashes mm fuel ns type path root proof s b s' :
  Merkle.verify mm fuel ns type path root proof s = Return b s' ->
  (length path <= length (proof_hashes proof))%nat.
Proof.
  intros Hrun. unfold Merkle.verify in Hrun.
  apply bind_Return in Hrun as (cd & s1 & Hty & Hrun).
  apply getType_Return in Hty as [_ ->].
  apply bind_Return in Hrun as (? & s2 & Hset & Hrun).
  cbn in Hset. injection Hset as _ <-.
  apply bind_Return in Hrun as (res & s3 & Hvisit & Hrun).
  destruct res as [d|]; [|discriminate].
  apply verify_class_consumes in Hvisit as (_ & _ & taken & Htaken & Hlen).
  cbn in Htaken, Hlen.
  apply (f_equal length) in Htaken.
  rewrite length_map, length_app in Htaken. lia.
Qed.

(** C3, as the code has it: a proof with a shortfall of entries in [hashes]
    (fewer entries than class nodes on the path, which are as many as the
    path has names) is never verified as true, and a surplus is ignored:
    with further entries at the end of [hashes], verify returns the same
    boolean. *)
Theorem verify_and_the_length_of_hashes
    mm fuel ns type path root proof extra s b s' :
  Merkle.verify mm fuel ns type path root proof s = Return b s' ->
  (b = true -> (length path <= length (proof_hashes proof))%nat) /\
  exists s'',
    Merkle.verify mm fuel ns type path root (add_hashes extra proof) s
    = Return b s''.
Proof.
  intros Hrun. split.
  { intros _. eapply verify_needs_hashes; eauto. }
  unfold Merkle.verify in *.
  apply bind_Return in Hrun as (cd & s1 & Hty & Hrun).
  apply getType_Return in Hty as [Hty ->].
  unfold bind at 1. unfold getType at 1. rewrite Hty. cbn [ret].
  apply bind_Return in Hrun as (? & s2 & Hset & Hrun).
  cbn in Hset. injection Hset as _ <-.
  apply bind_Return in Hrun as (res & s3 & Hvisit & Hrun).
  pose (extra' := map (fun entry : list string * list string =>
                         (map Hex.decode (fst entry), map Hex.decode (snd entry)))
                      extra).
  apply (surplus_blind_class mm fuel cd extra') in Hvisit.
  unfold bind, set_parameters. cbn [proof_hashes proof_value proof_salt add_hashes].
  rewrite map_app.
  unfold with_surplus, with_hashes in Hvisit.
  cbn [objects parameters entropy p_root p_path p_currentPath p_stack
       p_hashes p_value p_salt] in Hvisit.
  fold extra'. rewrite Hvisit.
  destruct res as [d|]; [|discriminate].
  apply ret_Return in Hrun as [<- _]. eexists. reflexivity.
Qed.

Lemma verify_and_the_length_of_hashes_witness :
  let extra := [(["00"%string], @nil string)] in
  let run proof :=
    Merkle.verify Scenario.s1_model 1 "org.test" "Thing" ["name"%string]
      Scenario.s1_root_hex proof Scenario.s1_state in
  (true = true ->
   (length ["name"%string] <= length (proof_hashes Scenario.s1_proof))%nat) /\
  exists s'', run (add_hashes extra Scenario.s1_proof) = Return true s''.
Proof.
  intros extra run.
  apply (verify_and_the_length_of_hashes Scenario.s1_model 1 "org.test" "Thing"
           ["name"%string] Scenario.s1_root_hex Scenario.s1_proof extra
           Scenario.s1_state true
           (final_state (run Scenario.s1_proof))).
  vm_compute. reflexivity.
Defined.

(** C3, as stated, fails: a proof of S1 with a surplus entry in [hashes] is
    verified as true, and with no entry at all verify raises a TypeError
    where the claim has it return false. *)
Lemma s1_surplus_and_shortfall :
  let run proof :=
    Scenario.result
      (Merkle.verify Scenario.s1_model 1 "org.test" "Thing" ["name"%string]
         Scenario.s1_root_hex proof Scenario.s1_state) in
  run Scenario.s1_proof = Some (inl true) /\
  run (add_hashes [(["00"%string], [])] Scenario.s1_proof) = Some (inl true) /\
  run (mkProof [] (VString "alice") (Hex.encode Scenario.zeros32))
    = Some (inr (TypeError NotIterable)).
Proof. vm_compute. repeat split; reflexivity. Qed.

(** ** The root engine computes the Merkle root *)

Lemma fold_update_concat ds : forall h, fold_left update ds h = h ++ concat ds.
Proof.
  induction ds as [|d ds IH]; intros h; cbn.
  - rewrite app_nil_r. reflexivity.
  - rewrite IH. unfold update. rewrite <- app_assoc. reflexivity.
Qed.

Lemma root_visitor_S mm depth cd :
  RootVisitor.visitClassDeclaration mm (S depth) cd =
  (typed <- stack_pop ;;
   match typed with
   | VResource l =>
       hashes <- for_collect (getProperties cd) (root_turn mm depth l) ;;
       ret (digest (fold_left update hashes createHash))
   | _ => throw (Error "Expected a Resource, but found " (Some typed))
   end).
Proof. reflexivity. Qed.

Lemma for_collect_cons {A B} (x : A) xs (body : A -> M B) :
  for_collect (x :: xs) body =
  (y <- body x ;; ys <- for_collect xs body ;; ret (y :: ys)).
Proof. reflexivity. Qed.

Lemma bind_run_Return {A B} (m : M A) (k : A -> M B) s a s1 :
  m s = Return a s1 -> bind m k s = k a s1.
Proof. intros H. unfold bind. rewrite H. reflexivity. Qed.

Lemma bind_run_Throw {A B} (m : M A) (k : A -> M B) s e s1 :
  m s = Throw e s1 -> bind m k s = Throw e s1.
Proof. intros H. unfold bind. rewrite H. reflexivity. Qed.

Lemma get_value_run l name s r :
  objects s !! l = Some r ->
  get_value l name s = Return (default VUndefined (r_values r !! name)) s.
Proof. intros H. unfold get_value, bind, the_object. rewrite H. reflexivity. Qed.

Lemma getSalt_run l name s r :
  objects s !! l = Some r ->
  getSalt l name s =
  Return (match r_salts r !! name with
          | Some b => VBuffer b
          | None => VUndefined
          end) s.
Proof. intros H. unfold getSalt, bind, the_object. rewrite H. reflexivity. Qed.

Lemma getFullyQualifiedType_run l s r :
  objects s !! l = Some r ->
  getFullyQualifiedType (VResource l) s = Return (r_type r) s.
Proof.
  intros H. unfold getFullyQualifiedType, bind, the_object. rewrite H.
  reflexivity.
Qed.

Lemma getType_run mm fqn cd s :
  mm !! fqn = Some cd -> getType mm fqn s = Return cd s.
Proof. intros H. unfold getType. rewrite H. reflexivity. Qed.

Lemma stack_pop_run v rest s :
  stack_pop (popped (v :: rest) s) = Return v (popped rest s).
Proof. reflexivity. Qed.

Lemma stack_push_run v rest s :
  stack_push v (popped rest s) = Return tt (popped (v :: rest) s).
Proof. reflexivity. Qed.

Lemma root_digest_Some mm objs depth l dg :
  root_digest mm objs depth l = Some dg ->
  exists d r cd ds,
    depth = S d /\ objs !! l = Some r /\ mm !! r_type r = Some cd /\
    mapM (property_digest (root_digest mm objs d) r) (cd_properties cd) = Some ds /\
    dg = sha256 (concat ds).
Proof.
  destruct depth as [|d]; [discriminate|]. cbn [root_digest].
  destruct (objs !! l) as [r|] eqn:Hl; [|discriminate]. cbn.
  destruct (mm !! r_type r) as [cd|] eqn:Hcd; [|discriminate]. cbn.
  destruct (mapM _ _) as [ds|] eqn:Hds; [|discriminate]. cbn.
  intros H. injection H as <-. exists d, r, cd, ds. auto.
Qed.

Lemma objects_popped rest s : objects (popped rest s) = objects s.
Proof. reflexivity. Qed.

Lemma root_turn_returns mm objs depth fuel l r p d s rest :
  root_walk_ok mm objs depth fuel ->
  objects s = objs -> objs !! l = Some r ->
  property_digest (root_digest mm objs depth) r p = Some d ->
  root_turn mm fuel l p (popped rest s) = Return d (popped rest s).
Proof.
  intros IH Hobjs Hl Hd. unfold root_turn.
  assert (forall st, objects (popped st s) !! l = Some r) as Hl'.
  { intros st. rewrite objects_popped, Hobjs. exact Hl. }
  rewrite (bind_run_Return _ _ _ _ _ (get_value_run l _ _ r (Hl' _))).
  rewrite (bind_run_Return _ _ _ _ _ (getSalt_run l _ _ r (Hl' _))).
  rewrite (bind_run_Return _ _ _ _ _ (stack_push_run _ _ _)).
  rewrite (bind_run_Return _ _ _ _ _ (stack_push_run _ _ _)).
  destruct p as [f|rd]; [|discriminate]. cbn [RootVisitor.visit getName].
  unfold RootVisitor.visitField.
  rewrite (bind_run_Return _ _ _ _ _ (stack_pop_run _ _ _)).
  rewrite (bind_run_Return _ _ _ _ _ (stack_pop_run _ _ _)).
  cbn [property_digest] in Hd.
  destruct (isArray f); [discriminate|].
  destruct (isPrimitive f).
  - unfold leaf_digest in Hd.
    destruct (r_salts r !! f_name f) as [salt|]; [|discriminate].
    cbn in Hd. unfold H_leaf in Hd.
    destruct (JSON_stringify _) as [text| |]; try discriminate.
    injection Hd as <-. reflexivity.
  - destruct (isEnum f); [discriminate|].
    destruct (r_values r !! f_name f) as [[]|] eqn:Hv; try discriminate.
    cbn [default].
    rewrite (bind_run_Return _ _ _ _ _ (stack_push_run _ _ _)).
    destruct (root_digest_Some _ _ _ _ _ Hd)
      as (depth' & r1 & cd1 & ds & -> & Hl0 & Hcd1 & _ & _).
    assert (objects (popped (VResource l0 :: rest) s) !! l0 = Some r1) as Hl0'.
    { rewrite objects_popped, Hobjs. exact Hl0. }
    rewrite (bind_run_Return _ _ _ _ _ (getFullyQualifiedType_run l0 _ _ Hl0')).
    rewrite (bind_run_Return _ _ _ _ _ (getType_run mm _ _ _ Hcd1)).
    eapply IH; eauto.
Qed.

Lemma mapM_cons_Some {A B} (f : A -> option B) x xs ys :
  mapM f (x :: xs) = Some ys ->
  exists y ys', f x = Some y /\ mapM f xs = Some ys' /\ ys = y :: ys'.
Proof.
  cbn. destruct (f x) as [y|]; [|discriminate]. cbn.
  destruct (mapM f xs) as [ys'|]; [|discriminate]. cbn.
  intros H. injection H as <-. eauto.
Qed.

Lemma root_loop_returns mm objs depth fuel l r s rest :
  root_walk_ok mm objs depth fuel ->
  objects s = objs -> objs !! l = Some r ->
  forall props ds,
    mapM (property_digest (root_digest mm objs depth) r) props = Some ds ->
    for_collect props (root_turn mm fuel l) (popped rest s)
    = Return ds (popped rest s).
Proof.
  intros IH Hobjs Hl props. induction props as [|p props IHp]; intros ds Hds.
  - injection Hds as <-. reflexivity.
  - apply mapM_cons_Some in Hds as (y & ys & Hy & Hys & ->).
    rewrite for_collect_cons.
    rewrite (bind_run_Return _ _ _ _ _
               (root_turn_returns _ _ _ _ _ _ _ _ _ _ IH Hobjs Hl Hy)).
    rewrite (bind_run_Return _ _ _ _ _ (IHp _ Hys)). reflexivity.
Qed.

Lemma root_walk_all mm objs :
  forall depth fuel, (depth <= fuel)%nat -> root_walk_ok mm objs depth fuel.
Proof.
  induction depth as [|depth IH]; intros fuel Hle l dg cd r s rest Hd Hobjs Hl Hcd;
    [discriminate|].
  destruct fuel as [|fuel]; [lia|].
  apply root_digest_Some in Hd as (d & r' & cd' & ds & Hd & Hl' & Hcd' & Hds & ->).
  injection Hd as <-.
  rewrite Hl in Hl'. injection Hl' as <-.
  rewrite Hcd in Hcd'. injection Hcd' as <-.
  rewrite root_visitor_S.
  rewrite (bind_run_Return _ _ _ _ _ (stack_pop_run _ _ _)).
  assert (root_walk_ok mm objs depth fuel) as IH' by (apply IH; lia).
  unfold getProperties.
  rewrite (bind_run_Return _ _ _ _ _
             (root_loop_returns _ _ _ _ _ _ _ _ IH' Hobjs Hl _ _ Hds)).
  unfold ret, digest. rewrite fold_update_concat. reflexivity.
Qed.

(** The root engine computes the root of the specification: for a record
    that has a Merkle root in the sense of [root_digest], [root] returns its
    hexadecimal text, with any fuel that covers the depth of the record. *)
Theorem root_is_the_merkle_root mm depth fuel l d s :
  root_digest mm (objects s) depth l = Some d ->
  (depth <= fuel)%nat ->
  exists s', Merkle.root mm fuel (VResource l) s = Return (Hex.encode d) s'.
Proof.
  intros Hd Hle. unfold Merkle.root.
  destruct (root_digest_Some _ _ _ _ _ Hd)
    as (depth' & r & cd & ds & -> & Hl & Hcd & _ & _).
  rewrite (bind_run_Return _ _ _ _ _ (getFullyQualifiedType_run l _ _ Hl)).
  rewrite (bind_run_Return _ _ _ _ _ (getType_run mm _ _ _ Hcd)).
  unfold bind at 1. cbn [set_parameters].
  change (mkState (objects s) (with_stack [VResource l] no_parameters) (entropy s))
    with (popped [VResource l]
            (mkState (objects s) no_parameters (entropy s))).
  erewrite bind_run_Return;
    [|eapply (root_walk_all mm (objects s) _ fuel Hle); eauto].
  eexists. reflexivity.
Qed.

(** ** The root engine without a salt *)

Lemma conforms_true mm objs depth l :
  conforms mm objs depth l = true ->
  exists d r cd,
    depth = S d /\ objs !! l = Some r /\ mm !! r_type r = Some cd /\
    forallb (property_conforms (conforms mm objs d) r) (cd_properties cd) = true.
Proof.
  destruct depth as [|d]; [discriminate|]. cbn [conforms].
  destruct (objs !! l) as [r|] eqn:Hl; [|discriminate].
  destruct (mm !! r_type r) as [cd|] eqn:Hcd; [|discriminate].
  intros H. exists d, r, cd. auto.
Qed.

Lemma root_turn_stops mm objs depth fuel l r p s rest :
  root_walk_stops mm objs depth fuel ->
  objects s = objs -> objs !! l = Some r ->
  property_conforms (conforms mm objs depth) r p = true ->
  property_digest (root_digest mm objs depth) r p = None ->
  exists s',
    root_turn mm fuel l p (popped rest s) = Throw (TypeError InvalidArgType) s'.
Proof.
  intros IH Hobjs Hl Hc Hd. unfold root_turn.
  assert (forall st, objects (popped st s) !! l = Some r) as Hl'.
  { intros st. rewrite objects_popped, Hobjs. exact Hl. }
  rewrite (bind_run_Return _ _ _ _ _ (get_value_run l _ _ r (Hl' _))).
  rewrite (bind_run_Return _ _ _ _ _ (getSalt_run l _ _ r (Hl' _))).
  rewrite (bind_run_Return _ _ _ _ _ (stack_push_run _ _ _)).
  rewrite (bind_run_Return _ _ _ _ _ (stack_push_run _ _ _)).
  destruct p as [f|rd]; [|discriminate]. cbn [RootVisitor.visit getName].
  unfold RootVisitor.visitField.
  rewrite (bind_run_Return _ _ _ _ _ (stack_pop_run _ _ _)).
  rewrite (bind_run_Return _ _ _ _ _ (stack_pop_run _ _ _)).
  cbn [property_digest] in Hd. cbn [property_conforms] in Hc.
  destruct (isArray f); [discriminate|].
  destruct (isPrimitive f).
  - unfold leaf_digest, H_leaf in Hd. cbn in Hc.
    destruct (JSON_stringify _) as [text| |]; try discriminate.
    destruct (r_salts r !! f_name f) as [salt|]; [discriminate|].
    eexists. reflexivity.
  - destruct (isEnum f); [discriminate|]. cbn in Hc.
    destruct (r_values r !! f_name f) as [[]|] eqn:Hv; try discriminate.
    cbn [default].
    rewrite (bind_run_Return _ _ _ _ _ (stack_push_run _ _ _)).
    destruct (conforms_true _ _ _ _ Hc) as (depth' & r1 & cd1 & -> & Hl0 & Hcd1 & _).
    assert (objects (popped (VResource l0 :: rest) s) !! l0 = Some r1) as Hl0'.
    { rewrite objects_popped, Hobjs. exact Hl0. }
    rewrite (bind_run_Return _ _ _ _ _ (getFullyQualifiedType_run l0 _ _ Hl0')).
    rewrite (bind_run_Return _ _ _ _ _ (getType_run mm _ _ _ Hcd1)).
    eapply IH; eauto.
Qed.

Lemma root_loop_stops mm objs depth fuel l r s rest :
  root_walk_ok mm objs depth fuel ->
  root_walk_stops mm objs depth fuel ->
  objects s = objs -> objs !! l = Some r ->
  forall props,
    forallb (property_conforms (conforms mm objs depth) r) props = true ->
    mapM (property_digest (root_digest mm objs depth) r) props = None ->
    exists s',
      for_collect props (root_turn mm fuel l) (popped rest s)
      = Throw (TypeError InvalidArgType) s'.
Proof.
  intros Hok IH Hobjs Hl props.
  induction props as [|p props IHp]; intros Hc Hd; [discriminate|].
  cbn in Hc. apply andb_true_iff in Hc as [Hcp Hc].
  rewrite for_collect_cons. cbn in Hd.
  destruct (property_digest _ r p) as [y|] eqn:Hy.
  - rewrite (bind_run_Return _ _ _ _ _
               (root_turn_returns _ _ _ _ _ _ _ _ _ _ Hok Hobjs Hl Hy)).
    destruct (mapM _ props) as [ys|] eqn:Hys; [discriminate|].
    destruct (IHp Hc eq_refl) as (s' & Hs').
    rewrite (bind_run_Throw _ _ _ _ _ Hs'). eauto.
  - destruct (root_turn_stops _ _ _ _ _ _ _ _ rest IH Hobjs Hl Hcp Hy)
      as (s' & Hs').
    rewrite (bind_run_Throw _ _ _ _ _ Hs'). eauto.
Qed.

Lemma root_walk_stops_all mm objs :
  forall depth fuel, (depth <= fuel)%nat -> root_walk_stops mm objs depth fuel.
Proof.
  induction depth as [|depth IH]; intros fuel Hle l cd r s rest Hc Hd Hobjs Hl Hcd;
    [discriminate|].
  destruct fuel as [|fuel]; [lia|].
  apply conforms_true in Hc as (d & r' & cd' & Hdep & Hl' & Hcd' & Hc).
  injection Hdep as <-.
  rewrite Hl in Hl'. injection Hl' as <-.
  rewrite Hcd in Hcd'. injection Hcd' as <-.
  cbn [root_digest] in Hd. rewrite Hl in Hd. cbn in Hd. rewrite Hcd in Hd.
  cbn in Hd.
  destruct (mapM _ _) as [ds|] eqn:Hds; [discriminate|].
  rewrite root_visitor_S.
  rewrite (bind_run_Return _ _ _ _ _ (stack_pop_run _ _ _)).
  unfold getProperties.
  destruct (root_loop_stops mm objs depth fuel l r s rest) with (props := cd_properties cd)
    as (s' & Hs'); auto.
  - apply root_walk_all. lia.
  - apply IH. lia.
  - rewrite (bind_run_Throw _ _ _ _ _ Hs'). eauto.
Qed.

Lemma mapM_None_elem {A B} (f : A -> option B) x xs :
  x ∈ xs -> f x = None -> mapM f xs = None.
Proof.
  intros Hin Hx. induction xs as [|y ys IH]; [inversion Hin|].
  cbn. apply elem_of_cons in Hin as [<-|Hin].
  - rewrite Hx. reflexivity.
  - rewrite (IH Hin). destruct (f y); reflexivity.
Qed.

(** A record with a primitive leaf that lacks its salt, in the record
    itself or in a nested record, has no Merkle root. *)
Lemma unsalted_leaf_no_root mm objs l l' name :
  reaches mm objs l l' -> owns_leaf mm objs l' name ->
  salt_of objs l' name = None ->
  forall depth, root_digest mm objs depth l = None.
Proof.
  intros Hreach Howns Hsalt.
  induction Hreach as [l|l r cd f l1 l' Hl Hcd Hin Ha Hp He Hv _ IH];
    intros [|d]; try reflexivity; cbn [root_digest].
  - destruct Howns as (r & cd & f & Hl & Hcd & Hin & Ha & Hp & <-).
    rewrite Hl. cbn. rewrite Hcd. cbn.
    rewrite (mapM_None_elem _ (AField f)); auto.
    cbn. rewrite Ha, Hp. unfold leaf_digest.
    unfold salt_of in Hsalt. rewrite Hl in Hsalt. cbn in Hsalt.
    rewrite Hsalt. reflexivity.
  - rewrite Hl. cbn. rewrite Hcd. cbn.
    rewrite (mapM_None_elem _ (AField f)); auto.
    cbn. rewrite Ha, Hp, He, Hv. auto.
Qed.

(** C4, as the code has it: for a record of primitive and nested-class
    fields in which some primitive leaf has no entry in the salt store of
    its object, the root engine returns no digest: it aborts, and the
    exception is the TypeError that [hash.update] raises for an argument
    that is neither text nor Buffer.  The engines have no error of their
    own for a missing salt, and this exception stands for no error kind. *)
Theorem root_without_a_salt mm depth fuel l l' name s :
  conforms mm (objects s) depth l = true ->
  reaches mm (objects s) l l' ->
  owns_leaf mm (objects s) l' name ->
  salt_of (objects s) l' name = None ->
  (depth <= fuel)%nat ->
  exists s',
    Merkle.root mm fuel (VResource l) s = Throw (TypeError InvalidArgType) s' /\
    error_kind (TypeError InvalidArgType) = None.
Proof.
  intros Hc Hreach Howns Hsalt Hle. unfold Merkle.root.
  pose proof (unsalted_leaf_no_root _ _ _ _ _ Hreach Howns Hsalt depth) as Hd.
  destruct (conforms_true _ _ _ _ Hc) as (depth' & r & cd & -> & Hl & Hcd & _).
  rewrite (bind_run_Return _ _ _ _ _ (getFullyQualifiedType_run l _ _ Hl)).
  rewrite (bind_run_Return _ _ _ _ _ (getType_run mm _ _ _ Hcd)).
  unfold bind at 1. cbn [set_parameters].
  change (mkState (objects s) (with_stack [VResource l] no_parameters) (entropy s))
    with (popped [VResource l]
            (mkState (objects s) no_parameters (entropy s))).
  destruct (root_walk_stops_all mm (objects s) _ fuel Hle l cd r
              (mkState (objects s) no_parameters (entropy s)) [])
    as (s' & Hs'); auto.
  rewrite (bind_run_Throw _ _ _ _ _ Hs'). eauto.
Qed.

Lemma root_without_a_salt_witness :
  exists s',
    Merkle.root Scenario.s4_model 2 (VResource 1) Scenario.s4_half_salted
    = Throw (TypeError InvalidArgType) s' /\
    error_kind (TypeError InvalidArgType) = None.
Proof.
  apply (root_without_a_salt Scenario.s4_model 2 2 1%positive 2%positive
           "k" Scenario.s4_half_salted).
  - vm_compute. reflexivity.
  - apply (reaches_nested _ _ 1%positive
             (Scenario.obj "org.test.Outer"
                [("inner"%string, VResource 2%positive); ("a"%string, VString "x")]
                [("a"%string, Scenario.ones32)])
             (mkClassDeclaration "org.test.Outer"
                [Scenario.nested "inner" "org.test.Inner"; Scenario.str "a"])
             (mkField "inner" (Class "org.test.Inner") false) 2%positive);
      try reflexivity.
    + apply list_elem_of_here.
    + apply reaches_here.
  - exists (Scenario.obj "org.test.Inner" [("k"%string, VString "v")] []),
      (mkClassDeclaration "org.test.Inner" [Scenario.str "k"]),
      (mkField "k" (Primitive TString) false).
    repeat split; try reflexivity. apply list_elem_of_here.
  - vm_compute. reflexivity.
  - lia.
Defined.

(** C4, as stated, fails: for the record of S1 without its salt, root raises
    an exception that stands for no SaltMissing error; the very same
    exception is raised when the salt is there and the value is not. *)
Lemma s1_unsalted_is_no_SaltMissing :
  ~ (exists e s',
       Merkle.root Scenario.s1_model 1 (VResource 1) Scenario.s1_fresh
         = Throw e s' /\
       error_kind e = Some SaltMissing) /\
  Scenario.result
    (Merkle.root Scenario.s1_model 1 (VResource 1) Scenario.s1_fresh)
    = Some (inr (TypeError InvalidArgType)) /\
  Scenario.result
    (Merkle.root Scenario.s1_model 1 (VResource 1) Scenario.s1_no_value)
    = Some (inr (TypeError InvalidArgType)).
Proof.
  split; [|split; vm_compute; reflexivity].
  intros (e & s' & Hrun & Hk). vm_compute in Hrun.
  injection Hrun as <- _. discriminate.
Qed.

(** ** The proof engine on a salted record *)

Lemma proof_visitor_S mm depth cd :
  ProofVisitor.visitClassDeclaration mm (S depth) cd =
  (clear_root ;;;
   typed <- stack_pop ;;
   match typed with
   | VResource l => for_collect (getProperties cd) (proof_turn mm depth l)
   | _ => throw (Error "Expected a Resource, but found " (Some typed))
   end).
Proof. reflexivity. Qed.

Lemma raw_proof_Some mm objs depth path cp l t :
  raw_proof mm objs depth path cp l = Some t ->
  exists d r cd,
    depth = S d /\ objs !! l = Some r /\ mm !! r_type r = Some cd /\
    mapM (raw_property (raw_proof mm objs d path) r path cp) (cd_properties cd)
    = Some t.
Proof.
  destruct depth as [|d]; [discriminate|]. cbn [raw_proof].
  destruct (objs !! l) as [r|] eqn:Hl; [|discriminate]. cbn.
  destruct (mm !! r_type r) as [cd|] eqn:Hcd; [|discriminate]. cbn.
  intros H. exists d, r, cd. auto.
Qed.

(** *** Stepping through a walk on a literal state *)

Lemma bind_assoc {A B C} (m : M A) (k1 : A -> M B) (k2 : B -> M C) s :
  bind (bind m k1) k2 s = bind m (fun x => bind (k1 x) k2) s.
Proof. unfold bind. destruct (m s); reflexivity. Qed.

Lemma bind_ret {A B} (a : A) (k : A -> M B) s : bind (ret a) k s = k a s.
Proof. reflexivity. Qed.

Lemma bind_throw {A B} e (k : A -> M B) s : bind (throw e) k s = Throw e s.
Proof. reflexivity. Qed.

Lemma bind_stack_push {B} x (k : unit -> M B) o r pa cp st hs v sa e :
  bind (stack_push x) k (mkState o (mkParameters r pa cp st hs v sa) e)
  = k tt (mkState o (mkParameters r pa cp (x :: st) hs v sa) e).
Proof. reflexivity. Qed.

Lemma bind_stack_pop {B} x (k : Value -> M B) o r pa cp st hs v sa e :
  bind stack_pop k (mkState o (mkParameters r pa cp (x :: st) hs v sa) e)
  = k x (mkState o (mkParameters r pa cp st hs v sa) e).
Proof. reflexivity. Qed.

Lemma bind_currentPath_push {B} name (k : unit -> M B) o r pa cp st hs v sa e :
  bind (currentPath_push name) k (mkState o (mkParameters r pa cp st hs v sa) e)
  = k tt (mkState o (mkParameters r pa (cp ++ [name]) st hs v sa) e).
Proof. reflexivity. Qed.

Lemma bind_currentPath_pop {B} name (k : unit -> M B) o r pa cp st hs v sa e :
  bind currentPath_pop k
       (mkState o (mkParameters r pa (cp ++ [name]) st hs v sa) e)
  = k tt (mkState o (mkParameters r pa cp st hs v sa) e).
Proof.
  unfold bind, currentPath_pop, get_parameters, set_parameters. cbn.
  rewrite removelast_last. reflexivity.
Qed.

Lemma bind_clear_root {B} (k : unit -> M B) o r pa cp st hs v sa e :
  bind clear_root k (mkState o (mkParameters r pa cp st hs v sa) e)
  = k tt (mkState o (mkParameters false pa cp st hs v sa) e).
Proof. destruct r; reflexivity. Qed.

Lemma bind_get_parameters {B} (k : Parameters -> M B) o p e :
  bind get_parameters k (mkState o p e) = k p (mkState o p e).
Proof. reflexivity. Qed.

Lemma bind_get_value {B} l name r (k : Value -> M B) o p e :
  o !! l = Some r ->
  bind (get_value l name) k (mkState o p e)
  = k (default VUndefined (r_values r !! name)) (mkState o p e).
Proof.
  intros H. unfold bind, get_value, the_object, bind. cbn. rewrite H. reflexivity.
Qed.

Lemma bind_getSalt {B} l name r (k : Value -> M B) o p e :
  o !! l = Some r ->
  bind (getSalt l name) k (mkState o p e)
  = k (match r_salts r !! name with
       | Some b => VBuffer b
       | None => VUndefined
       end) (mkState o p e).
Proof.
  intros H. unfold bind, getSalt, the_object, bind. cbn. rewrite H. reflexivity.
Qed.

Lemma bind_getFullyQualifiedType {B} l r (k : string -> M B) o p e :
  o !! l = Some r ->
  bind (getFullyQualifiedType (VResource l)) k (mkState o p e)
  = k (r_type r) (mkState o p e).
Proof.
  intros H. unfold bind, getFullyQualifiedType, the_object, bind. cbn.
  rewrite H. reflexivity.
Qed.

Lemma bind_getType {B} mm fqn cd (k : ClassDeclaration -> M B) s :
  mm !! fqn = Some cd -> bind (getType mm fqn) k s = k cd s.
Proof. intros H. unfold bind, getType. rewrite H. reflexivity. Qed.

Lemma bind_update_json {B} h text (k : Buffer -> M B) s :
  bind (update_json h (JText text)) k s = k (update h (utf8 text)) s.
Proof. reflexivity. Qed.

Lemma bind_update_buffer {B} h b (k : Buffer -> M B) s :
  bind (update_value h (VBuffer b)) k s = k (update h b) s.
Proof. reflexivity. Qed.

Lemma bind_hashes_shift {B} entry (k : list Buffer * list Buffer -> M B)
    o r pa cp st hs v sa e :
  bind VerifyVisitor.hashes_shift k
       (mkState o (mkParameters r pa cp st (entry :: hs) v sa) e)
  = k entry (mkState o (mkParameters r pa cp st hs v sa) e).
Proof. reflexivity. Qed.

Ltac step :=
  rewrite ?bind_assoc;
  first
    [ rewrite bind_ret
    | rewrite bind_throw
    | rewrite bind_stack_push
    | rewrite bind_stack_pop
    | rewrite bind_currentPath_push
    | rewrite bind_currentPath_pop
    | rewrite bind_clear_root
    | rewrite bind_get_parameters
    | erewrite bind_get_value by eassumption
    | erewrite bind_getSalt by eassumption
    | erewrite bind_getFullyQualifiedType by eassumption
    | erewrite bind_getType by eassumption
    | rewrite bind_update_json
    | rewrite bind_update_buffer
    | rewrite bind_hashes_shift ];
  cbv beta.

Ltac steps := repeat step.

Lemma proof_turn_returns mm objs depth fuel l r p n pa cp rest hs v sa e :
  proof_walk_ok mm objs depth fuel ->
  objs !! l = Some r ->
  raw_property (raw_proof mm objs depth pa) r pa cp p = Some n ->
  proof_turn mm fuel l p (mkState objs (mkParameters false pa cp rest hs v sa) e)
  = Return n (mkState objs (mkParameters false pa cp rest hs v sa) e).
Proof.
  intros IH Hl Hn. unfold proof_turn.
  destruct p as [f|rd]; [|discriminate].
  cbn [ProofVisitor.visit getName]. unfold ProofVisitor.visitField.
  steps.
  cbn [raw_property] in Hn.
  destruct (isArray f); [discriminate|].
  destruct (isPrimitive f).
  - destruct (r_salts r !! f_name f) as [salt|]; [|discriminate].
    cbn in Hn. unfold H_leaf in Hn.
    destruct (JSON_stringify _) as [text| |] eqn:Hj; try discriminate.
    cbn in Hn. step. cbn [p_path p_currentPath].
    destruct (pathEquals _ _); injection Hn as <-; steps; reflexivity.
  - destruct (isEnum f); [discriminate|].
    destruct (r_values r !! f_name f) as [[]|] eqn:Hv; try discriminate.
    destruct (raw_proof _ _ _ _ _ _) as [t1|] eqn:Ht1; [|discriminate].
    injection Hn as <-.
    destruct (raw_proof_Some _ _ _ _ _ _ _ Ht1)
      as (depth' & r1 & cd1 & -> & Hl0 & Hcd1 & _).
    cbn [default from_option id]. steps.
    rewrite ?bind_assoc.
    erewrite bind_run_Return; [|apply (IH l0 t1 cd1 r1); eassumption].
    steps. reflexivity.
Qed.

Lemma proof_loop_returns mm objs depth fuel l r pa cp rest hs v sa e :
  proof_walk_ok mm objs depth fuel ->
  objs !! l = Some r ->
  forall props t,
    mapM (raw_property (raw_proof mm objs depth pa) r pa cp) props = Some t ->
    for_collect props (proof_turn mm fuel l)
      (mkState objs (mkParameters false pa cp rest hs v sa) e)
    = Return t (mkState objs (mkParameters false pa cp rest hs v sa) e).
Proof.
  intros IH Hl props. induction props as [|p props IHp]; intros t Ht.
  - injection Ht as <-. reflexivity.
  - apply mapM_cons_Some in Ht as (y & ys & Hy & Hys & ->).
    rewrite for_collect_cons.
    erewrite bind_run_Return; [|eapply proof_turn_returns; eassumption].
    erewrite bind_run_Return; [|apply IHp; eassumption].
    reflexivity.
Qed.

Lemma proof_walk_all mm objs :
  forall depth fuel, (depth <= fuel)%nat -> proof_walk_ok mm objs depth fuel.
Proof.
  induction depth as [|depth IH];
    intros fuel Hle l t cd r root pa cp rest hs v sa e Ht Hl Hcd; [discriminate|].
  destruct fuel as [|fuel]; [lia|].
  apply raw_proof_Some in Ht as (d & r' & cd' & Hd & Hl' & Hcd' & Ht).
  injection Hd as <-.
  rewrite Hl in Hl'. injection Hl' as <-.
  rewrite Hcd in Hcd'. injection Hcd' as <-.
  rewrite proof_visitor_S. steps.
  unfold getProperties.
  eapply proof_loop_returns; eauto. apply IH. lia.
Qed.

(** A record that has a Merkle root has a raw proof for every path. *)
Lemma raw_proof_defined mm objs path :
  forall depth l cp d,
    root_digest mm objs depth l = Some d ->
    is_Some (raw_proof mm objs depth path cp l).
Proof.
  induction depth as [|depth IH]; intros l cp d Hd; [discriminate|].
  apply root_digest_Some in Hd as (d' & r & cd & ds & Hdep & Hl & Hcd & Hds & _).
  injection Hdep as <-. cbn [raw_proof]. rewrite Hl. cbn. rewrite Hcd. cbn.
  apply mapM_is_Some. apply Forall_forall. intros p Hp.
  assert (is_Some (property_digest (root_digest mm objs depth) r p)) as [y Hy].
  { assert (is_Some (mapM (property_digest (root_digest mm objs depth) r)
                          (cd_properties cd))) as Hs by eauto.
    rewrite mapM_is_Some, Forall_forall in Hs. apply Hs. assumption. }
  destruct p as [f|rd]; [|discriminate]. cbn in Hy |- *.
  destruct (isArray f); [discriminate|].
  destruct (isPrimitive f).
  - unfold leaf_digest in Hy.
    destruct (r_salts r !! f_name f) as [salt|]; [|discriminate].
    cbn in Hy |- *. rewrite Hy. cbn. destruct (pathEquals _ _); eauto.
  - destruct (isEnum f); [discriminate|].
    destruct (r_values r !! f_name f) as [[]|]; try discriminate.
    destruct (IH l0 (cp ++ [f_name f]) y Hy) as [t Ht]. rewrite Ht. cbn. eauto.
Qed.

(** ** The proof engine on a path that names no leaf *)

Lemma mapM_Some_forallb {A B} (f : A -> option B) (P : B -> bool) xs :
  forall t,
    mapM f xs = Some t ->
    (forall x y, x ∈ xs -> f x = Some y -> P y = true) ->
    forallb P t = true.
Proof.
  induction xs as [|x xs IH]; intros t Ht HP.
  - injection Ht as <-. reflexivity.
  - apply mapM_cons_Some in Ht as (y & ys & Hy & Hys & ->). cbn.
    rewrite (HP x y); [|left|assumption]. cbn.
    apply IH; [assumption|]. intros x' y' Hin. apply HP. right. assumption.
Qed.

Lemma existsb_false_elem {A} (g : A -> bool) xs x :
  existsb g xs = false -> x ∈ xs -> g x = false.
Proof.
  intros He Hin. destruct (g x) eqn:Hg; [|reflexivity].
  rewrite <- He. symmetry. apply existsb_exists. exists x.
  split; [apply list_elem_of_In|]; assumption.
Qed.

Lemma raw_proof_no_disclosure mm objs path :
  forall depth l cp t,
    raw_proof mm objs depth path cp l = Some t ->
    (forall rel, path = cp ++ rel -> resolves mm objs depth l rel = false) ->
    forallb no_disclosure t = true.
Proof.
  induction depth as [|depth IH]; intros l cp t Ht Hno; [discriminate|].
  apply raw_proof_Some in Ht as (d & r & cd & Hd & Hl & Hcd & Ht).
  injection Hd as <-.
  assert (forall name rest,
             path = cp ++ name :: rest ->
             forall p, p ∈ cd_properties cd ->
               match p with
               | AField f =>
                   String.eqb (f_name f) name && negb (isArray f) &&
                   (if isPrimitive f then
                      match rest with [] => true | _ => false end
                    else
                      negb (isEnum f) &&
                      match r_values r !! f_name f with
                      | Some (VResource l1) => resolves mm objs depth l1 rest
                      | _ => false
                      end)
               | ARelationship _ => false
               end = false) as Hg.
  { intros name rest Hpath p Hp. specialize (Hno _ Hpath).
    cbn [resolves] in Hno. rewrite Hl, Hcd in Hno.
    apply (existsb_false_elem _ _ _ Hno Hp). }
  eapply mapM_Some_forallb; [exact Ht|].
  intros p n Hp Hn. destruct p as [f|rd]; [|discriminate].
  cbn [raw_property] in Hn.
  destruct (isArray f) eqn:Ha; [discriminate|].
  destruct (isPrimitive f) eqn:Hprim.
  - destruct (r_salts r !! f_name f) as [salt|]; [|discriminate]. cbn in Hn.
    destruct (H_leaf _ _) as [dg|]; [|discriminate]. cbn in Hn.
    destruct (pathEquals _ _) eqn:Heq.
    + apply pathEquals_true in Heq.
      specialize (Hg (f_name f) [] Heq _ Hp). cbn in Hg.
      rewrite String.eqb_refl, Ha, Hprim in Hg. discriminate.
    + injection Hn as <-. reflexivity.
  - destruct (isEnum f) eqn:He; [discriminate|].
    destruct (r_values r !! f_name f) as [[]|] eqn:Hv; try discriminate.
    destruct (raw_proof _ _ _ _ _ _) as [t1|] eqn:Ht1; [|discriminate].
    injection Hn as <-. cbn [no_disclosure].
    apply (IH l0 (cp ++ [f_name f]) t1 Ht1).
    intros rel Hpath. rewrite <- app_assoc in Hpath. cbn in Hpath.
    specialize (Hg (f_name f) rel Hpath _ Hp). cbn in Hg.
    rewrite String.eqb_refl, Ha, Hprim, He, Hv in Hg. exact Hg.
Qed.

Lemma splitProof_from_child p :
  forall acc,
    child (splitProof_from p acc) = child acc \/
    exists e,
      child (splitProof_from p acc) = Some e /\ e ∈ p /\
      forall b, e <> Digest b.
Proof.
  induction p as [|e p IH]; intros acc; [left; reflexivity|].
  cbn [splitProof_from].
  destruct e as [b|va sa|rs].
  - destruct (child acc) eqn:Hc.
    + destruct (IH (mkSplit (before acc) (child acc) (after acc ++ [b])))
        as [H|(e' & H1 & H2 & H3)].
      * left. rewrite <- Hc. exact H.
      * right. exists e'. rewrite <- Hc. repeat split; auto. right. assumption.
    + destruct (IH (mkSplit (before acc ++ [b]) (child acc) (after acc)))
        as [H|(e' & H1 & H2 & H3)].
      * left. rewrite <- Hc. exact H.
      * right. exists e'. rewrite <- Hc. repeat split; auto. right. assumption.
  - destruct (IH (mkSplit (before acc) (Some (Disclosure va sa)) (after acc)))
      as [H|(e' & H1 & H2 & H3)].
    + right. exists (Disclosure va sa). split; [exact H|].
      split; [left|discriminate].
    + right. exists e'. repeat split; auto. right. assumption.
  - destruct (IH (mkSplit (before acc) (Some (Results rs)) (after acc)))
      as [H|(e' & H1 & H2 & H3)].
    + right. exists (Results rs). split; [exact H|].
      split; [left|discriminate].
    + right. exists e'. repeat split; auto. right. assumption.
Qed.

Lemma node_depth_elem e p : e ∈ p -> (node_depth e <= results_depth p)%nat.
Proof.
  intros Hin. induction p as [|x p IH]; [inversion Hin|].
  unfold results_depth. cbn [fold_right]. fold (results_depth p).
  apply elem_of_cons in Hin as [<-|Hin]; [lia|].
  specialize (IH Hin). lia.
Qed.

Lemma forallb_elem {A} (P : A -> bool) xs x :
  forallb P xs = true -> x ∈ xs -> P x = true.
Proof.
  intros H Hin. rewrite forallb_forall in H. apply H.
  apply list_elem_of_In. assumption.
Qed.

Lemma flatten_without_disclosure :
  forall steps p hashes s,
    forallb no_disclosure p = true ->
    (results_depth p < steps)%nat ->
    Merkle.flatten steps p hashes s
    = Throw (TypeError (PropertyOfNullish "$value")) s.
Proof.
  induction steps as [|steps IH]; intros p hashes s Hp Hlt; [lia|].
  cbn [Merkle.flatten].
  destruct (splitProof_from_child p (mkSplit [] None [])) as [H|(e & H & Hin & Hnd)];
    fold (splitProof p) in H; rewrite H; [reflexivity|].
  pose proof (forallb_elem _ _ _ Hp Hin) as He.
  pose proof (node_depth_elem _ _ Hin) as Hd.
  destruct e as [b|va sa|rs]; [destruct (Hnd b eq_refl)|discriminate|].
  apply IH; [exact He|].
  cbn [node_depth] in Hd. fold (results_depth rs) in Hd. lia.
Qed.

(** C5, as the code has it: for a record with its salts in place (a record
    that has a Merkle root), proof with the empty path, or with any path
    that leads to no primitive leaf of the record, returns no proof: the
    walk finds no leaf to disclose, and the loop that builds the public
    proof raises the TypeError of reading [$value] of null.  The engines
    have no error of their own for such a path. *)
Theorem proof_without_a_leaf mm depth fuel l d path s :
  root_digest mm (objects s) depth l = Some d ->
  resolves mm (objects s) depth l path = false ->
  (depth <= fuel)%nat ->
  Merkle.proof mm fuel (VResource l) path s
  = Throw (TypeError (PropertyOfNullish "$value"))
          (mkState (objects s) (mkParameters false path [] [] [] VUndefined [])
                   (entropy s)) /\
  error_kind (TypeError (PropertyOfNullish "$value")) = None.
Proof.
  intros Hd Hno Hle. split; [|reflexivity].
  destruct (raw_proof_defined mm (objects s) path depth l [] d Hd) as [t Ht].
  destruct (raw_proof_Some _ _ _ _ _ _ _ Ht)
    as (depth' & r & cd & -> & Hl & Hcd & _).
  destruct s as [o p e]. cbn [objects entropy] in *.
  unfold Merkle.proof. steps.
  unfold bind at 1. cbn [set_parameters].
  erewrite bind_run_Return;
    [|apply (proof_walk_all mm o (S depth') fuel Hle l t cd r); eassumption].
  apply flatten_without_disclosure.
  - eapply raw_proof_no_disclosure; [exact Ht|].
    intros rel Hrel. cbn in Hrel. subst rel. exact Hno.
  - cbn [node_depth]. fold (results_depth t). lia.
Qed.

Lemma proof_without_a_leaf_witness :
  let stopped path :=
    Throw (TypeError (PropertyOfNullish "$value"))
      (mkState (objects Scenario.s1_state)
         (mkParameters false path [] [] [] VUndefined [])
         (entropy Scenario.s1_state)) in
  (Merkle.proof Scenario.s1_model 1 (VResource 1) [] Scenario.s1_state
   = stopped [] /\
   error_kind (TypeError (PropertyOfNullish "$value")) = None) /\
  (Merkle.proof Scenario.s1_model 1 (VResource 1) ["name"; "first"]%string
     Scenario.s1_state
   = stopped ["name"; "first"]%string /\
   error_kind (TypeError (PropertyOfNullish "$value")) = None).
Proof.
  intros stopped. split.
  - apply (proof_without_a_leaf Scenario.s1_model 1 1 1%positive
             (Hex.decode Scenario.s1_root_hex) [] Scenario.s1_state).
    + vm_compute. reflexivity.
    + vm_compute. reflexivity.
    + lia.
  - apply (proof_without_a_leaf Scenario.s1_model 1 1 1%positive
             (Hex.decode Scenario.s1_root_hex) ["name"; "first"]%string
             Scenario.s1_state).
    + vm_compute. reflexivity.
    + vm_compute. reflexivity.
    + lia.
Defined.

(** C5, as stated, fails: on the record of S1 with its salt, proof with the
    empty path raises an exception that stands for no PathInvalid error. *)
Lemma s1_empty_path_is_no_PathInvalid :
  ~ (exists e s',
       Merkle.proof Scenario.s1_model 1 (VResource 1) [] Scenario.s1_state
         = Throw e s' /\
       error_kind e = Some PathInvalid) /\
  Scenario.result
    (Merkle.proof Scenario.s1_model 1 (VResource 1) [] Scenario.s1_state)
    = Some (inr (TypeError (PropertyOfNullish "$value"))).
Proof.
  split; [|vm_compute; reflexivity].
  intros (e & s' & Hrun & Hk). vm_compute in Hrun.
  injection Hrun as <- _. discriminate.
Qed.

(** ** The round trip, where it holds *)

Lemma hex_pair x :
  Hex.value (Hex.digit (Z_of_byte x / 16)) = Some (Z_of_byte x / 16) /\
  Hex.value (Hex.digit (Z_of_byte x mod 16)) = Some (Z_of_byte x mod 16) /\
  byte_of_Z (16 * (Z_of_byte x / 16) + Z_of_byte x mod 16) = x.
Proof. destruct x; repeat split; reflexivity. Qed.

Lemma hex_decode_encode b : Hex.decode (Hex.encode b) = b.
Proof.
  induction b as [|x b IH]; [reflexivity|].
  cbn [Hex.encode Hex.decode].
  destruct (hex_pair x) as (-> & -> & ->). rewrite IH. reflexivity.
Qed.

Lemma map_hex_decode_encode bs : map Hex.decode (map Hex.encode bs) = bs.
Proof.
  induction bs as [|b bs IH]; [reflexivity|].
  cbn. rewrite hex_decode_encode, IH. reflexivity.
Qed.

Lemma siblings_digests nested r name props ds :
  Forall2 (sibling r name) props ds ->
  Forall2 (fun p d => property_digest nested r p = Some d) props ds.
Proof.
  intros H. induction H as [|p d props ds (g & -> & Ha & Hp & _ & Hd) _ IH];
    constructor; [|exact IH].
  cbn. rewrite Ha, Hp. exact Hd.
Qed.

(** Part one: the record has the Merkle root [d]. *)
Lemma opens_root_digest mm objs l path d hs v salt :
  opens mm objs l path d hs v salt ->
  root_digest mm objs (length path) l = Some d.
Proof.
  intros H.
  induction H as [l r cd pre f post pds qds salt text Hl Hcd Hprops Hpre Hpost
                    Ha Hp Hsalt Hj
                 |l r cd pre f post pds qds l1 r1 rest d1 hs v salt Hl Hcd Hprops
                    Hpre Hpost Ha Hty Hv Hl1 _ IH].
  - cbn [length root_digest]. rewrite Hl. cbn. rewrite Hcd. cbn. rewrite Hprops.
    erewrite (proj2 (mapM_Some _ _ (pds ++ sha256 (utf8 text ++ salt) :: qds))).
    + cbn. rewrite concat_app. reflexivity.
    + apply Forall2_app; [eapply siblings_digests; eauto|].
      constructor; [|eapply siblings_digests; eauto].
      cbn. rewrite Ha, Hp. unfold leaf_digest, H_leaf. rewrite Hsalt. cbn.
      rewrite Hj. reflexivity.
  - cbn [length root_digest]. rewrite Hl. cbn. rewrite Hcd. cbn. rewrite Hprops.
    erewrite (proj2 (mapM_Some _ _ (pds ++ d1 :: qds))).
    + cbn. rewrite concat_app. reflexivity.
    + apply Forall2_app; [eapply siblings_digests; eauto|].
      constructor; [|eapply siblings_digests; eauto].
      cbn. unfold isPrimitive, isEnum. rewrite Ha, Hty, Hv. exact IH.
Qed.

Lemma path_beside cp name rest g :
  g <> name -> pathEquals (cp ++ name :: rest) (cp ++ [g]) = false.
Proof.
  intros Hne. destruct (pathEquals _ _) eqn:H; [|reflexivity].
  apply pathEquals_true, app_inv_head in H. congruence.
Qed.

Lemma path_here cp name : pathEquals (cp ++ [name]) (cp ++ [name]) = true.
Proof. apply pathEquals_true. reflexivity. Qed.

Lemma siblings_raw nested r name rest cp props ds :
  Forall2 (sibling r name) props ds ->
  Forall2 (fun p n =>
             raw_property nested r (cp ++ name :: rest) cp p = Some n)
          props (map Digest ds).
Proof.
  intros H. induction H as [|p d props ds (g & -> & Ha & Hp & Hne & Hd) _ IH];
    constructor; [|exact IH].
  cbn [raw_property]. rewrite Ha, Hp. unfold leaf_digest in Hd.
  destruct (r_salts r !! f_name g) as [salt|]; [|discriminate]. cbn in Hd |- *.
  rewrite Hd. cbn. rewrite path_beside by assumption. reflexivity.
Qed.

Lemma splitProof_from_digests ds : forall rest b0 c0 a0,
  splitProof_from (map Digest ds ++ rest) (mkSplit b0 c0 a0) =
  match c0 with
  | None => splitProof_from rest (mkSplit (b0 ++ ds) None a0)
  | Some _ => splitProof_from rest (mkSplit b0 c0 (a0 ++ ds))
  end.
Proof.
  induction ds as [|d ds IH]; intros rest b0 c0 a0; cbn.
  - rewrite !app_nil_r. destruct c0; reflexivity.
  - destruct c0; rewrite IH, <- app_assoc; reflexivity.
Qed.

Lemma splitProof_one pds e qds :
  (forall b, e <> Digest b) ->
  splitProof (map Digest pds ++ e :: map Digest qds) = mkSplit pds (Some e) qds.
Proof.
  intros He. unfold splitProof. rewrite splitProof_from_digests.
  cbn [splitProof_from].
  assert (splitProof_from (map Digest qds) (mkSplit pds (Some e) [])
          = mkSplit pds (Some e) qds) as Hq.
  { rewrite <- (app_nil_r (map Digest qds)), splitProof_from_digests.
    reflexivity. }
  destruct e as [b| |]; [destruct (He b eq_refl)|exact Hq|exact Hq].
Qed.

Lemma results_depth_one pds e qds :
  results_depth (map Digest pds ++ e :: map Digest qds) = node_depth e.
Proof.
  assert (forall ds, results_depth (map Digest ds) = O) as Hz.
  { induction ds as [|d ds IH]; [reflexivity|exact IH]. }
  induction pds as [|d pds IH].
  - unfold results_depth. cbn [app map fold_right].
    fold (results_depth (map Digest qds)). rewrite Hz. lia.
  - exact IH.
Qed.

(** Part two: the proof walk and the loop that flattens its results. *)
Lemma opens_raw_proof mm objs l rel d hs v salt :
  opens mm objs l rel d hs v salt ->
  forall cp,
  exists t,
    raw_proof mm objs (length rel) (cp ++ rel) cp l = Some t /\
    forall outer s,
      Merkle.flatten (S (results_depth t)) t outer s
      = Return (mkProof (map hex_entry hs ++ outer) v (Hex.encode salt)) s.
Proof.
  intros H.
  induction H as [l r cd pre f post pds qds salt text Hl Hcd Hprops Hpre Hpost
                    Ha Hp Hsalt Hj
                 |l r cd pre f post pds qds l1 r1 rest d1 hs v salt Hl Hcd Hprops
                    Hpre Hpost Ha Hty Hv Hl1 _ IH]; intros cp.
  - eexists. split.
    + cbn [length raw_proof]. rewrite Hl. cbn. rewrite Hcd. cbn. rewrite Hprops.
      apply mapM_Some. apply Forall2_app; [eapply siblings_raw; eauto|].
      constructor; [|eapply siblings_raw; eauto].
      cbn [raw_property]. rewrite Ha, Hp, Hsalt. cbn. unfold H_leaf.
      rewrite Hj. cbn. rewrite path_here. reflexivity.
    + intros outer s. cbn [Merkle.flatten].
      rewrite splitProof_one by discriminate. reflexivity.
  - destruct (IH (cp ++ [f_name f])) as (t1 & Ht1 & Hflat).
    rewrite <- app_assoc in Ht1. cbn [app] in Ht1.
    eexists. split.
    + cbn [length raw_proof]. rewrite Hl. cbn. rewrite Hcd. cbn. rewrite Hprops.
      apply mapM_Some. apply Forall2_app; [eapply siblings_raw; eauto|].
      constructor; [|eapply siblings_raw; eauto].
      cbn [raw_property]. unfold isPrimitive, isEnum. rewrite Ha, Hty, Hv, Ht1.
      reflexivity.
    + intros outer s. cbn [Merkle.flatten].
      rewrite splitProof_one by discriminate. cbn [child before after].
      rewrite results_depth_one. cbn [node_depth]. fold (results_depth t1).
      rewrite Hflat. rewrite map_app, <- app_assoc. reflexivity.
Qed.

Lemma verify_visitor_S mm depth cd :
  VerifyVisitor.visitClassDeclaration mm (S depth) cd =
  (clear_root ;;;
   VerifyVisitor.visitProperties
     (VerifyVisitor.visit mm (VerifyVisitor.visitClassDeclaration mm depth))
     (getProperties cd)).
Proof. reflexivity. Qed.

Lemma verify_skip_siblings mm accept r name rest props ds :
  Forall2 (sibling r name) props ds ->
  forall more o root cp st hs v salt e,
    VerifyVisitor.visitProperties (VerifyVisitor.visit mm accept) (props ++ more)
      (mkState o (mkParameters root (cp ++ name :: rest) cp st hs v salt) e)
    = VerifyVisitor.visitProperties (VerifyVisitor.visit mm accept) more
        (mkState o (mkParameters root (cp ++ name :: rest) cp st hs v salt) e).
Proof.
  intros H. induction H as [|p d props ds (g & -> & Ha & Hp & Hne & _) _ IH];
    intros more o root cp st hs v salt e; [reflexivity|].
  cbn [app]. rewrite verify_properties_cons.
  cbn [VerifyVisitor.visit getName]. unfold VerifyVisitor.visitField.
  rewrite Ha, Hp. steps. cbn [p_path p_currentPath].
  rewrite path_beside by assumption. steps. apply IH.
Qed.

Lemma opens_class mm objs l rel d hs v salt :
  opens mm objs l rel d hs v salt ->
  exists r cd, objs !! l = Some r /\ mm !! r_type r = Some cd.
Proof. intros H. destruct H; eauto. Qed.

(** Part three: the verify walk rebuilds the Merkle root. *)
Lemma opens_verify mm objs l rel d hs v salt :
  opens mm objs l rel d hs v salt ->
  forall fuel, (length rel <= fuel)%nat ->
    verify_walk_ok mm objs l rel d hs v salt fuel.
Proof.
  intros H.
  induction H as [l r cd pre f post pds qds salt text Hl Hcd Hprops Hpre Hpost
                    Ha Hp Hsalt Hj
                 |l r cd pre f post pds qds l1 r1 rest d1 hs v salt Hl Hcd Hprops
                    Hpre Hpost Ha Hty Hv Hl1 Hsub IH];
    intros fuel Hle r' cd' o root cp st outer e Hl' Hcd';
    rewrite Hl in Hl'; injection Hl' as <-;
    rewrite Hcd in Hcd'; injection Hcd' as <-;
    (destruct fuel as [|fuel]; [cbn in Hle; lia|]);
    rewrite verify_visitor_S; unfold getProperties; rewrite Hprops; step.
  - rewrite (verify_skip_siblings mm _ r (f_name f) [] pre pds Hpre).
    rewrite verify_properties_cons.
    cbn [VerifyVisitor.visit getName]. unfold VerifyVisitor.visitField.
    rewrite Ha, Hp. steps. cbn [p_path p_currentPath p_value p_salt].
    rewrite path_here, Hj. steps. cbn [app]. steps.
    unfold ret, digest, update, createHash. cbn [fst snd].
    rewrite !fold_update_concat. cbn [app]. rewrite <- app_assoc. reflexivity.
  - rewrite (verify_skip_siblings mm _ r (f_name f) rest pre pds Hpre).
    rewrite verify_properties_cons.
    cbn [VerifyVisitor.visit getName]. unfold VerifyVisitor.visitField.
    unfold isPrimitive, isEnum, getFullyQualifiedTypeName.
    rewrite Ha, Hty.
    destruct (opens_class _ _ _ _ _ _ _ _ Hsub) as (r1' & cd1 & Hl1' & Hcd1).
    rewrite Hl1 in Hl1'. injection Hl1' as <-.
    steps.
    assert (length rest <= fuel)%nat as Hle' by (cbn in Hle; lia).
    pose proof (IH fuel Hle' r1 cd1 o false (cp ++ [f_name f]) st
                  ((pds, qds) :: outer) e Hl1 Hcd1) as Hcall.
    rewrite <- !app_assoc in Hcall. cbn [app] in Hcall.
    rewrite <- app_assoc. cbn [app].
    erewrite bind_run_Return; [|exact Hcall].
    steps.
    unfold ret, digest, update, createHash. cbn [fst snd].
    rewrite !fold_update_concat. cbn [app]. rewrite <- app_assoc. reflexivity.
Qed.

Lemma parse_hex_entries hs :
  map (fun entry : list string * list string =>
         (map Hex.decode (fst entry), map Hex.decode (snd entry)))
      (map hex_entry hs) = hs.
Proof.
  induction hs as [|[a b] hs IH]; [reflexivity|].
  cbn. rewrite !map_hex_decode_encode, IH. reflexivity.
Qed.

(** Root, proof and verify on a record that [opens] describes. *)
Lemma opens_round_trip
    mm fuel l r ns type path d hs v salt s :
  opens mm (objects s) l path d hs v salt ->
  objects s !! l = Some r ->
  r_type r = (ns ++ "." ++ type)%string ->
  (length path <= fuel)%nat ->
  let proof := mkProof (map hex_entry hs) v (Hex.encode salt) in
  exists s1 s2 s3,
    Merkle.root mm fuel (VResource l) s = Return (Hex.encode d) s1 /\
    Merkle.proof mm fuel (VResource l) path s1 = Return proof s2 /\
    Merkle.verify mm fuel ns type path (Hex.encode d) proof s2 = Return true s3.
Proof.
  intros Hopens Hl Hty Hle proof.
  destruct (root_is_the_merkle_root mm (length path) fuel l d s
              (opens_root_digest _ _ _ _ _ _ _ _ Hopens) Hle) as (s1 & Hroot).
  assert (objects s1 = objects s) as Hs1.
  { pose proof (frame_root mm fuel (VResource l) s) as [Ho _].
    rewrite Hroot in Ho. exact Ho. }
  destruct (opens_class _ _ _ _ _ _ _ _ Hopens) as (r' & cd & Hl' & Hcd).
  rewrite Hl in Hl'. injection Hl' as <-.
  destruct (opens_raw_proof _ _ _ _ _ _ _ _ Hopens []) as (t & Ht & Hflat).
  cbn [app] in Ht.
  assert (exists s2, Merkle.proof mm fuel (VResource l) path s1 = Return proof s2)
    as (s2 & Hproof).
  { destruct s1 as [o1 p1 e1]. cbn [objects] in Hs1. subst o1.
    unfold Merkle.proof. steps. unfold bind at 1. cbn [set_parameters].
    erewrite bind_run_Return;
      [|apply (proof_walk_all mm (objects s) (length path) fuel Hle l t cd r);
        eassumption].
    cbn [node_depth]. fold (results_depth t). rewrite Hflat, app_nil_r.
    eexists. reflexivity. }
  exists s1, s2. 
  assert (exists s3,
             Merkle.verify mm fuel ns type path (Hex.encode d) proof s2
             = Return true s3) as (s3 & Hverify).
  { unfold Merkle.verify. rewrite Hty in Hcd. steps.
    unfold bind at 1. cbn [set_parameters proof proof_hashes proof_value proof_salt].
    rewrite parse_hex_entries, hex_decode_encode.
    pose proof (opens_verify _ _ _ _ _ _ _ _ Hopens fuel Hle r cd (objects s2)
                  false [] [] [] (entropy s2) Hl) as Hcall.
    rewrite Hty in Hcall. specialize (Hcall Hcd).
    rewrite app_nil_r in Hcall. cbn [app] in Hcall.
    erewrite bind_run_Return; [|exact Hcall].
    unfold ret. rewrite String.eqb_refl. eexists. reflexivity. }
  exists s3. auto.
Qed.

(** X5: the round trip holds on the records that [opens] describes: when, at
    every class on the path, the properties beside the path are primitive
    fields, the proof produced for the path verifies against the root. *)
Theorem round_trip_beside_primitive_fields
    mm fuel l r ns type path d hs v salt s :
  opens mm (objects s) l path d hs v salt ->
  objects s !! l = Some r ->
  r_type r = (ns ++ "." ++ type)%string ->
  (length path <= fuel)%nat ->
  let proof := mkProof (map hex_entry hs) v (Hex.encode salt) in
  exists s1 s2 s3,
    Merkle.root mm fuel (VResource l) s = Return (Hex.encode d) s1 /\
    Merkle.proof mm fuel (VResource l) path s1 = Return proof s2 /\
    Merkle.verify mm fuel ns type path (Hex.encode d) proof s2 = Return true s3.
Proof.
  intros Hopens Hl Hty Hle proof.
  apply (opens_round_trip mm fuel l r ns type path d hs v salt s); assumption.
Qed.

(** The records of [opens] exist: S4 with the path [inner, k]. *)
Example round_trip_on_s4 :
  Scenario.result
    (Scenario.disclose_and_verify Scenario.s4_model 2 (VResource 1)
       "org.test" "Outer" ["inner"; "k"]%string ["inner"; "k"]%string
       Scenario.s4_fresh)
  = Some (inl true).
Proof. vm_compute. reflexivity. Qed.

Example opens_s4 :
  exists d hs v salt,
    opens Scenario.s4_model (objects Scenario.s4_state) 1%positive
      ["inner"; "k"]%string d hs v salt.
Proof.
  do 4 eexists.
  eapply (opens_node _ _ 1%positive _ _ []
            (mkField "inner" (Class "org.test.Inner") false)
            [Scenario.str "a"] [] _ 2%positive
            (Scenario.obj "org.test.Inner" [("k"%string, VString "v")]
               [("k"%string, Scenario.twos32)])).
  - reflexivity.
  - reflexivity.
  - reflexivity.
  - constructor.
  - constructor; [|constructor].
    exists (mkField "a" (Primitive TString) false).
    split; [reflexivity|]. split; [reflexivity|]. split; [reflexivity|].
    split; [discriminate|]. vm_compute. reflexivity.
  - reflexivity.
  - reflexivity.
  - reflexivity.
  - reflexivity.
  - eapply (opens_leaf _ _ 2%positive _ _ []
              (mkField "k" (Primitive TString) false) [] [] []).
    + reflexivity.
    + reflexivity.
    + reflexivity.
    + constructor.
    + constructor.
    + reflexivity.
    + reflexivity.
    + reflexivity.
    + reflexivity.
Qed.

(** ** The loop that flattens the results always ends *)

Lemma splitProof_child_no_buffer p b : child (splitProof p) <> Some (Digest b).
Proof.
  destruct (splitProof_from_child p (mkSplit [] None [])) as [H|(e & H & _ & He)];
    fold (splitProof p) in H; rewrite H; [discriminate|].
  intros Heq. injection Heq as ->. apply (He b). reflexivity.
Qed.

Lemma flatten_ends :
  forall steps p hashes s s',
    (results_depth p < steps)%nat ->
    Merkle.flatten steps p hashes s <> Exhausted s'.
Proof.
  induction steps as [|steps IH]; intros p hashes s s' Hlt; [lia|].
  cbn [Merkle.flatten].
  destruct (splitProof_from_child p (mkSplit [] None [])) as [H|(e & H & Hin & _)];
    fold (splitProof p) in H; rewrite H; [discriminate|].
  pose proof (node_depth_elem _ _ Hin) as Hd.
  destruct e as [b|va sa|rs]; [discriminate| |].
  - destruct sa; discriminate.
  - apply IH. cbn [node_depth] in Hd. fold (results_depth rs) in Hd. lia.
Qed.

(** * Further properties of the engines *)

(** ** [lib/merkle/utils.js] *)

(** X1: [pathEquals] answers true exactly for equal paths: same length and
    the same name at every index. *)
Theorem pathEquals_decides_equality p1 p2 :
  pathEquals p1 p2 = true <-> p1 = p2.
Proof. apply pathEquals_true. Qed.

Lemma buffers_app p q : buffers (p ++ q) = buffers p ++ buffers q.
Proof.
  induction p as [|[b| |] p IH]; cbn; rewrite ?IH; reflexivity.
Qed.

Lemma splitProof_from_spec p :
  forall acc,
    splitProof_from p acc =
    match child acc with
    | None =>
        mkSplit (before acc ++ leading p) (last_other p)
                (after acc ++ trailing p)
    | Some e =>
        mkSplit (before acc)
                (match last_other p with Some e' => Some e' | None => Some e end)
                (after acc ++ buffers p)
    end.
Proof.
  induction p as [|e p IH]; intros [b0 c0 a0]; cbn [splitProof_from child before after].
  - destruct c0; cbn; rewrite !app_nil_r; reflexivity.
  - destruct e as [b|va sa|rs]; cbn [leading trailing buffers last_other is_buffer].
    + destruct c0 as [e0|]; rewrite IH; cbn [child before after].
      * rewrite <- app_assoc. destruct (last_other p); reflexivity.
      * rewrite <- app_assoc. destruct (last_other p); reflexivity.
    + rewrite IH. cbn [child before after].
      destruct c0; rewrite ?app_nil_r; destruct (last_other p); reflexivity.
    + rewrite IH. cbn [child before after].
      destruct c0; rewrite ?app_nil_r; destruct (last_other p); reflexivity.
Qed.

(** X2: [splitProof] puts into [before] the Buffers ahead of the first
    entry that is no Buffer and into [after] every Buffer behind it; [child]
    is the last entry that is no Buffer (null when there is none), so that an
    earlier such entry is dropped.  No Buffer is lost: [before] and then
    [after] are the Buffers of the input in their order. *)
Theorem splitProof_entries p :
  before (splitProof p) = leading p /\
  child (splitProof p) = last_other p /\
  after (splitProof p) = trailing p /\
  before (splitProof p) ++ after (splitProof p) = buffers p.
Proof.
  unfold splitProof. rewrite splitProof_from_spec. cbn.
  repeat split.
  induction p as [|[b| |] p IH]; cbn; rewrite ?IH; reflexivity.
Qed.

(** ** [lib/merkle.js] and the walks behind it *)

(** X3: verify returns a boolean only for a proof whose [hashes] has at
    least one entry for each name of the path; with fewer entries it returns
    neither true nor false. *)
Theorem verify_returns_only_with_enough_hashes
    mm fuel ns type path root proof s b s' :
  Merkle.verify mm fuel ns type path root proof s = Return b s' ->
  (length path <= length (proof_hashes proof))%nat.
Proof. apply verify_needs_hashes. Qed.

Lemma verify_returns_only_with_enough_hashes_witness :
  (length ["name"%string] <= length (proof_hashes Scenario.s1_proof))%nat.
Proof.
  apply (verify_returns_only_with_enough_hashes Scenario.s1_model 1
           "org.test" "Thing" ["name"%string] Scenario.s1_root_hex
           Scenario.s1_proof Scenario.s1_state true
           (final_state
              (Merkle.verify Scenario.s1_model 1 "org.test" "Thing"
                 ["name"%string] Scenario.s1_root_hex Scenario.s1_proof
                 Scenario.s1_state))).
  vm_compute. reflexivity.
Defined.

(** X4: for a record of primitive and nested-class fields with a salt for
    every primitive leaf, root returns the hexadecimal text of the node hash
    of the record: SHA256 over the digests of its properties in declaration
    order, the leaf hash for a primitive field and the node hash of the
    nested record for a field of a class type; the objects are left as they
    were. *)
Theorem root_returns_the_node_hash mm depth fuel l d s :
  root_digest mm (objects s) depth l = Some d ->
  (depth <= fuel)%nat ->
  exists s',
    Merkle.root mm fuel (VResource l) s = Return (Hex.encode d) s' /\
    objects s' = objects s.
Proof.
  intros Hd Hle.
  destruct (root_is_the_merkle_root mm depth fuel l d s Hd Hle) as (s' & Hs').
  exists s'. split; [exact Hs'|].
  pose proof (frame_root mm fuel (VResource l) s) as [Ho _].
  rewrite Hs' in Ho. exact Ho.
Qed.

Lemma root_returns_the_node_hash_witness :
  exists s',
    Merkle.root Scenario.s4_model 2 (VResource 1) Scenario.s4_state
    = Return (Hex.encode Scenario.s4_root) s' /\
    objects s' = objects Scenario.s4_state.
Proof.
  apply (root_returns_the_node_hash Scenario.s4_model 2 2 1%positive
           Scenario.s4_root Scenario.s4_state).
  - vm_compute. reflexivity.
  - lia.
Defined.

Lemma round_trip_beside_primitive_fields_witness :
  let hs := [(@nil Buffer, @nil Buffer)] ++ [([], [Scenario.s4_leaf_a])] in
  let proof :=
    mkProof (map hex_entry hs) (VString "v") (Hex.encode Scenario.twos32) in
  exists s1 s2 s3,
    Merkle.root Scenario.s4_model 2 (VResource 1) Scenario.s4_state
    = Return (Hex.encode Scenario.s4_root) s1 /\
    Merkle.proof Scenario.s4_model 2 (VResource 1) ["inner"; "k"]%string s1
    = Return proof s2 /\
    Merkle.verify Scenario.s4_model 2 "org.test" "Outer" ["inner"; "k"]%string
      (Hex.encode Scenario.s4_root) proof s2
    = Return true s3.
Proof.
  intros hs proof.
  apply (round_trip_beside_primitive_fields Scenario.s4_model 2 1%positive
           Scenario.s4_outer "org.test" "Outer" ["inner"; "k"]%string
           Scenario.s4_root hs (VString "v") Scenario.twos32 Scenario.s4_state).
  - apply (opens_node Scenario.s4_model (objects Scenario.s4_state) 1%positive
             Scenario.s4_outer
             (mkClassDeclaration "org.test.Outer"
                [Scenario.nested "inner" "org.test.Inner"; Scenario.str "a"])
             [] (mkField "inner" (Class "org.test.Inner") false)
             [Scenario.str "a"] [] [Scenario.s4_leaf_a] 2%positive
             Scenario.s4_inner ["k"%string]
             (sha256 (concat [] ++ Scenario.s4_leaf_k ++ concat []))
             [([], [])] (VString "v") Scenario.twos32).
    + reflexivity.
    + reflexivity.
    + reflexivity.
    + constructor.
    + constructor; [|constructor].
      exists (mkField "a" (Primitive TString) false).
      split; [reflexivity|]. split; [reflexivity|]. split; [reflexivity|].
      split; [discriminate|]. vm_compute. reflexivity.
    + reflexivity.
    + reflexivity.
    + reflexivity.
    + reflexivity.
    + apply (opens_leaf Scenario.s4_model (objects Scenario.s4_state) 2%positive
               Scenario.s4_inner
               (mkClassDeclaration "org.test.Inner" [Scenario.str "k"])
               [] (mkField "k" (Primitive TString) false) [] [] []
               Scenario.twos32 (quote "v")).
      * reflexivity.
      * reflexivity.
      * reflexivity.
      * constructor.
      * constructor.
      * reflexivity.
      * reflexivity.
      * reflexivity.
      * reflexivity.
  - reflexivity.
  - reflexivity.
  - cbn. lia.
Defined.

(** ** Constructs the engines refuse *)

(** X6: for a class that starts with a field of an enumeration type, salt,
    root and proof on a record of the class, and verify for the class, each
    raise the error "Not implemented for Enum fields", whatever the value,
    the path and the proof. *)
Theorem enum_field_not_implemented
    mm fuel l r cd f rest ns type path root proof s :
  objects s !! l = Some r ->
  mm !! r_type r = Some cd ->
  mm !! (ns ++ "." ++ type)%string = Some cd ->
  cd_properties cd = AField f :: rest ->
  isArray f = false ->
  isEnum f = true ->
  let e := Error "Not implemented for Enum fields" None in
  (exists s', Merkle.salt mm (S fuel) (VResource l) s = Throw e s') /\
  (exists s', Merkle.root mm (S fuel) (VResource l) s = Throw e s') /\
  (exists s', Merkle.proof mm (S fuel) (VResource l) path s = Throw e s') /\
  (exists s', Merkle.verify mm (S fuel) ns type path root proof s = Throw e s').
Proof.
  intros Hobj Hcd Hns Hprops Harr Henum e.
  assert (isPrimitive f = false) as Hprim.
  { unfold isEnum in Henum. unfold isPrimitive.
    destruct (f_type f); [discriminate|reflexivity|discriminate]. }
  split; [|split; [|split]].
  - unfold Merkle.salt, getProperties. run. eexists; reflexivity.
  - unfold Merkle.root, getProperties. run. eexists; reflexivity.
  - unfold Merkle.proof, getProperties. run. eexists; reflexivity.
  - unfold Merkle.verify, getProperties. run.
    unfold VerifyVisitor.visitField. run. eexists; reflexivity.
Qed.

Lemma enum_field_not_implemented_witness :
  let e := Error "Not implemented for Enum fields" None in
  (exists s', Merkle.salt Scenario.enum_model 1 (VResource 1) Scenario.enum_state
              = Throw e s') /\
  (exists s', Merkle.root Scenario.enum_model 1 (VResource 1) Scenario.enum_state
              = Throw e s') /\
  (exists s', Merkle.proof Scenario.enum_model 1 (VResource 1)
                ["colour"%string] Scenario.enum_state = Throw e s') /\
  (exists s', Merkle.verify Scenario.enum_model 1 "org.test" "Coloured"
                ["colour"%string] Scenario.s1_root_hex Scenario.s1_proof
                Scenario.enum_state = Throw e s').
Proof.
  apply (enum_field_not_implemented Scenario.enum_model 0 1%positive
           (Scenario.obj "org.test.Coloured" [("colour"%string, VString "RED")]
              [("colour"%string, Scenario.zeros32)])
           (mkClassDeclaration "org.test.Coloured"
              [AField (mkField "colour" (Enum "org.test.Colour") false)])
           (mkField "colour" (Enum "org.test.Colour") false) []);
    reflexivity.
Defined.

(** X7: for a class that starts with a relationship, salt raises "Not
    implemented for Relationships" when the record holds a relationship
    there, and verify raises it for the class; root and proof push the value
    and then the salt, and [visitRelationshipDeclaration] pops once, so they
    test the salt and raise "Expected a Relationship, but found " followed by
    the salt, even though the value is a relationship. *)
Theorem relationship_not_implemented
    mm fuel l r cd rd rest fqn id ns type path root proof s :
  objects s !! l = Some r ->
  mm !! r_type r = Some cd ->
  mm !! (ns ++ "." ++ type)%string = Some cd ->
  cd_properties cd = ARelationship rd :: rest ->
  r_values r !! rd_name rd = Some (VRelationship fqn id) ->
  let not_implemented := Error "Not implemented for Relationships" None in
  let expected :=
    Error "Expected a Relationship, but found "
          (Some (match r_salts r !! rd_name rd with
                 | Some b => VBuffer b
                 | None => VUndefined
                 end)) in
  (exists s', Merkle.salt mm (S fuel) (VResource l) s = Throw not_implemented s') /\
  (exists s', Merkle.root mm (S fuel) (VResource l) s = Throw expected s') /\
  (exists s', Merkle.proof mm (S fuel) (VResource l) path s = Throw expected s') /\
  (exists s', Merkle.verify mm (S fuel) ns type path root proof s
              = Throw not_implemented s').
Proof.
  intros Hobj Hcd Hns Hprops Hval e1 e2.
  split; [|split; [|split]].
  - unfold Merkle.salt, getProperties. run. eexists; reflexivity.
  - unfold Merkle.root, getProperties. run.
    destruct (r_salts r !! rd_name rd); eexists; reflexivity.
  - unfold Merkle.proof, getProperties. run.
    destruct (r_salts r !! rd_name rd); eexists; reflexivity.
  - unfold Merkle.verify, getProperties. run.
    unfold VerifyVisitor.visitField. run. eexists; reflexivity.
Qed.

Lemma relationship_not_implemented_witness :
  let not_implemented := Error "Not implemented for Relationships" None in
  let expected := Error "Expected a Relationship, but found " (Some VUndefined) in
  (exists s', Merkle.salt Scenario.owned_model 1 (VResource 1) Scenario.owned_state
              = Throw not_implemented s') /\
  (exists s', Merkle.root Scenario.owned_model 1 (VResource 1) Scenario.owned_state
              = Throw expected s') /\
  (exists s', Merkle.proof Scenario.owned_model 1 (VResource 1) ["owner"%string]
                Scenario.owned_state = Throw expected s') /\
  (exists s', Merkle.verify Scenario.owned_model 1 "org.test" "Owned"
                ["owner"%string] Scenario.s1_root_hex Scenario.s1_proof
                Scenario.owned_state = Throw not_implemented s').
Proof.
  apply (relationship_not_implemented Scenario.owned_model 0 1%positive
           Scenario.owned_object
           (mkClassDeclaration "org.test.Owned"
              [ARelationship
                 (mkRelationshipDeclaration "owner" "org.test.Person" false)])
           (mkRelationshipDeclaration "owner" "org.test.Person" false) []
           "org.test.Person" "alice");
    reflexivity.
Defined.

Lemma path_not_here cp rel g :
  rel <> [g] -> pathEquals (cp ++ rel) (cp ++ [g]) = false.
Proof.
  intros Hne. destruct (pathEquals _ _) eqn:H; [|reflexivity].
  apply pathEquals_true, app_inv_head in H. congruence.
Qed.

Lemma verify_passes_by mm accept rel props :
  Forall (passed rel) props ->
  forall more o root cp st hs v salt e,
    VerifyVisitor.visitProperties (VerifyVisitor.visit mm accept) (props ++ more)
      (mkState o (mkParameters root (cp ++ rel) cp st hs v salt) e)
    = VerifyVisitor.visitProperties (VerifyVisitor.visit mm accept) more
        (mkState o (mkParameters root (cp ++ rel) cp st hs v salt) e).
Proof.
  intros H. induction H as [|p props (g & -> & Ha & Hp & Hne) _ IH];
    intros more o root cp st hs v salt e; [reflexivity|].
  cbn [app]. rewrite verify_properties_cons.
  cbn [VerifyVisitor.visit getName]. unfold VerifyVisitor.visitField.
  rewrite Ha, Hp. steps. cbn [p_path p_currentPath].
  rewrite path_not_here by assumption. steps. apply IH.
Qed.

(** X8: verify raises "Not implemented for Array fields", and returns no
    boolean, when the class has an array field behind primitive fields that
    the path does not name; the proof and the root are not looked at. *)
Theorem verify_array_field_not_implemented
    mm fuel ns type cd pre f post path root proof s :
  mm !! (ns ++ "." ++ type)%string = Some cd ->
  cd_properties cd = pre ++ AField f :: post ->
  Forall (passed path) pre ->
  isArray f = true ->
  exists s',
    Merkle.verify mm (S fuel) ns type path root proof s
    = Throw (Error "Not implemented for Array fields" None) s'.
Proof.
  intros Hcd Hprops Hpre Harr. destruct s as [o p e].
  unfold Merkle.verify. steps. unfold bind at 1. cbn [set_parameters].
  rewrite verify_visitor_S. unfold getProperties. rewrite Hprops. step.
  cbn [objects entropy].
  pose proof (fun accept more o root st hs v salt e =>
                verify_passes_by mm accept path pre Hpre more o root [] st hs v
                  salt e) as Hpass.
  cbn [app] in Hpass.
  eexists. erewrite bind_run_Throw; [reflexivity|].
  rewrite Hpass, verify_properties_cons.
  cbn [VerifyVisitor.visit getName]. unfold VerifyVisitor.visitField.
  rewrite Harr. steps. reflexivity.
Qed.

Lemma verify_array_field_not_implemented_witness :
  exists s',
    Merkle.verify Scenario.s6_model 1 "org.test" "Tagged" ["tags"%string]
      Scenario.s1_root_hex Scenario.s1_proof Scenario.s6_state
    = Throw (Error "Not implemented for Array fields" None) s'.
Proof.
  apply (verify_array_field_not_implemented Scenario.s6_model 0 "org.test"
           "Tagged"
           (mkClassDeclaration "org.test.Tagged"
              [AField (mkField "tags" (Primitive TString) true)])
           [] (mkField "tags" (Primitive TString) true) []).
  - reflexivity.
  - reflexivity.
  - constructor.
  - reflexivity.
Defined.

(** X9: when the class starts with a field of a class type that the record
    leaves unset, salt, root and proof raise the TypeError of calling
    [getFullyQualifiedType] on undefined. *)
Theorem unset_nested_record mm fuel l r cd f rest path s :
  objects s !! l = Some r ->
  mm !! r_type r = Some cd ->
  cd_properties cd = AField f :: rest ->
  isArray f = false -> isPrimitive f = false -> isEnum f = false ->
  r_values r !! f_name f = None ->
  let e := TypeError (PropertyOfNullish "getFullyQualifiedType") in
  (exists s', Merkle.salt mm (S fuel) (VResource l) s = Throw e s') /\
  (exists s', Merkle.root mm (S fuel) (VResource l) s = Throw e s') /\
  (exists s', Merkle.proof mm (S fuel) (VResource l) path s = Throw e s').
Proof.
  intros Hobj Hcd Hprops Harr Hprim Henum Hval e.
  split; [|split].
  - unfold Merkle.salt, getProperties. run. eexists; reflexivity.
  - unfold Merkle.root, getProperties. run. eexists; reflexivity.
  - unfold Merkle.proof, getProperties. run. eexists; reflexivity.
Qed.

Lemma unset_nested_record_witness :
  let e := TypeError (PropertyOfNullish "getFullyQualifiedType") in
  (exists s', Merkle.salt Scenario.s4_model 1 (VResource 1) Scenario.s4_unset
              = Throw e s') /\
  (exists s', Merkle.root Scenario.s4_model 1 (VResource 1) Scenario.s4_unset
              = Throw e s') /\
  (exists s', Merkle.proof Scenario.s4_model 1 (VResource 1) ["a"%string]
                Scenario.s4_unset = Throw e s').
Proof.
  apply (unset_nested_record Scenario.s4_model 0 1%positive
           (Scenario.obj "org.test.Outer" [("a"%string, VString "x")]
              [("a"%string, Scenario.ones32)])
           (mkClassDeclaration "org.test.Outer"
              [Scenario.nested "inner" "org.test.Inner"; Scenario.str "a"])
           (mkField "inner" (Class "org.test.Inner") false) [Scenario.str "a"]);
    reflexivity.
Defined.

(** X10: salt, root and proof called on a relationship whose type is
    declared raise "Expected a Resource, but found " followed by the
    relationship: the class walk pops it and finds no Resource. *)
Theorem relationship_is_no_record mm fuel fqn id cd path s :
  mm !! fqn = Some cd ->
  let typed := VRelationship fqn id in
  let e := Error "Expected a Resource, but found " (Some typed) in
  (exists s', Merkle.salt mm (S fuel) typed s = Throw e s') /\
  (exists s', Merkle.root mm (S fuel) typed s = Throw e s') /\
  (exists s', Merkle.proof mm (S fuel) typed path s = Throw e s').
Proof.
  intros Hcd typed e. split; [|split].
  - unfold Merkle.salt. run. eexists; reflexivity.
  - unfold Merkle.root. run. eexists; reflexivity.
  - unfold Merkle.proof. run. eexists; reflexivity.
Qed.

Lemma relationship_is_no_record_witness :
  let typed := VRelationship "org.test.Thing" "alice" in
  let e := Error "Expected a Resource, but found " (Some typed) in
  (exists s', Merkle.salt Scenario.s1_model 1 typed Scenario.s1_state
              = Throw e s') /\
  (exists s', Merkle.root Scenario.s1_model 1 typed Scenario.s1_state
              = Throw e s') /\
  (exists s', Merkle.proof Scenario.s1_model 1 typed ["name"%string]
                Scenario.s1_state = Throw e s').
Proof.
  apply (relationship_is_no_record Scenario.s1_model 0 "org.test.Thing" "alice"
           (mkClassDeclaration "org.test.Thing" [Scenario.str "name"])).
  reflexivity.
Defined.

(** ** Verify, from the schema alone *)

Lemma last_entry {A} (l : list A) n :
  length l = S n -> exists front x, l = front ++ [x] /\ length front = n.
Proof.
  intros Hlen. destruct (exists_last (l := l)) as (front & x & ->).
  { intros ->. discriminate. }
  exists front, x. split; [reflexivity|].
  rewrite length_app in Hlen. cbn in Hlen. lia.
Qed.

Lemma rebuild_last leaf front entry :
  rebuild leaf (front ++ [entry])
  = sha256 (concat (fst entry) ++ rebuild leaf front ++ concat (snd entry)).
Proof. unfold rebuild. rewrite fold_left_app. reflexivity. Qed.

(** The verify walk along a path of the schema: it takes one entry of
    [hashes] per level and hashes them around the digest of the disclosed
    value with its salt. *)
Lemma leads_verify mm cd rel :
  leads mm cd rel ->
  forall fuel used, length used = length rel -> (length rel <= fuel)%nat ->
  forall o root cp st outer v salt e text,
    JSON_stringify v = JText text ->
    VerifyVisitor.visitClassDeclaration mm fuel cd
      (mkState o (mkParameters root (cp ++ rel) cp st (used ++ outer) v salt) e)
    = Return (Some (rebuild (sha256 (utf8 text ++ salt)) used))
        (mkState o (mkParameters false (cp ++ rel) cp st outer v salt) e).
Proof.
  intros H.
  induction H as [cd pre f post Hprops Hpre Ha Hp
                 |cd pre f post cd1 rest Hprops Hpre Ha Hp He Hcd1 Hsub IH];
    intros fuel used Hused Hle o root cp st outer v salt e text Hj;
    (destruct fuel as [|fuel]; [cbn in Hle; lia|]);
    rewrite verify_visitor_S; unfold getProperties; rewrite Hprops; step;
    rewrite verify_passes_by by assumption;
    rewrite verify_properties_cons;
    cbn [VerifyVisitor.visit getName]; unfold VerifyVisitor.visitField;
    rewrite Ha, Hp.
  - destruct used as [|entry [|? ?]]; try discriminate.
    steps. cbn [p_path p_currentPath p_value p_salt].
    rewrite path_here, Hj. steps. cbn [app]. steps.
    unfold ret, digest, update, createHash, rebuild. cbn [fst snd fold_left].
    rewrite !fold_update_concat. cbn [app]. rewrite <- app_assoc. reflexivity.
  - rewrite He.
    destruct (last_entry used (length rest) Hused) as (front & entry & -> & Hfront).
    steps.
    assert (length rest <= fuel)%nat as Hle' by (cbn in Hle; lia).
    pose proof (IH fuel front Hfront Hle' o false (cp ++ [f_name f]) st
                  (entry :: outer) v salt e text Hj) as Hcall.
    rewrite <- !app_assoc in Hcall. cbn [app] in Hcall.
    rewrite <- !app_assoc. cbn [app].
    erewrite bind_run_Return; [|exact Hcall].
    steps.
    unfold ret, digest, update, createHash. cbn [fst snd].
    rewrite !fold_update_concat, rebuild_last. cbn [app].
    rewrite <- app_assoc. reflexivity.
Qed.

Lemma verify_along mm fuel ns type cd path root proof text s :
  mm !! (ns ++ "." ++ type)%string = Some cd ->
  leads mm cd path ->
  (length path <= fuel)%nat ->
  (length path <= length (proof_hashes proof))%nat ->
  JSON_stringify (proof_value proof) = JText text ->
  Merkle.verify mm fuel ns type path root proof s
  = Return
      (String.eqb
         (Hex.encode
            (rebuild (sha256 (utf8 text ++ Hex.decode (proof_salt proof)))
               (take (length path) (parsed_hashes proof))))
         root)
      (mkState (objects s)
         (mkParameters false path [] []
            (drop (length path) (parsed_hashes proof))
            (proof_value proof) (Hex.decode (proof_salt proof)))
         (entropy s)).
Proof.
  intros Hcd Hleads Hfuel Hhashes Hj. destruct s as [o p e].
  unfold Merkle.verify. steps. unfold bind at 1. cbn [set_parameters].
  cbn [objects entropy]. fold (parsed_hashes proof).
  assert (length (take (length path) (parsed_hashes proof)) = length path)
    as Hused.
  { rewrite length_take. unfold parsed_hashes. rewrite length_map. lia. }
  pose proof (leads_verify mm cd path Hleads fuel _ Hused Hfuel o false [] []
                (drop (length path) (parsed_hashes proof)) (proof_value proof)
                (Hex.decode (proof_salt proof)) e text Hj) as Hcall.
  rewrite take_drop in Hcall. cbn [app] in Hcall.
  erewrite bind_run_Return; [|exact Hcall].
  reflexivity.
Qed.

(** X11: when every property of the class is a primitive field that the
    path does not name, verify finds no leaf and returns no boolean: it
    raises the TypeError of calling [toString] on the undefined result. *)
Theorem verify_without_a_leaf mm fuel ns type cd path root proof s :
  mm !! (ns ++ "." ++ type)%string = Some cd ->
  Forall (passed path) (cd_properties cd) ->
  exists s',
    Merkle.verify mm (S fuel) ns type path root proof s
    = Throw (TypeError (PropertyOfNullish "toString")) s'.
Proof.
  intros Hcd Hall. destruct s as [o p e].
  unfold Merkle.verify. steps. unfold bind at 1. cbn [set_parameters].
  cbn [objects entropy].
  pose proof (fun accept more o root st hs v salt e =>
                verify_passes_by mm accept path _ Hall more o root [] st hs v
                  salt e) as Hpass.
  cbn [app] in Hpass.
  eexists. erewrite bind_run_Return; cycle 1.
  { rewrite verify_visitor_S. unfold getProperties. step.
    rewrite <- (app_nil_r (cd_properties cd)), Hpass. reflexivity. }
  reflexivity.
Qed.

Lemma verify_without_a_leaf_witness :
  exists s',
    Merkle.verify Scenario.s1_model 1 "org.test" "Thing" ["nickname"%string]
      Scenario.s1_root_hex Scenario.s1_proof Scenario.s1_state
    = Throw (TypeError (PropertyOfNullish "toString")) s'.
Proof.
  apply (verify_without_a_leaf Scenario.s1_model 0 "org.test" "Thing"
           (mkClassDeclaration "org.test.Thing" [Scenario.str "name"])).
  - reflexivity.
  - constructor; [|constructor].
    exists (mkField "name" (Primitive TString) false).
    split; [reflexivity|]. split; [reflexivity|]. split; [reflexivity|].
    discriminate.
Defined.

(** X12: for a path that the schema leads along to a primitive leaf, with
    fuel for its depth and at least one entry of [hashes] per level, verify
    returns; the boolean says whether [root] is the hexadecimal form of the
    digest built from the disclosed value and salt and the first entries of
    [hashes], one per level; the entries beyond the depth are left. *)
Theorem verify_rebuilds_from_the_proof
    mm fuel ns type cd path root proof text s :
  mm !! (ns ++ "." ++ type)%string = Some cd ->
  leads mm cd path ->
  (length path <= fuel)%nat ->
  (length path <= length (proof_hashes proof))%nat ->
  JSON_stringify (proof_value proof) = JText text ->
  exists s',
    Merkle.verify mm fuel ns type path root proof s
    = Return
        (String.eqb
           (Hex.encode
              (rebuild (sha256 (utf8 text ++ Hex.decode (proof_salt proof)))
                 (take (length path) (parsed_hashes proof))))
           root) s' /\
    p_hashes (parameters s') = drop (length path) (parsed_hashes proof).
Proof.
  intros Hcd Hleads Hfuel Hhashes Hj.
  eexists. split.
  - apply (verify_along mm fuel ns type cd path root proof text s); assumption.
  - reflexivity.
Qed.

Lemma verify_rebuilds_from_the_proof_witness :
  exists s',
    Merkle.verify Scenario.s1_model 1 "org.test" "Thing" ["name"%string]
      Scenario.s1_root_hex Scenario.s1_proof Scenario.s1_state
    = Return
        (String.eqb
           (Hex.encode
              (rebuild
                 (sha256 (utf8 (quote "alice")
                          ++ Hex.decode (proof_salt Scenario.s1_proof)))
                 (take 1 (parsed_hashes Scenario.s1_proof))))
           Scenario.s1_root_hex) s' /\
    p_hashes (parameters s') = drop 1 (parsed_hashes Scenario.s1_proof).
Proof.
  apply (verify_rebuilds_from_the_proof Scenario.s1_model 1 "org.test" "Thing"
           (mkClassDeclaration "org.test.Thing" [Scenario.str "name"])
           ["name"%string] Scenario.s1_root_hex Scenario.s1_proof
           (quote "alice") Scenario.s1_state).
  - reflexivity.
  - apply (leads_leaf Scenario.s1_model
             (mkClassDeclaration "org.test.Thing" [Scenario.str "name"])
             [] (mkField "name" (Primitive TString) false) []).
    + reflexivity.
    + constructor.
    + reflexivity.
    + reflexivity.
  - cbn. lia.
  - cbn. lia.
  - reflexivity.
Defined.

(** X13: verify sees of the path only its depth: for two paths of the same
    length that the schema leads along to primitive leaves, verify returns
    the same boolean on the same root and proof. *)
Theorem verify_sees_only_the_depth
    mm fuel ns type cd pathA pathB root proof text s :
  mm !! (ns ++ "." ++ type)%string = Some cd ->
  leads mm cd pathA ->
  leads mm cd pathB ->
  length pathA = length pathB ->
  (length pathA <= fuel)%nat ->
  (length pathA <= length (proof_hashes proof))%nat ->
  JSON_stringify (proof_value proof) = JText text ->
  exists b sA sB,
    Merkle.verify mm fuel ns type pathA root proof s = Return b sA /\
    Merkle.verify mm fuel ns type pathB root proof s = Return b sB.
Proof.
  intros Hcd HA HB Hlen Hfuel Hhashes Hj.
  do 3 eexists. split.
  - apply (verify_along mm fuel ns type cd pathA root proof text s); assumption.
  - rewrite (verify_along mm fuel ns type cd pathB root proof text s)
      by (try assumption; lia).
    rewrite <- Hlen. reflexivity.
Qed.

Lemma verify_sees_only_the_depth_witness :
  exists b sA sB,
    Merkle.verify Scenario.s2_model 1 "org.test" "Pair" ["a"%string]
      Scenario.s1_root_hex Scenario.s1_proof Scenario.s2_state = Return b sA /\
    Merkle.verify Scenario.s2_model 1 "org.test" "Pair" ["b"%string]
      Scenario.s1_root_hex Scenario.s1_proof Scenario.s2_state = Return b sB.
Proof.
  apply (verify_sees_only_the_depth Scenario.s2_model 1 "org.test" "Pair"
           (mkClassDeclaration "org.test.Pair"
              [Scenario.str "a"; Scenario.str "b"])
           ["a"%string] ["b"%string] Scenario.s1_root_hex Scenario.s1_proof
           (quote "alice") Scenario.s2_state).
  - reflexivity.
  - apply (leads_leaf Scenario.s2_model
             (mkClassDeclaration "org.test.Pair"
                [Scenario.str "a"; Scenario.str "b"])
             [] (mkField "a" (Primitive TString) false) [Scenario.str "b"]).
    + reflexivity.
    + constructor.
    + reflexivity.
    + reflexivity.
  - apply (leads_leaf Scenario.s2_model
             (mkClassDeclaration "org.test.Pair"
                [Scenario.str "a"; Scenario.str "b"])
             [Scenario.str "a"] (mkField "b" (Primitive TString) false) []).
    + reflexivity.
    + constructor; [|constructor].
      exists (mkField "a" (Primitive TString) false).
      split; [reflexivity|]. split; [reflexivity|]. split; [reflexivity|].
      discriminate.
    + reflexivity.
    + reflexivity.
  - reflexivity.
  - cbn. lia.
  - cbn. lia.
  - reflexivity.
Defined.

(** ** Verify does not look at the records *)

Lemma blind_ret {A} (a : A) : blind (ret a).
Proof. intros s t H. split; [reflexivity|exact H]. Qed.

Lemma blind_throw {A} e : blind (@throw A e).
Proof. intros s t H. split; [reflexivity|exact H]. Qed.

Lemma blind_exhausted {A} : blind (@exhausted A).
Proof. intros s t H. split; [reflexivity|exact H]. Qed.

Lemma blind_bind {A B} (m : M A) (k : A -> M B) :
  blind m -> (forall a, blind (k a)) -> blind (bind m k).
Proof.
  intros Hm Hk s t H. unfold bind. destruct (Hm s t H) as [Hr Hp].
  destruct (m s) as [a s1|e s1|s1], (m t) as [b t1|e' t1|t1];
    cbn in Hr, Hp; try discriminate.
  - injection Hr as ->. apply Hk. exact Hp.
  - injection Hr as ->. split; [reflexivity|exact Hp].
  - split; [reflexivity|exact Hp].
Qed.

Lemma blind_get_parameters : blind get_parameters.
Proof. intros s t H. cbn. rewrite H. split; reflexivity. Qed.

Lemma blind_set_parameters p : blind (set_parameters p).
Proof. intros s t H. split; reflexivity. Qed.

Create HintDb blind.

#[local] Hint Resolve blind_get_parameters blind_set_parameters : blind.

Ltac blind_step :=
  first
    [ apply blind_bind; [ | intros ? ]
    | apply blind_ret
    | apply blind_throw
    | apply blind_exhausted
    | solve [auto with blind] ].

Ltac blindly :=
  repeat (blind_step ||
          match goal with
          | |- blind (match ?x with _ => _ end) => destruct x
          | |- blind (if ?x then _ else _) => destruct x
          end).

Lemma blind_verify_properties accept properties :
  (forall property, blind (accept property)) ->
  blind (VerifyVisitor.visitProperties accept properties).
Proof.
  intros H. induction properties as [|property rest IH]; simpl.
  - blindly.
  - unfold currentPath_push, currentPath_pop, VerifyVisitor.hashes_shift.
    blindly.
Qed.

Lemma blind_verify_visitor mm fuel :
  forall cd, blind (VerifyVisitor.visitClassDeclaration mm fuel cd).
Proof.
  induction fuel as [|depth IH]; intros cd; simpl; [blindly|].
  unfold clear_root. blindly.
  apply blind_verify_properties. intros property.
  unfold VerifyVisitor.visit, VerifyVisitor.visitRelationshipDeclaration,
    VerifyVisitor.visitField, getType, update_json.
  blindly.
Qed.

(** X14: what verify returns or raises does not depend on the typed
    objects, on the parameters or on the entropy it is started with: it is
    the same for any two states. *)
Theorem verify_does_not_read_the_records
    mm fuel ns type path root proof s t :
  Scenario.result (Merkle.verify mm fuel ns type path root proof s)
  = Scenario.result (Merkle.verify mm fuel ns type path root proof t).
Proof.
  unfold Merkle.verify, getType.
  destruct (mm !! _) as [cd|]; [|reflexivity].
  rewrite !bind_ret. unfold bind at 1 3. cbn [set_parameters].
  unfold bind.
  match goal with
  | |- context [VerifyVisitor.visitClassDeclaration mm fuel cd ?s1] =>
      match goal with
      | |- _ = Scenario.result
                 (match VerifyVisitor.visitClassDeclaration mm fuel cd ?t1
                  with _ => _ end) =>
          destruct (blind_verify_visitor mm fuel cd s1 t1 eq_refl) as [Hr _]
      end
  end.
  destruct (VerifyVisitor.visitClassDeclaration _ _ _ _) as [a s1|e s1|s1],
    (VerifyVisitor.visitClassDeclaration _ _ _ _) as [b t1|e' t1|t1];
    cbn in Hr; try discriminate; try (injection Hr as ->).
  - destruct b; reflexivity.
  - reflexivity.
  - reflexivity.
Qed.

(** ** The salt engine returns *)

Lemma property_conforms_shape nested nested' r r' p :
  (forall l, nested' l = nested l) -> r_values r' = r_values r ->
  property_conforms nested' r' p = property_conforms nested r p.
Proof.
  intros Hn Hv. destruct p as [f|rd]; [|reflexivity].
  cbn. rewrite Hv. destruct (r_values r !! f_name f) as [[]|]; try reflexivity.
  rewrite Hn. reflexivity.
Qed.

Lemma property_draws_shape nested nested' r r' p :
  (forall l, nested' l = nested l) -> r_values r' = r_values r ->
  property_draws nested' r' p = property_draws nested r p.
Proof.
  intros Hn Hv. destruct p as [f|rd]; [|reflexivity].
  cbn. rewrite Hv. destruct (r_values r !! f_name f) as [[]|]; try reflexivity.
  rewrite Hn. reflexivity.
Qed.

Lemma same_shape_at o o' l r :
  same_shape o o' -> o !! l = Some r ->
  exists r', o' !! l = Some r' /\ r_type r' = r_type r /\
             r_values r' = r_values r.
Proof.
  intros Hsh Hl.
  destruct (same_shape_lookup o' o l r (same_shape_sym _ _ Hsh) Hl)
    as (r' & Hl' & Ht & Hv).
  eauto.
Qed.

Lemma conforms_shape mm o o' :
  same_shape o o' -> forall d l, conforms mm o' d l = conforms mm o d l.
Proof.
  intros Hsh d. induction d as [|d IH]; intros l; [reflexivity|].
  cbn [conforms]. pose proof (Hsh l) as Hl.
  destruct (o !! l) as [r|], (o' !! l) as [r'|]; try discriminate;
    [|reflexivity].
  cbn in Hl. injection Hl as Ht Hv. rewrite Ht.
  destruct (mm !! r_type r) as [cd|]; [|reflexivity].
  induction (cd_properties cd) as [|p ps IHps]; [reflexivity|].
  cbn [forallb]. rewrite IHps.
  rewrite (property_conforms_shape (conforms mm o d) (conforms mm o' d) r r')
    by auto.
  reflexivity.
Qed.

Lemma draws_shape mm o o' :
  same_shape o o' -> forall d l, draws mm o' d l = draws mm o d l.
Proof.
  intros Hsh d. induction d as [|d IH]; intros l; [reflexivity|].
  cbn [draws]. pose proof (Hsh l) as Hl.
  destruct (o !! l) as [r|], (o' !! l) as [r'|]; try discriminate;
    [|reflexivity].
  cbn in Hl. injection Hl as Ht Hv. rewrite Ht.
  destruct (mm !! r_type r) as [cd|]; [|reflexivity].
  induction (cd_properties cd) as [|p ps IHps]; [reflexivity|].
  cbn [map sum_list]. rewrite IHps.
  rewrite (property_draws_shape (draws mm o d) (draws mm o' d) r r') by auto.
  reflexivity.
Qed.

Lemma bind_randomBytes {B} n (k : Buffer -> M B) o p e :
  (n <= length e)%nat ->
  bind (randomBytes n) k (mkState o p e)
  = k (take n e) (mkState o p (drop n e)).
Proof.
  intros H. unfold bind, randomBytes. cbn [entropy objects parameters].
  apply Nat.leb_le in H. rewrite H. reflexivity.
Qed.

Lemma setSalt_run l name salt r o p e :
  o !! l = Some r ->
  setSalt l name salt (mkState o p e)
  = Return tt
      (mkState
         (<[l := mkResource (r_type r) (r_values r) (<[name := salt]> (r_salts r))]> o)
         p e).
Proof.
  intros H. unfold setSalt, bind, the_object. cbn [objects]. rewrite H.
  reflexivity.
Qed.

Lemma same_shape_setSalt o l r name salt :
  o !! l = Some r ->
  same_shape o
    (<[l := mkResource (r_type r) (r_values r) (<[name := salt]> (r_salts r))]> o).
Proof.
  intros Hl l0. destruct (decide (l = l0)) as [<-|Hne].
  - rewrite lookup_insert_eq, Hl. reflexivity.
  - rewrite lookup_insert_ne by done. reflexivity.
Qed.

Lemma salt_visitor_S mm depth cd :
  SaltVisitor.visitClassDeclaration mm (S depth) cd =
  (typed <- stack_pop ;;
   match typed with
   | VResource l => for_each (getProperties cd) (salt_turn mm depth l)
   | _ => throw (Error "Expected a Resource, but found " (Some typed))
   end).
Proof. reflexivity. Qed.

Lemma salt_turn_returns mm d fuel l r p o root pa cp rest hs v sa e :
  salt_walk_returns mm d fuel ->
  o !! l = Some r ->
  property_conforms (conforms mm o d) r p = true ->
  (32 * property_draws (draws mm o d) r p <= length e)%nat ->
  exists o',
    salt_turn mm fuel l p
      (mkState o (mkParameters root pa cp rest hs v sa) e)
    = Return tt
        (mkState o' (mkParameters root pa cp rest hs v sa)
           (drop (32 * property_draws (draws mm o d) r p) e)) /\
    same_shape o o'.
Proof.
  intros IH Hl Hp He. destruct p as [f|rd]; [|discriminate].
  cbn [property_conforms property_draws] in *.
  destruct (isArray f) eqn:Ha; [discriminate|]. cbn [negb andb] in Hp.
  unfold salt_turn. cbn [getName SaltVisitor.visit].
  unfold SaltVisitor.visitField. steps. rewrite Ha.
  destruct (isPrimitive f) eqn:Hprim.
  - rewrite bind_assoc, bind_randomBytes by lia. steps.
    rewrite (setSalt_run _ _ _ r) by assumption.
    eexists. split; [reflexivity|]. apply same_shape_setSalt. assumption.
  - destruct (isEnum f) eqn:Hen; [discriminate|]. cbn [negb andb] in Hp.
    destruct (r_values r !! f_name f) as [[| | | | | | |l1|]|] eqn:Hv;
      try discriminate.
    cbn [default from_option id].
    destruct (conforms_true _ _ _ _ Hp) as (d' & r1 & cd1 & _ & Hl1 & Hcd1 & _).
    steps.
    destruct (IH l1 r1 cd1 o root pa cp rest hs v sa e Hl1 Hcd1 Hp He)
      as (o' & Hcall & Hsh).
    rewrite ?bind_assoc. erewrite bind_run_Return; [|exact Hcall].
    steps. eexists. split; [reflexivity|]. exact Hsh.
Qed.

Lemma forallb_pointwise {A} (P Q : A -> bool) xs :
  (forall x, P x = Q x) -> forallb P xs = forallb Q xs.
Proof.
  intros H. induction xs as [|x xs IH]; [reflexivity|].
  cbn. rewrite H, IH. reflexivity.
Qed.

Lemma sum_list_cons x xs : sum_list (x :: xs) = (x + sum_list xs)%nat.
Proof. reflexivity. Qed.

Lemma salt_loop_returns mm d fuel l :
  salt_walk_returns mm d fuel ->
  forall props r o root pa cp rest hs v sa e,
    o !! l = Some r ->
    forallb (property_conforms (conforms mm o d) r) props = true ->
    (32 * sum_list (map (property_draws (draws mm o d) r) props) <= length e)%nat ->
    exists o',
      for_each props (salt_turn mm fuel l)
        (mkState o (mkParameters root pa cp rest hs v sa) e)
      = Return tt
          (mkState o' (mkParameters root pa cp rest hs v sa)
             (drop (32 * sum_list (map (property_draws (draws mm o d) r) props))
                   e)) /\
      same_shape o o'.
Proof.
  intros IH props.
  induction props as [|p ps IHps]; intros r o root pa cp rest hs v sa e Hl Hall He.
  - exists o. split; [reflexivity|apply same_shape_refl].
  - cbn [forallb] in Hall. apply andb_prop in Hall as [Hp Hps].
    cbn [map] in *. rewrite sum_list_cons in *.
    destruct (salt_turn_returns mm d fuel l r p o root pa cp rest hs v sa e IH
                Hl Hp ltac:(lia)) as (o1 & Hturn & Hsh1).
    destruct (same_shape_at o o1 l r Hsh1 Hl) as (r1 & Hl1 & _ & Hv1).
    assert (forall q, property_conforms (conforms mm o1 d) r1 q
                      = property_conforms (conforms mm o d) r q) as Hc.
    { intros q. apply property_conforms_shape; [|exact Hv1].
      intros l0. apply conforms_shape. exact Hsh1. }
    assert (forall q, property_draws (draws mm o1 d) r1 q
                      = property_draws (draws mm o d) r q) as Hd.
    { intros q. apply property_draws_shape; [|exact Hv1].
      intros l0. apply draws_shape. exact Hsh1. }
    destruct (IHps r1 o1 root pa cp rest hs v sa
                (drop (32 * property_draws (draws mm o d) r p) e) Hl1)
      as (o' & Hrest & Hsh2).
    + rewrite <- Hps. apply forallb_pointwise. exact Hc.
    + rewrite (map_ext _ _ Hd), length_drop. lia.
    + exists o'. split; [|eapply same_shape_trans; eassumption].
      cbn [for_each]. erewrite bind_run_Return; [|exact Hturn].
      rewrite Hrest, (map_ext _ _ Hd), drop_drop.
      rewrite <- Nat.mul_add_distr_l. reflexivity.
Qed.

Lemma salt_walk_all mm :
  forall d fuel, (d <= fuel)%nat -> salt_walk_returns mm d fuel.
Proof.
  induction d as [|d IH]; intros fuel Hle l r cd o root pa cp rest hs v sa e
    Hl Hcd Hc He; [discriminate|].
  destruct fuel as [|fuel]; [lia|].
  rewrite salt_visitor_S. step.
  cbn [conforms draws] in *. rewrite Hl, Hcd in *.
  apply (salt_loop_returns mm d fuel l (IH fuel ltac:(lia))); assumption.
Qed.

Lemma salt_returns mm depth fuel l s :
  conforms mm (objects s) depth l = true ->
  (depth <= fuel)%nat ->
  (32 * draws mm (objects s) depth l <= length (entropy s))%nat ->
  exists o',
    Merkle.salt mm fuel (VResource l) s
    = Return tt
        (mkState o' (with_stack [] no_parameters)
           (drop (32 * draws mm (objects s) depth l) (entropy s))) /\
    same_shape (objects s) o'.
Proof.
  intros Hc Hle He. destruct s as [o p e]. cbn [objects entropy] in *.
  destruct (conforms_true _ _ _ _ Hc) as (d & r & cd & -> & Hl & Hcd & _).
  unfold Merkle.salt. steps. unfold bind at 1. cbn [set_parameters].
  cbn [objects entropy].
  apply (salt_walk_all mm (S d) fuel Hle l r cd o); assumption.
Qed.

(** X15: on a record of primitive fields with a canonical text and of
    nested records of the same kind, with fuel for its depth and 32 bytes of
    entropy for every primitive leaf the walk comes to, salt returns; it
    has called [randomBytes(32)] once for each of these leaves and not more,
    and no type and no value has changed. *)
Theorem salt_returns_and_draws_per_leaf mm depth fuel l s :
  conforms mm (objects s) depth l = true ->
  (depth <= fuel)%nat ->
  (32 * draws mm (objects s) depth l <= length (entropy s))%nat ->
  exists s',
    Merkle.salt mm fuel (VResource l) s = Return tt s' /\
    entropy s' = drop (32 * draws mm (objects s) depth l) (entropy s) /\
    same_shape (objects s) (objects s').
Proof.
  intros Hc Hle He.
  destruct (salt_returns mm depth fuel l s Hc Hle He) as (o' & Hrun & Hsh).
  eexists. split; [exact Hrun|]. split; [reflexivity|exact Hsh].
Qed.

Lemma salt_returns_and_draws_per_leaf_witness :
  exists s',
    Merkle.salt Scenario.s4_model 2 (VResource 1) Scenario.s4_fresh
    = Return tt s' /\
    entropy s'
    = drop (32 * draws Scenario.s4_model (objects Scenario.s4_fresh) 2 1)
           (entropy Scenario.s4_fresh) /\
    same_shape (objects Scenario.s4_fresh) (objects s').
Proof.
  apply (salt_returns_and_draws_per_leaf Scenario.s4_model 2 2 1%positive
           Scenario.s4_fresh).
  - vm_compute. reflexivity.
  - lia.
  - vm_compute. lia.
Defined.

Lemma salt_leaves_salted mm fuel l s s' :
  Merkle.salt mm fuel (VResource l) s = Return tt s' ->
  leaves_salted mm (objects s) (objects s') l.
Proof.
  intros Hrun. unfold Merkle.salt in Hrun.
  apply bind_Return in Hrun as (fqn & s1 & Hfq & Hrun).
  apply getFullyQualifiedType_Return in Hfq as [-> Hfq].
  apply bind_Return in Hrun as (cd & s2 & Hty & Hrun).
  apply getType_Return in Hty as [Hty ->].
  apply bind_Return in Hrun as (? & s3 & Hset & Hrun).
  cbn in Hset. injection Hset as _ <-.
  apply salt_visit_all in Hrun as (l0 & rest & Hst & _ & Hsalted).
  - cbn. intros l0 rest r Hst Hl0. injection Hst as <- _.
    destruct Hfq as [(l2 & r2 & Hv2 & Hl2 & ->)|(id & Hv2)]; [|discriminate].
    injection Hv2 as <-. congruence.
  - cbn in Hst. injection Hst as <- _. exact Hsalted.
Qed.

(** A record that conforms and whose leaves are salted has a node hash. *)
Lemma salted_root_digest mm o o' :
  same_shape o o' ->
  forall depth l,
    conforms mm o depth l = true ->
    leaves_salted mm o o' l ->
    is_Some (root_digest mm o' depth l).
Proof.
  intros Hsh depth. induction depth as [|d IH]; intros l Hc Hs; [discriminate|].
  destruct (conforms_true _ _ _ _ Hc) as (d' & r & cd & Hd & Hl & Hcd & Hall).
  injection Hd as <-.
  destruct (same_shape_at o o' l r Hsh Hl) as (r' & Hl' & Ht & Hv).
  cbn [root_digest]. rewrite Hl'. cbn. rewrite Ht, Hcd. cbn.
  assert (is_Some (mapM (property_digest (root_digest mm o' d) r')
                        (cd_properties cd))) as [ds Hds].
  { apply mapM_is_Some_2, Forall_forall. intros p Hin.
    pose proof (forallb_elem _ _ _ Hall Hin) as Hp.
    destruct p as [f|rd]; [|discriminate].
    cbn [property_conforms] in Hp. cbn [compose property_digest].
    destruct (isArray f) eqn:Ha; [discriminate|]. cbn [negb andb] in Hp.
    destruct (isPrimitive f) eqn:Hprim.
    - destruct (Hs l (f_name f)) as (b & Hb & _).
      { constructor. }
      { exists r, cd, f. auto 10. }
      unfold salt_of in Hb. rewrite Hl' in Hb. cbn in Hb.
      unfold leaf_digest. rewrite Hb. cbn. unfold H_leaf. rewrite Hv.
      destruct (JSON_stringify _); try discriminate. eauto.
    - destruct (isEnum f) eqn:He; [discriminate|]. cbn [negb andb] in Hp.
      rewrite Hv.
      destruct (r_values r !! f_name f) as [[| | | | | | |l1|]|] eqn:Hval;
        try discriminate.
      apply IH; [exact Hp|].
      intros l' name Hreach Howns. apply Hs; [|exact Howns].
      apply (reaches_nested mm o l r cd f l1 l'); auto. }
  rewrite Hds. cbn. eauto.
Qed.

(** X16: salt and then root: on such a record, salt returns and root on
    the salted record returns the hexadecimal text of its node hash. *)
Theorem salt_then_root mm depth fuel l s :
  conforms mm (objects s) depth l = true ->
  (depth <= fuel)%nat ->
  (32 * draws mm (objects s) depth l <= length (entropy s))%nat ->
  exists s1 d s2,
    Merkle.salt mm fuel (VResource l) s = Return tt s1 /\
    root_digest mm (objects s1) depth l = Some d /\
    Merkle.root mm fuel (VResource l) s1 = Return (Hex.encode d) s2.
Proof.
  intros Hc Hle He.
  destruct (salt_returns mm depth fuel l s Hc Hle He) as (o' & Hrun & Hsh).
  pose proof (salt_leaves_salted _ _ _ _ _ Hrun) as Hsalted.
  cbn [objects] in Hsalted.
  destruct (salted_root_digest mm (objects s) o' Hsh depth l Hc Hsalted)
    as [d Hd].
  eexists. exists d.
  destruct (root_is_the_merkle_root mm depth fuel l d
              (mkState o' (with_stack [] no_parameters)
                 (drop (32 * draws mm (objects s) depth l) (entropy s)))
              Hd Hle) as (s2 & Hroot).
  exists s2. split; [exact Hrun|]. split; [exact Hd|exact Hroot].
Qed.

Lemma salt_then_root_witness :
  exists s1 d s2,
    Merkle.salt Scenario.s4_model 2 (VResource 1) Scenario.s4_fresh
    = Return tt s1 /\
    root_digest Scenario.s4_model (objects s1) 2 1 = Some d /\
    Merkle.root Scenario.s4_model 2 (VResource 1) s1 = Return (Hex.encode d) s2.
Proof.
  apply (salt_then_root Scenario.s4_model 2 2 1%positive Scenario.s4_fresh).
  - vm_compute. reflexivity.
  - lia.
  - vm_compute. lia.
Defined.

(** ** From a fresh record to a verified disclosure *)

Lemma salted_leaf_digest mm o o' l r r' cd nested g :
  o !! l = Some r -> o' !! l = Some r' -> r_values r' = r_values r ->
  mm !! r_type r = Some cd ->
  AField g ∈ cd_properties cd ->
  isArray g = false -> isPrimitive g = true ->
  forallb (property_conforms nested r) (cd_properties cd) = true ->
  leaves_salted mm o o' l ->
  exists salt text,
    r_salts r' !! f_name g = Some salt /\
    JSON_stringify (default VUndefined (r_values r' !! f_name g)) = JText text /\
    leaf_digest r' (f_name g) = Some (sha256 (utf8 text ++ salt)).
Proof.
  intros Hl Hl' Hv Hcd Hin Ha Hp Hall Hs.
  destruct (Hs l (f_name g)) as (b & Hb & _).
  { constructor. }
  { exists r, cd, g. auto 10. }
  unfold salt_of in Hb. rewrite Hl' in Hb. cbn in Hb.
  pose proof (forallb_elem _ _ _ Hall Hin) as Hc.
  cbn in Hc. rewrite Ha, Hp in Hc. cbn in Hc.
  destruct (JSON_stringify (default VUndefined (r_values r !! f_name g)))
    as [text| |] eqn:Hj; try discriminate.
  exists b, text. rewrite Hv. split; [exact Hb|]. split; [exact Hj|].
  unfold leaf_digest. rewrite Hb. cbn. unfold H_leaf. rewrite Hv, Hj.
  reflexivity.
Qed.

Lemma siblings_exist mm o o' l r r' cd nested name ps :
  o !! l = Some r -> o' !! l = Some r' -> r_values r' = r_values r ->
  mm !! r_type r = Some cd ->
  forallb (property_conforms nested r) (cd_properties cd) = true ->
  leaves_salted mm o o' l ->
  (forall p, p ∈ ps -> p ∈ cd_properties cd) ->
  Forall (beside name) ps ->
  exists ds, Forall2 (sibling r' name) ps ds.
Proof.
  intros Hl Hl' Hv Hcd Hall Hs Hsub Hps.
  induction Hps as [|p ps (g & -> & Ha & Hp & Hne) _ IH].
  - exists []. constructor.
  - destruct IH as (ds & Hds).
    { intros p Hin. apply Hsub. right. exact Hin. }
    destruct (salted_leaf_digest mm o o' l r r' cd nested g)
      as (salt & text & _ & _ & Hd); auto.
    { apply Hsub. left. }
    eexists (_ :: ds). constructor; [|exact Hds].
    exists g. split; [reflexivity|]. split; [exact Ha|]. split; [exact Hp|].
    split; [exact Hne|exact Hd].
Qed.

Lemma flat_opens mm o o' :
  same_shape o o' ->
  forall l path,
    flat_path mm o l path ->
    forall depth,
      conforms mm o depth l = true ->
      leaves_salted mm o o' l ->
      (length path <= depth)%nat /\
      exists d hs v salt, opens mm o' l path d hs v salt.
Proof.
  intros Hsh l path H.
  induction H as [l r cd pre f post Hl Hcd Hprops Hpre Hpost Ha Hp
                 |l r cd pre f post l1 r1 rest Hl Hcd Hprops Hpre Hpost Ha Hty
                    Hval Hl1 Hsub IH];
    intros depth Hc Hs;
    destruct (conforms_true _ _ _ _ Hc) as (d & r0 & cd0 & -> & Hl0 & Hcd0 & Hall);
    rewrite Hl in Hl0; injection Hl0 as <-;
    rewrite Hcd in Hcd0; injection Hcd0 as <-;
    destruct (same_shape_at o o' l r Hsh Hl) as (r' & Hl' & Ht & Hv);
    (assert (AField f ∈ cd_properties cd) as Hin
       by (rewrite Hprops; apply elem_of_app; right; left));
    (destruct (siblings_exist mm o o' l r r' cd _ (f_name f) pre
                 Hl Hl' Hv Hcd Hall Hs) as (pds & Hpds);
       [intros p Hp'; rewrite Hprops; apply elem_of_app; left; exact Hp'
       |exact Hpre|]);
    (destruct (siblings_exist mm o o' l r r' cd _ (f_name f) post
                 Hl Hl' Hv Hcd Hall Hs) as (qds & Hqds);
       [intros p Hp'; rewrite Hprops; apply elem_of_app; right; right; exact Hp'
       |exact Hpost|]).
  - split; [cbn; lia|].
    destruct (salted_leaf_digest mm o o' l r r' cd _ f Hl Hl' Hv Hcd Hin Ha Hp
                Hall Hs) as (salt & text & Hsalt & Hj & _).
    do 4 eexists.
    apply (opens_leaf mm o' l r' cd pre f post pds qds salt text); auto.
    rewrite Ht. exact Hcd.
  - pose proof (forallb_elem _ _ _ Hall Hin) as Hf.
    assert (isPrimitive f = false) as Hprim
      by (unfold isPrimitive; rewrite Hty; reflexivity).
    assert (isEnum f = false) as Henum
      by (unfold isEnum; rewrite Hty; reflexivity).
    cbn in Hf. rewrite Ha, Hprim, Henum, Hval in Hf. cbn in Hf.
    destruct (IH d Hf) as (Hlen & d1 & hs & v & salt & Hopens).
    { intros l' name Hreach Howns. apply Hs; [|exact Howns].
      apply (reaches_nested mm o l r cd f l1 l'); auto. }
    split; [cbn; lia|].
    destruct (same_shape_at o o' l1 r1 Hsh Hl1) as (r1' & Hl1' & Ht1 & _).
    do 4 eexists.
    apply (opens_node mm o' l r' cd pre f post pds qds l1 r1' rest d1 hs v salt);
      auto.
    + rewrite Ht. exact Hcd.
    + rewrite Ht1. exact Hty.
    + rewrite Hv. exact Hval.
Qed.

(** X17: from a fresh record to a verified disclosure.  On a record of
    primitive fields with a canonical text and of nested records of the same
    kind, for a path beside which all properties are primitive fields of
    other names, salt, root, proof for the path and verify for the path,
    one after the other, all return, and verify returns true. *)
Theorem fresh_record_round_trip mm depth fuel l r ns type path s :
  conforms mm (objects s) depth l = true ->
  flat_path mm (objects s) l path ->
  objects s !! l = Some r ->
  r_type r = (ns ++ "." ++ type)%string ->
  (depth <= fuel)%nat ->
  (32 * draws mm (objects s) depth l <= length (entropy s))%nat ->
  exists s',
    Scenario.disclose_and_verify mm fuel (VResource l) ns type path path s
    = Return true s'.
Proof.
  intros Hc Hflat Hl Hty Hle He.
  destruct (salt_returns mm depth fuel l s Hc Hle He) as (o' & Hsalt & Hsh).
  pose proof (salt_leaves_salted _ _ _ _ _ Hsalt) as Hsalted.
  cbn [objects] in Hsalted.
  destruct (flat_opens mm (objects s) o' Hsh l path Hflat depth Hc Hsalted)
    as (Hlen & d & hs & v & salt & Hopens).
  destruct (same_shape_at _ _ l r Hsh Hl) as (r' & Hl' & Ht & _).
  destruct (opens_round_trip mm fuel l r' ns type path d hs v salt
              (mkState o' (with_stack [] no_parameters)
                 (drop (32 * draws mm (objects s) depth l) (entropy s))))
    as (s1 & s2 & s3 & Hroot & Hproof & Hverify).
  - exact Hopens.
  - exact Hl'.
  - rewrite Ht. exact Hty.
  - lia.
  - exists s3. unfold Scenario.disclose_and_verify.
    erewrite bind_run_Return; [|exact Hsalt].
    erewrite bind_run_Return; [|exact Hroot].
    erewrite bind_run_Return; [|exact Hproof].
    exact Hverify.
Qed.

Lemma fresh_record_round_trip_witness :
  exists s',
    Scenario.disclose_and_verify Scenario.s4_model 2 (VResource 1)
      "org.test" "Outer" ["inner"; "k"]%string ["inner"; "k"]%string
      Scenario.s4_fresh
    = Return true s'.
Proof.
  apply (fresh_record_round_trip Scenario.s4_model 2 2 1%positive
           (Scenario.obj "org.test.Outer"
              [("inner"%string, VResource 2%positive); ("a"%string, VString "x")]
              [])
           "org.test" "Outer" ["inner"; "k"]%string Scenario.s4_fresh).
  - vm_compute. reflexivity.
  - apply (flat_node Scenario.s4_model (objects Scenario.s4_fresh) 1%positive
             (Scenario.obj "org.test.Outer"
                [("inner"%string, VResource 2%positive);
                 ("a"%string, VString "x")] [])
             (mkClassDeclaration "org.test.Outer"
                [Scenario.nested "inner" "org.test.Inner"; Scenario.str "a"])
             [] (mkField "inner" (Class "org.test.Inner") false)
             [Scenario.str "a"] 2%positive
             (Scenario.obj "org.test.Inner" [("k"%string, VString "v")] [])
             ["k"%string]).
    + reflexivity.
    + reflexivity.
    + reflexivity.
    + constructor.
    + constructor; [|constructor].
      exists (mkField "a" (Primitive TString) false).
      split; [reflexivity|]. split; [reflexivity|]. split; [reflexivity|].
      discriminate.
    + reflexivity.
    + reflexivity.
    + reflexivity.
    + reflexivity.
    + apply (flat_leaf Scenario.s4_model (objects Scenario.s4_fresh) 2%positive
               (Scenario.obj "org.test.Inner" [("k"%string, VString "v")] [])
               (mkClassDeclaration "org.test.Inner" [Scenario.str "k"])
               [] (mkField "k" (Primitive TString) false) []).
      * reflexivity.
      * reflexivity.
      * reflexivity.
      * constructor.
      * constructor.
      * reflexivity.
      * reflexivity.
  - reflexivity.
  - reflexivity.
  - lia.
  - vm_compute. lia.
Defined.

(** ** A primitive field without a value *)

(** X18: when the class starts with a primitive field that the record
    leaves unset, root raises the TypeError of [hash.update] on the
    undefined text of [JSON.stringify], with or without a salt for the
    field; proof raises it as well unless the path names that field. *)
Theorem unset_primitive_value mm fuel l r cd f rest path s :
  objects s !! l = Some r ->
  mm !! r_type r = Some cd ->
  cd_properties cd = AField f :: rest ->
  isArray f = false -> isPrimitive f = true ->
  r_values r !! f_name f = None ->
  path <> [f_name f] ->
  (exists s', Merkle.root mm (S fuel) (VResource l) s
              = Throw (TypeError InvalidArgType) s') /\
  (exists s', Merkle.proof mm (S fuel) (VResource l) path s
              = Throw (TypeError InvalidArgType) s').
Proof.
  intros Hobj Hcd Hprops Harr Hprim Hval Hpath.
  assert (pathEquals path [f_name f] = false) as Hpe.
  { destruct (pathEquals path [f_name f]) eqn:H; [|reflexivity].
    apply pathEquals_true in H. contradiction. }
  split.
  - unfold Merkle.root, getProperties. run. eexists; reflexivity.
  - unfold Merkle.proof, getProperties. run. eexists; reflexivity.
Qed.

Lemma unset_primitive_value_witness :
  (exists s', Merkle.root Scenario.s1_model 1 (VResource 1) Scenario.s1_no_value
              = Throw (TypeError InvalidArgType) s') /\
  (exists s', Merkle.proof Scenario.s1_model 1 (VResource 1) [] Scenario.s1_no_value
              = Throw (TypeError InvalidArgType) s').
Proof.
  apply (unset_primitive_value Scenario.s1_model 0 1%positive
           (Scenario.obj "org.test.Thing" [] [("name"%string, Scenario.zeros32)])
           (mkClassDeclaration "org.test.Thing" [Scenario.str "name"])
           (mkField "name" (Primitive TString) false) []).
  - reflexivity.
  - reflexivity.
  - reflexivity.
  - reflexivity.
  - reflexivity.
  - reflexivity.
  - discriminate.
Defined.

(** ** The loop of [Merkle.proof] *)

(** X19: the [while (p)] loop of [Merkle.proof] ends: every iteration
    goes one level down in the results of the proof walk, so within the
    nesting depth of the results it has returned a proof or raised. *)
Theorem proof_loop_ends p hashes s s' :
  Merkle.flatten (node_depth (Results p)) p hashes s <> Exhausted s'.
Proof.
  apply flatten_ends. cbn [node_depth]. fold (results_depth p). lia.
Qed.

(** ** Verify with too few entries in [hashes] *)

Lemma bind_hashes_shift_none {B} (k : list Buffer * list Buffer -> M B)
    o r pa cp st v sa e :
  bind VerifyVisitor.hashes_shift k
       (mkState o (mkParameters r pa cp st [] v sa) e)
  = Throw (TypeError NotIterable) (mkState o (mkParameters r pa cp st [] v sa) e).
Proof. reflexivity. Qed.

Lemma leads_verify_short mm cd rel :
  leads mm cd rel ->
  forall fuel hs, (length hs < length rel)%nat -> (length rel <= fuel)%nat ->
  forall o root cp st v salt e text,
    JSON_stringify v = JText text ->
    exists s',
      VerifyVisitor.visitClassDeclaration mm fuel cd
        (mkState o (mkParameters root (cp ++ rel) cp st hs v salt) e)
      = Throw (TypeError NotIterable) s'.
Proof.
  intros H.
  induction H as [cd pre f post Hprops Hpre Ha Hp
                 |cd pre f post cd1 rest Hprops Hpre Ha Hp He Hcd1 Hsub IH];
    intros fuel hs Hhs Hle o root cp st v salt e text Hj;
    (destruct fuel as [|fuel]; [cbn in Hle; lia|]);
    rewrite verify_visitor_S; unfold getProperties; rewrite Hprops; step;
    rewrite verify_passes_by by assumption;
    rewrite verify_properties_cons;
    cbn [VerifyVisitor.visit getName]; unfold VerifyVisitor.visitField;
    rewrite Ha, Hp.
  - destruct hs as [|? ?]; [|cbn in Hhs; lia].
    steps. cbn [p_path p_currentPath p_value p_salt].
    rewrite path_here, Hj. steps. cbn [app]. steps.
    rewrite bind_hashes_shift_none. eexists. reflexivity.
  - rewrite He. steps.
    assert (length rest <= fuel)%nat as Hle' by (cbn in Hle; lia).
    destruct (decide (length hs < length rest)%nat) as [Hlt|Hge].
    + destruct (IH fuel hs Hlt Hle' o false (cp ++ [f_name f]) st v salt e text Hj)
        as (s' & Hcall).
      rewrite <- !app_assoc in Hcall. cbn [app] in Hcall.
      rewrite ?bind_assoc. erewrite bind_run_Throw; [|exact Hcall].
      eexists. reflexivity.
    + assert (length hs = length rest) as Heq by (cbn in Hhs; lia).
      pose proof (leads_verify mm cd1 rest Hsub fuel hs Heq Hle' o false
                    (cp ++ [f_name f]) st [] v salt e text Hj) as Hcall.
      rewrite <- !app_assoc in Hcall. cbn [app] in Hcall.
      rewrite app_nil_r in Hcall.
      rewrite ?bind_assoc. erewrite bind_run_Return; [|exact Hcall].
      steps. rewrite bind_hashes_shift_none. eexists. reflexivity.
Qed.

(** X20: for a path that the schema leads along to a primitive leaf, a
    proof whose [hashes] has fewer entries than the path has names is not
    answered with false: verify raises the TypeError of destructuring the
    undefined result of [hashes.shift()]. *)
Theorem verify_with_too_few_hashes
    mm fuel ns type cd path root proof text s :
  mm !! (ns ++ "." ++ type)%string = Some cd ->
  leads mm cd path ->
  (length path <= fuel)%nat ->
  (length (proof_hashes proof) < length path)%nat ->
  JSON_stringify (proof_value proof) = JText text ->
  exists s',
    Merkle.verify mm fuel ns type path root proof s
    = Throw (TypeError NotIterable) s'.
Proof.
  intros Hcd Hleads Hfuel Hhashes Hj. destruct s as [o p e].
  unfold Merkle.verify. steps. unfold bind at 1. cbn [set_parameters].
  cbn [objects entropy]. fold (parsed_hashes proof).
  destruct (leads_verify_short mm cd path Hleads fuel (parsed_hashes proof))
    with (o := o) (root := false) (cp := @nil string) (st := @nil Value)
         (v := proof_value proof) (salt := Hex.decode (proof_salt proof))
         (e := e) (text := text) as (s' & Hcall); try assumption.
  { unfold parsed_hashes. rewrite length_map. exact Hhashes. }
  cbn [app] in Hcall.
  exists s'. erewrite bind_run_Throw; [reflexivity|exact Hcall].
Qed.

Lemma verify_with_too_few_hashes_witness :
  exists s',
    Merkle.verify Scenario.s1_model 1 "org.test" "Thing" ["name"%string]
      Scenario.s1_root_hex
      (mkProof [] (VString "alice") (Hex.encode Scenario.zeros32))
      Scenario.s1_state
    = Throw (TypeError NotIterable) s'.
Proof.
  apply (verify_with_too_few_hashes Scenario.s1_model 1 "org.test" "Thing"
           (mkClassDeclaration "org.test.Thing" [Scenario.str "name"])
           ["name"%string] Scenario.s1_root_hex
           (mkProof [] (VString "alice") (Hex.encode Scenario.zeros32))
           (quote "alice") Scenario.s1_state).
  - reflexivity.
  - apply (leads_leaf Scenario.s1_model
             (mkClassDeclaration "org.test.Thing" [Scenario.str "name"])
             [] (mkField "name" (Primitive TString) false) []).
    + reflexivity.
    + constructor.
    + reflexivity.
    + reflexivity.
  - cbn. lia.
  - cbn. lia.
  - reflexivity.
Defined.
